(** * rnn-registration: the recurrent registration bottleneck

    A shallow embedding of [src/models/bottleneck.py]: the encoder/decoder
    network [Unet2] with its two forward modes, the convolutional block
    [ConvBlock] and the orchestrator [Bottleneck].

    Python exceptions are values of [exn]; a call that may raise returns a
    [result].  A list that the source mutates in place (the history stack
    popped by the decode pass) is passed in and handed back.  The tensor
    library is an interface ([Torch]): the network code is written once
    against it, and [ShapeTorch] instantiates it with the shape arithmetic
    of the library, which is all that the control flow and the failures of
    this file depend on. *)

From Stdlib Require Import List String Ascii Arith ZArith Lia Bool QArith_base
  DecimalString.
Import ListNotations.
Local Open Scope nat_scope.
Local Open Scope list_scope.

Set Implicit Arguments.

(** ** Python values: exceptions, results, lists *)

Inductive exn : Type :=
| AssertionError (msg : string)
| ValueError (msg : string)
| IndexError (msg : string)
| TypeError (msg : string)
| AttributeError (msg : string)
| ZeroDivisionError (msg : string)
| RuntimeError (msg : string).

Inductive result (A : Type) : Type :=
| Ok (a : A)
| Err (e : exn).

Arguments Ok {A} a.
Arguments Err {A} e.

Definition bind {A B : Type} (r : result A) (k : A -> result B) : result B :=
  match r with
  | Ok a => k a
  | Err e => Err e
  end.

Notation "x <- r ;; k" := (bind r (fun x => k))
  (at level 61, r at next level, right associativity).
Notation "' pat <- r ;; k" := (bind r (fun x => match x with pat => k end))
  (at level 61, pat pattern, r at next level, right associativity).

(** [assert cond, msg] *)
Definition py_assert (cond : bool) (msg : string) : result unit :=
  if cond then Ok tt else Err (AssertionError msg).

(** [for x in xs: body], the loop variables threaded as the state [s]. *)
Fixpoint for_each {X S : Type} (xs : list X) (body : X -> S -> result S) (s : S)
  : result S :=
  match xs with
  | [] => Ok s
  | x :: xs' => s' <- body x s ;; for_each xs' body s'
  end.

(** [[f(x) for x in xs]] *)
Fixpoint comprehension {X Y : Type} (f : X -> result Y) (xs : list X)
  : result (list Y) :=
  match xs with
  | [] => Ok []
  | x :: xs' => y <- f x ;; ys <- comprehension f xs' ;; Ok (y :: ys)
  end.

(** [enumerate(xs)] *)
Definition enumerate {X : Type} (xs : list X) : list (nat * X) :=
  combine (seq 0 (List.length xs)) xs.

(** [range(n)] *)
Definition range (n : nat) : list nat := seq 0 n.

(** [xs[i]] for a non-negative index *)
Definition getitem {X : Type} (xs : list X) (i : nat) : result X :=
  match nth_error xs i with
  | Some x => Ok x
  | None => Err (IndexError "list index out of range")
  end.

(** [xs.pop()]: removes and returns the last element. *)
Fixpoint pop {X : Type} (xs : list X) : result (X * list X) :=
  match xs with
  | [] => Err (IndexError "pop from empty list")
  | x :: xs' =>
      match xs' with
      | [] => Ok (x, [])
      | _ :: _ => '(y, r) <- pop xs' ;; Ok (y, x :: r)
      end
  end.

(** [xs[:-1]] and [xs[1:]] *)
Definition but_last {X : Type} (xs : list X) : list X := removelast xs.
Definition but_first {X : Type} (xs : list X) : list X := tl xs.

(** [np.repeat(xs, n)] and [np.flip(xs)] on one-dimensional arrays *)
Definition np_repeat {X : Type} (xs : list X) (n : nat) : list X :=
  flat_map (fun x => repeat x n) xs.
Definition np_flip {X : Type} (xs : list X) : list X := rev xs.

(** ['%d' % n] *)
Definition percent_d (n : nat) : string :=
  NilZero.string_of_uint (Nat.to_uint n).

(** ** The modules of [torch.nn] that the file instantiates

    Only their construction arguments are recorded here; what they
    compute is the [Torch] interface below. *)

Record ConvNd : Type := {
  conv_ndims : nat;
  in_channels : nat;
  out_channels : nat;
  kernel_size : nat;
  stride : nat;
  padding : nat
}.

Record LeakyReLU : Type := { negative_slope : Q }.

Record MaxPool : Type := { pool_ndims : nat; pool_kernel : nat }.

Record Upsample : Type := { scale_factor : nat }.

Record LSTM : Type := {
  lstm_input_size : nat;
  lstm_hidden_size : nat;
  batch_first : bool
}.

(** [utils.spatial_transform.SpatialTransformer(size)] *)
Record SpatialTransformer : Type := { st_size : list nat }.

(** The tensor library.  [rng] is the state of the global random generator
    that [torch.randn] reads and advances.  A module's learned parameters
    are fixed during a forward pass, so the operation of a module is a
    function of the module. *)
Class Torch (tensor rng : Type) : Type := {
  shape : tensor -> list nat;
  conv_forward : ConvNd -> tensor -> result tensor;
  leaky_relu : LeakyReLU -> tensor -> tensor;
  max_pool_forward : MaxPool -> tensor -> result tensor;
  upsample_forward : Upsample -> tensor -> result tensor;
  cat : list tensor -> nat -> result tensor;
  unsqueeze : tensor -> nat -> tensor;
  view : tensor -> list Z -> result tensor;
  unbind : tensor -> result (list tensor);
  randn : list nat -> rng -> tensor * rng;
  lstm_forward : LSTM -> tensor -> tensor * tensor ->
                 result (tensor * (tensor * tensor));
  spatial_transformer_forward : SpatialTransformer -> tensor -> tensor ->
                                result tensor
}.

(** ** [ConvBlock] *)

Record ConvBlock : Type := { main : ConvNd; activation : LeakyReLU }.

(** [ConvBlock.__init__(ndims, in_channels, out_channels, stride=1)].
    [getattr(nn, 'Conv%dd' % ndims)] exists for one, two and three
    dimensions only. *)
Definition ConvBlock_init (ndims in_ch out_ch strd : nat) : result ConvBlock :=
  if existsb (Nat.eqb ndims) [1; 2; 3] then
    Ok {| main := {| conv_ndims := ndims; in_channels := in_ch;
                     out_channels := out_ch; kernel_size := 3;
                     stride := strd; padding := 1 |};
          activation := {| negative_slope := (2 # 10)%Q |} |}
  else
    Err (AttributeError
           (String.append "module 'torch.nn' has no attribute 'Conv"
              (String.append (percent_d ndims) "d'"))).

(** ** [Unet2]: construction *)

Record Unet2 : Type := {
  half_res : bool;
  nb_levels : nat;
  pooling : list MaxPool;
  upsampling : list Upsample;
  encoder : list (list ConvBlock);
  decoder : list (list ConvBlock);
  remaining : list ConvBlock;
  final_nf : nat
}.

(** The [nb_features] argument once it is not [None]: an integer, or the
    two lists [[enc_nf, dec_nf]]. *)
Inductive features : Type :=
| FeatInt (n : nat)
| FeatLists (enc_nf dec_nf : list nat).

(** The [max_pool] argument: an integer or a list of factors. *)
Inductive max_pool_arg : Type :=
| PoolInt (s : nat)
| PoolList (ss : list nat).

(** The inner loop of both paths (lines 121-124 and 133-136):
    [for conv in range(nb_conv_per_level)] appends one block per entry of
    [nfs] at index [level * nb_conv_per_level + conv]. *)
Definition level_convs (ndims : nat) (nfs : list nat)
    (nb_conv_per_level level prev_nf : nat) : result (list ConvBlock * nat) :=
  for_each (range nb_conv_per_level)
    (fun conv '(convs, prev_nf) =>
       nf <- getitem nfs (level * nb_conv_per_level + conv) ;;
       c <- ConvBlock_init ndims prev_nf nf 1 ;;
       Ok (convs ++ [c], nf))
    ([], prev_nf).

(** The skip test of line 138 and line 170:
    [not half_res or level < (nb_levels - 2)].  It is evaluated only inside
    a loop over [range(nb_levels - 1)], where [nb_levels >= 2], so the
    truncated subtraction agrees with Python's. *)
Definition takes_skip (half : bool) (nb_lvls level : nat) : bool :=
  negb half || (level <? nb_lvls - 2).

(** Lines 116-126, "configure encoder (down-sampling path)": the final
    [prev_nf], the list [encoder_nfs] and the encoder levels. *)
Definition configure_encoder (ndims : nat) (enc_nf : list nat)
    (nb_conv_per_level nb_lvls infeats : nat)
  : result (nat * list nat * list (list ConvBlock)) :=
  for_each (range (nb_lvls - 1))
    (fun level '(prev_nf, encoder_nfs, enc) =>
       '(convs, prev_nf) <-
         level_convs ndims enc_nf nb_conv_per_level level prev_nf ;;
       Ok (prev_nf, encoder_nfs ++ [prev_nf], enc ++ [convs]))
    (infeats, [infeats], []).

(** Lines 130-139, "configure decoder (up-sampling path)", with
    [encoder_nfs] already flipped. *)
Definition configure_decoder (ndims : nat) (dec_nf encoder_nfs : list nat)
    (nb_conv_per_level nb_lvls : nat) (half : bool) (prev_nf : nat)
  : result (nat * list (list ConvBlock)) :=
  for_each (range (nb_lvls - 1))
    (fun level '(prev_nf, dec) =>
       '(convs, prev_nf) <-
         level_convs ndims dec_nf nb_conv_per_level level prev_nf ;;
       if takes_skip half nb_lvls level then
         skip <- getitem encoder_nfs level ;;
         Ok (prev_nf + skip, dec ++ [convs])
       else Ok (prev_nf, dec ++ [convs]))
    (prev_nf, []).

(** Lines 142-145, "now we take care of any remaining convolutions". *)
Definition configure_remaining (ndims : nat) (final_convs : list nat)
    (prev_nf : nat) : result (nat * list ConvBlock) :=
  for_each final_convs
    (fun nf '(prev_nf, rem) =>
       c <- ConvBlock_init ndims prev_nf nf 1 ;;
       Ok (nf, rem ++ [c]))
    (prev_nf, []).

(** A value of numpy's [int64]: the integer [z] wrapped around into
    [[-2^63, 2^63)], as the array arithmetic of line 92 does silently. *)
Definition int64 (z : Z) : Z := ((z + 2 ^ 63) mod 2 ^ 64 - 2 ^ 63)%Z.

(** Line 92: [np.round(nb_features * feat_mult ** np.arange(nb_levels))
    .astype(int)], for integers [nb_features] and [feat_mult] that are
    themselves in the range of [int64].  The power and the product are
    array operations on [int64]; [np.round] is the identity on them. *)
Definition derived_feats (n feat_mult lv : nat) : list Z :=
  map (fun k => int64 (Z.of_nat n * int64 (Z.of_nat feat_mult ^ Z.of_nat k)))
    (range lv).

(** Lines 83-98: the feature lists [[enc_nf, dec_nf]] from the arguments.
    The widths of this file are naturals.  A derived width that the
    wrap-around made negative makes the constructor of the convolution that
    receives it raise; with [nb_conv_per_level >= 1] every derived width
    reaches one, so the failure is raised as soon as the widths are
    known. *)
Definition feature_lists (nb_features : option features)
    (nb_levels_arg : option nat) (feat_mult nb_conv_per_level : nat)
  : result (list nat * list nat) :=
  (* default encoder and decoder layer features if nothing provided *)
  let nb_features :=
    match nb_features with
    | None => FeatLists [16; 32; 32; 32] [32; 32; 32; 32; 32; 16; 16]
    | Some f => f
    end in
  (* build feature list automatically *)
  match nb_features with
  | FeatInt n =>
      match nb_levels_arg with
      | None =>
          Err (ValueError
                 "must provide unet nb_levels if nb_features is an integer")
      | Some lv =>
          let feats := derived_feats n feat_mult lv in
          if negb (nb_conv_per_level =? 0)
             && existsb (fun z => (z <? 0)%Z) feats then
            Err (RuntimeError "Trying to create tensor with negative dimension")
          else
            let feats := map Z.to_nat feats in
            Ok (np_repeat (but_last feats) nb_conv_per_level,
                np_repeat (np_flip feats) nb_conv_per_level)
      end
  | FeatLists enc_nf dec_nf =>
      match nb_levels_arg with
      | Some _ =>
          Err (ValueError
                 "cannot use nb_levels if nb_features is not an integer")
      | None => Ok (enc_nf, dec_nf)
      end
  end.

(** [Unet2.__init__].  Counts ([nb_conv_per_level], [nb_levels], the
    entries of the feature lists and the pooling factors) are naturals. *)
Definition Unet2_init (inshape : list nat) (infeats : nat)
    (nb_features : option features) (nb_levels_arg : option nat)
    (max_pool : max_pool_arg) (feat_mult nb_conv_per_level : nat)
    (half : bool) : result Unet2 :=
  let ndims := List.length inshape in
  _ <- py_assert (existsb (Nat.eqb ndims) [1; 2; 3])
         (String.append "ndims should be one of 1, 2, or 3. found: "
            (percent_d ndims)) ;;
  '(enc_nf, dec_nf) <-
    feature_lists nb_features nb_levels_arg feat_mult nb_conv_per_level ;;
  (* extract any surplus (full resolution) decoder convolutions *)
  let nb_dec_convs := List.length enc_nf in
  let final_convs := skipn nb_dec_convs dec_nf in
  let dec_nf := firstn nb_dec_convs dec_nf in
  nb_lvls <-
    (if nb_conv_per_level =? 0
     then Err (ZeroDivisionError "division by zero")
     else Ok (nb_dec_convs / nb_conv_per_level + 1)) ;;
  let max_pool :=
    match max_pool with
    | PoolInt s => repeat s nb_lvls
    | PoolList ss => ss
    end in
  (* cache downsampling / upsampling operations *)
  let pools := map (fun s => {| pool_ndims := ndims; pool_kernel := s |}) max_pool in
  let ups := map (fun s => {| scale_factor := s |}) max_pool in
  '(prev_nf, encoder_nfs, enc) <-
    configure_encoder ndims enc_nf nb_conv_per_level nb_lvls infeats ;;
  let encoder_nfs := np_flip encoder_nfs in
  '(prev_nf, dec) <-
    configure_decoder ndims dec_nf encoder_nfs nb_conv_per_level nb_lvls half
      prev_nf ;;
  '(prev_nf, rem) <- configure_remaining ndims final_convs prev_nf ;;
  (* cache final number of features *)
  Ok {| half_res := half; nb_levels := nb_lvls;
        pooling := pools; upsampling := ups;
        encoder := enc; decoder := dec; remaining := rem;
        final_nf := prev_nf |}.

(** ** Forward passes, over any tensor library *)

Section Forward.

Context {tensor rng : Type} {torch : Torch tensor rng}.

(** [ConvBlock.forward] *)
Definition ConvBlock_forward (self : ConvBlock) (x : tensor) : result tensor :=
  out <- conv_forward (main self) x ;;
  Ok (leaky_relu (activation self) out).

(** [for conv in convs: x = conv(x)] *)
Definition apply_convs (convs : list ConvBlock) (x : tensor) : result tensor :=
  for_each convs ConvBlock_forward x.

(** One turn of the encoder loop (lines 155-159). *)
Definition encode_level (self : Unet2) (lc : nat * list ConvBlock)
    (st : tensor * list tensor) : result (tensor * list tensor) :=
  let '(level, convs) := lc in
  let '(x, x_history) := st in
  x <- apply_convs convs x ;;
  let x_history := x_history ++ [x] in
  p <- getitem (pooling self) level ;;
  x <- max_pool_forward p x ;;
  Ok (x, x_history).

(** The encoder forward pass (lines 154-161). *)
Definition Unet2_encode (self : Unet2) (x : tensor)
  : result (tensor * list tensor) :=
  for_each (enumerate (encoder self)) (encode_level self) (x, [x]).

(** One turn of the decoder loop (lines 167-172): the history list is
    popped in place, so the turn hands back what is left of it. *)
Definition decode_level (self : Unet2) (lc : nat * list ConvBlock)
    (st : tensor * list tensor) : result (tensor * list tensor) :=
  let '(level, convs) := lc in
  let '(x, x_history) := st in
  x <- apply_convs convs x ;;
  if takes_skip (half_res self) (nb_levels self) level then
    u <- getitem (upsampling self) level ;;
    x <- upsample_forward u x ;;
    '(skip, x_history) <- pop x_history ;;
    x <- cat [x; skip] 1 ;;
    Ok (x, x_history)
  else Ok (x, x_history).

(** The decoder forward pass (lines 165-178): the output and the final
    content of the caller's history list. *)
Definition Unet2_decode (self : Unet2) (x : tensor)
    (x_history_ : option (list tensor)) : result (tensor * list tensor) :=
  match x_history_ with
  | None => Err (AssertionError "x_history_ is None.")
  | Some x_history =>
      '(x, x_history) <-
        for_each (enumerate (decoder self)) (decode_level self) (x, x_history) ;;
      (* remaining convs at full resolution *)
      x <- apply_convs (remaining self) x ;;
      Ok (x, x_history)
  end.

(** What [Unet2.forward] returns: the pair of the encode task, the tensor
    of the decode task, or [None] when control falls off the end. *)
Inductive forward_value : Type :=
| Encoded (x : tensor) (x_history : list tensor)
| Decoded (x : tensor)
| PyNone.

(** [Unet2.forward(x, task, x_history_=None)]: the returned value together
    with the content of the [x_history_] object after the call. *)
Definition Unet2_forward (self : Unet2) (x : tensor) (task : string)
    (x_history_ : option (list tensor))
  : result (forward_value * option (list tensor)) :=
  if String.eqb task "encode" then
    '(x, x_history) <- Unet2_encode self x ;;
    Ok (Encoded x x_history, x_history_)
  else if String.eqb task "decode" then
    '(x, x_history) <- Unet2_decode self x x_history_ ;;
    Ok (Decoded x, Some x_history)
  else Ok (PyNone, x_history_).

End Forward.

(** ** [Bottleneck] *)

Record Bottleneck : Type := {
  image_size : list nat;
  ndims : nat;
  unet : Unet2;
  input_size : nat;
  hidden_size : nat;
  lstm : LSTM;
  spatial_transformer : SpatialTransformer
}.

Definition enc_nf_ref : list nat := [16; 32; 32; 32; 64].
Definition dec_nf_ref : list nat := [64; 32; 32; 32; 32; 16; 16; 8; 2].

(** [nn.LSTM(input_size, hidden_size, batch_first=...)]: the constructor
    refuses a hidden state without units. *)
Definition LSTM_init (input_sz hidden_sz : nat) (bf : bool) : result LSTM :=
  if hidden_sz =? 0 then
    Err (ValueError "hidden_size must be greater than zero")
  else
    Ok {| lstm_input_size := input_sz; lstm_hidden_size := hidden_sz;
          batch_first := bf |}.

(** [Bottleneck.__init__(image_size)] *)
Definition Bottleneck_init (size : list nat) : result Bottleneck :=
  let enc_nf := enc_nf_ref in
  let dec_nf := dec_nf_ref in
  u <- Unet2_init size 2 (Some (FeatLists enc_nf dec_nf)) None (PoolInt 2) 1 1
         false ;;
  C <- getitem enc_nf (List.length enc_nf - 1) ;;
  s0 <- getitem size 0 ;;
  s1 <- getitem size 1 ;;
  let W := s0 / 2 ^ List.length enc_nf in
  let H := s1 / 2 ^ List.length enc_nf in
  l <- LSTM_init (C * W * H) (C * W * H) false ;;
  Ok {| image_size := size; ndims := List.length size; unet := u;
        input_size := C * W * H; hidden_size := C * W * H;
        lstm := l;
        spatial_transformer := {| st_size := size |} |}.

Section Orchestrator.

Context {tensor rng : Type} {torch : Torch tensor rng}.

(** What the first stage of [Bottleneck.forward] leaves in scope. *)
Record encoded : Type := {
  frames : list tensor;
  X_history : list (list tensor);
  encoder_out : tensor;
  T : nat; bs : nat; C : nat; W : nat; H : nat
}.

(** The loop of lines 31-35: one encode per consecutive pair of frames. *)
Definition encode_pairs (self : Bottleneck) (imgs : list tensor)
  : result (list tensor * list (list tensor)) :=
  for_each (combine (but_last imgs) (but_first imgs))
    (fun '(src, trg) '(X, X_hist) =>
       p <- cat [src; trg] 1 ;;
       r <- Unet2_forward (unet self) p "encode" None ;;
       match fst r with
       | Encoded x x_history =>
           Ok (X ++ [unsqueeze x 0], X_hist ++ [x_history])
       | _ => Err (TypeError "cannot unpack non-iterable object")
       end)
    ([], []).

(** Lines 31-36: the frames, the history lists and the stacked encoder
    features.  [images] is one tensor, iterated along its first axis. *)
Definition stack_pairs (self : Bottleneck) (images : tensor)
  : result (list tensor * list (list tensor) * tensor) :=
  imgs <- unbind images ;;
  '(X, X_hist) <- encode_pairs self imgs ;;
  enc_out <- cat X 0 ;;
  Ok (imgs, X_hist, enc_out).

(** Lines 38-40: the unpacking of the stacked shape and the two
    assertions at the entry of the recurrent stage. *)
Definition check_entry (imgs : list tensor) (X_hist : list (list tensor))
    (enc_out : tensor) : result encoded :=
  match shape enc_out with
  | [T'; bs'; C'; W'; H'] =>
      _ <- py_assert (bs' =? 1) "" ;;
      _ <- py_assert (T' =? 39) "" ;;
      Ok {| frames := imgs; X_history := X_hist; encoder_out := enc_out;
            T := T'; bs := bs'; C := C'; W := W'; H := H' |}
  | _ => Err (ValueError "wrong number of values to unpack (expected 5)")
  end.

(** Lines 31-40. *)
Definition encode_stage (self : Bottleneck) (images : tensor) : result encoded :=
  '(imgs, X_hist, enc_out) <- stack_pairs self images ;;
  check_entry imgs X_hist enc_out.

(** [[self.spatial_transformer(src, flow).unsqueeze(0) for src, flow in
    zip(seq[:-1], flow)]], concatenated (lines 54-55 and 58-59). *)
Definition warp_all (self : Bottleneck) (srcs flows : list tensor)
  : result tensor :=
  moved <- comprehension
             (fun '(src, flow) =>
                m <- spatial_transformer_forward (spatial_transformer self)
                       src flow ;;
                Ok (unsqueeze m 0))
             (combine (but_last srcs) flows) ;;
  cat moved 0.

(** Lines 46-62, from the two random draws [h_0] and [c_0] on.  The
    history lists popped by the decode calls are not read again. *)
Definition decode_stage (self : Bottleneck) (e : encoded)
    (labels : option tensor) (h_0 c_0 : tensor) : result (list tensor) :=
  let zT := Z.of_nat (T e) in
  let zbs := Z.of_nat (bs e) in
  flat <- view (encoder_out e) [zT; zbs; (-1)%Z] ;;
  '(lstm_out, _) <- lstm_forward (lstm self) flat (h_0, c_0) ;;
  lstm_out <- view lstm_out
                [zT; zbs; Z.of_nat (C e); Z.of_nat (W e); Z.of_nat (H e)] ;;
  steps <- unbind lstm_out ;;
  Y <- comprehension
         (fun i =>
            x_i <- getitem steps i ;;
            hist_i <- getitem (X_history e) i ;;
            r <- Unet2_forward (unet self) x_i "decode" (Some hist_i) ;;
            match fst r with
            | Decoded y => Ok (unsqueeze y 0)
            | _ => Err (AttributeError "object has no attribute 'unsqueeze'")
            end)
         (range (T e)) ;;
  flow <- cat Y 0 ;;
  flows <- unbind flow ;;
  moved_images <- warp_all self (frames e) flows ;;
  match labels with
  | Some lbls =>
      lbl_frames <- unbind lbls ;;
      moved_labels <- warp_all self lbl_frames flows ;;
      Ok [moved_images; moved_labels; flow]
  | None => Ok [moved_images; flow]
  end.

(** [Bottleneck.forward(images, labels=None)]: the returned list and the
    state of the random generator after the call.  The device transfer of
    the two draws is not modelled. *)
Definition Bottleneck_forward (self : Bottleneck) (images : tensor)
    (labels : option tensor) (g : rng) : result (list tensor) * rng :=
  match encode_stage self images with
  | Err e => (Err e, g)
  | Ok e =>
      let '(h_0, g) := randn [1; bs e; hidden_size self] g in
      let '(c_0, g) := randn [1; bs e; hidden_size self] g in
      (decode_stage self e labels h_0 c_0, g)
  end.

End Orchestrator.

(** ** The shape semantics of the tensor library

    A tensor is abstracted to its shape.  [Bottleneck] feeds the network
    the batched layout [N :: C :: d1 .. dn]; the modules also take the
    unbatched layout [C :: d1 .. dn].  Each operation follows the shape
    rule and the shape errors of the library. *)

Module ShapeSem.

Definition tshape : Type := list nat.

Definition numel (s : tshape) : nat := fold_right Nat.mul 1 s.

Definition same_shape (a b : tshape) : bool :=
  if list_eq_dec Nat.eq_dec a b then true else false.

Definition shape_error {A : Type} (msg : string) : result A :=
  Err (RuntimeError msg).

(** [nn.ConvNd] on the channel count [ch] and the spatial extents [dims]
    of its input: the weight needs at least one output channel, the input
    channels must match it, each spatial extent [d] becomes
    [(d + 2*padding - kernel_size) / stride + 1], and the padded input must
    be at least as large as the kernel.  The result is the channel axis
    followed by the spatial axes. *)
Definition conv_features (c : ConvNd) (ch : nat) (dims : list nat)
  : result tshape :=
  if out_channels c =? 0 then
    shape_error "conv: expected weight to be at least 1 at dimension 0"
  else if negb (ch =? in_channels c) then
    shape_error "conv: input channels do not match the weight"
  else if stride c =? 0 then
    shape_error "conv: non-positive stride is not supported"
  else if existsb (fun d => d + 2 * padding c <? kernel_size c) dims then
    shape_error "conv: kernel size can't be greater than actual input size"
  else
    Ok (out_channels c
          :: map (fun d => (d + 2 * padding c - kernel_size c) / stride c + 1)
               dims).

(** [nn.ConvNd]: the input is batched, [(N, C, d1 .. dn)], or unbatched,
    [(C, d1 .. dn)]; the rank decides which. *)
Definition conv_shape (c : ConvNd) (s : tshape) : result tshape :=
  match s with
  | a :: b :: dims =>
      if List.length dims =? conv_ndims c then
        r <- conv_features c b dims ;; Ok (a :: r)
      else if List.length (b :: dims) =? conv_ndims c then
        conv_features c a (b :: dims)
      else
        shape_error "conv: expected an input of ndims + 1 or ndims + 2 axes"
  | _ => shape_error "conv: expected an input of ndims + 1 or ndims + 2 axes"
  end.

(** [nn.MaxPoolNd(s)] on the channel count and the spatial extents: kernel
    and stride [s], no padding, floor mode: each spatial extent [d] becomes
    [(d - s) / s + 1]; an extent below the kernel gives an output of size
    zero, which is an error, and so is an input without channels. *)
Definition pool_features (p : MaxPool) (ch : nat) (dims : list nat)
  : result tshape :=
  let k := pool_kernel p in
  if k =? 0 then
    shape_error "max_pool: stride should be greater than zero"
  else if ch =? 0 then
    shape_error "max_pool: expected a tensor with optional 0 dim batch size"
  else if existsb (fun d => d <? k) dims then
    shape_error "max_pool: output size is too small"
  else Ok (ch :: map (fun d => (d - k) / k + 1) dims).

(** [nn.MaxPoolNd(s)]: batched or unbatched input, as for the
    convolution. *)
Definition max_pool_shape (p : MaxPool) (s : tshape) : result tshape :=
  match s with
  | a :: b :: dims =>
      if List.length dims =? pool_ndims p then
        r <- pool_features p b dims ;; Ok (a :: r)
      else if List.length (b :: dims) =? pool_ndims p then
        pool_features p a (b :: dims)
      else
        shape_error "max_pool: expected an input of ndims + 1 or ndims + 2 axes"
  | _ => shape_error "max_pool: expected an input of ndims + 1 or ndims + 2 axes"
  end.

(** [nn.Upsample(scale_factor=s, mode='nearest')]: the input is read as
    [(N, C, d1 .. dn)] with one to three spatial axes, whatever the
    dimension of the network; each spatial extent is multiplied by [s];
    the channel count and the sizes must be positive. *)
Definition upsample_shape (u : Upsample) (s : tshape) : result tshape :=
  match s with
  | n :: ch :: dims =>
      if negb (existsb (Nat.eqb (List.length dims)) [1; 2; 3]) then
        shape_error "upsample: expected 3D, 4D or 5D input"
      else if ch =? 0 then
        shape_error "upsample: non-empty data tensor expected"
      else if existsb (fun d => d * scale_factor u =? 0) dims then
        shape_error "upsample: input and output sizes should be greater than 0"
      else Ok (n :: ch :: map (fun d => d * scale_factor u) dims)
  | _ => shape_error "upsample: expected 3D, 4D or 5D input"
  end.

(** [torch.cat] of two shapes along [dim]: all other axes must agree. *)
Fixpoint cat2 (a b : tshape) (dim : nat) : result tshape :=
  match a, b with
  | x :: a', y :: b' =>
      match dim with
      | 0 =>
          if same_shape a' b' then Ok (x + y :: a')
          else shape_error "cat: sizes of tensors must match except in dim"
      | S dim' =>
          if x =? y then (r <- cat2 a' b' dim' ;; Ok (x :: r))
          else shape_error "cat: sizes of tensors must match except in dim"
      end
  | _, _ => shape_error "cat: dimension out of range"
  end.

(** [torch.cat(ts, dim)]: the list must not be empty; one-dimensional
    empty tensors, of shape [(0,)], are skipped, and when nothing else is
    left the result is such a tensor. *)
Definition cat_shape (ts : list tshape) (dim : nat) : result tshape :=
  match ts with
  | [] => shape_error "cat: expected a non-empty list of Tensors"
  | _ :: _ =>
      match filter (fun t => negb (same_shape t [0])) ts with
      | [] => Ok [0]
      | t :: ts' =>
          if dim <? List.length t then
            for_each ts' (fun t' acc => cat2 acc t' dim) t
          else shape_error "cat: dimension out of range"
      end
  end.

(** [t.unsqueeze(dim)] *)
Definition unsqueeze_shape (s : tshape) (dim : nat) : tshape :=
  firstn dim s ++ 1 :: skipn dim s.

(** [t.view(d1, .., dk)]: at most one entry is [-1] and is inferred from the
    number of elements. *)
Definition view_shape (s : tshape) (dims : list Z) : result tshape :=
  let known := filter (fun d => negb (d =? -1)%Z) dims in
  let k := numel (map Z.to_nat known) in
  if existsb (fun d => (d <? -1)%Z) dims then
    shape_error "view: invalid shape dimension"
  else
    match List.length dims - List.length known with
    | 0 =>
        if k =? numel s then Ok (map Z.to_nat dims)
        else shape_error "view: shape is invalid for input size"
    | 1 =>
        if k =? 0 then
          shape_error "view: cannot reshape, the unspecified dimension is ambiguous"
        else if numel s mod k =? 0 then
          Ok (map (fun d => if (d =? -1)%Z then numel s / k else Z.to_nat d) dims)
        else shape_error "view: shape is invalid for input size"
    | _ => shape_error "view: only one dimension can be inferred"
    end.

(** Iterating a tensor yields its slices along the first axis. *)
Definition unbind_shape (s : tshape) : result (list tshape) :=
  match s with
  | [] => Err (TypeError "iteration over a 0-d tensor")
  | n :: s' => Ok (repeat s' n)
  end.

(** [torch.randn(d1, .., dk)]: the generator state is a draw counter. *)
Definition randn_shape (dims : list nat) (g : nat) : tshape * nat :=
  (dims, S g).

(** [nn.LSTM(input_size, hidden_size, batch_first=False)], one layer: the
    input is [(T, N, input_size)] with [T > 0], both states are
    [(1, N, hidden_size)]. *)
Definition lstm_shape (l : LSTM) (input : tshape) (hc : tshape * tshape)
  : result (tshape * (tshape * tshape)) :=
  match input with
  | [a; b; i] =>
      let '(t, n) := if batch_first l then (b, a) else (a, b) in
      let state := [1; n; lstm_hidden_size l] in
      if negb (i =? lstm_input_size l) then
        shape_error "lstm: input.size(-1) must be equal to input_size"
      else if t =? 0 then
        shape_error "lstm: expected sequence length to be larger than 0"
      else if negb (same_shape (fst hc) state) then
        shape_error "lstm: expected hidden size does not match"
      else if negb (same_shape (snd hc) state) then
        shape_error "lstm: expected hidden size does not match"
      else
        Ok (if batch_first l then [n; t; lstm_hidden_size l]
            else [t; n; lstm_hidden_size l], (state, state))
  | _ => shape_error "lstm: input must have 3 dimensions"
  end.

(** Modelled from the spec: [utils.spatial_transform.SpatialTransformer]
    is not part of the sources.  Its contract is
    [warp(source_image, flow_field) -> warped_image], where the flow field
    gives one displacement per spatial axis at every position of the
    source's grid of the configured size; the warped output has the shape
    of the source. *)
Definition warp_shape (st : SpatialTransformer) (src flow : tshape)
  : result tshape :=
  match src, flow with
  | n :: ch :: dims, n' :: k :: dims' =>
      if (n =? n') && (k =? List.length (st_size st))
         && same_shape dims (st_size st)
         && same_shape dims' (st_size st)
      then Ok src
      else shape_error "warp: source, flow and grid sizes do not match"
  | _, _ => shape_error "warp: expected batched source and flow"
  end.

#[export] Instance ShapeTorch : Torch tshape nat := {|
  shape := fun s => s;
  conv_forward := conv_shape;
  leaky_relu := fun _ s => s;
  max_pool_forward := max_pool_shape;
  upsample_forward := upsample_shape;
  cat := cat_shape;
  unsqueeze := unsqueeze_shape;
  view := view_shape;
  unbind := unbind_shape;
  randn := randn_shape;
  lstm_forward := lstm_shape;
  spatial_transformer_forward := warp_shape
|}.

End ShapeSem.

Import ShapeSem.


Import ShapeSem.

(** ** Specification vocabulary *)

(** The number of decoder levels that take a skip connection, that is the
    number of entries one decode call pops. *)
Definition skip_levels (self : Unet2) : nat :=
  List.length
    (filter (takes_skip (half_res self) (nb_levels self))
       (range (List.length (decoder self)))).

(** The block that [ConvBlock_init ndims c nf 1] builds. *)
Definition block (nd c nf : nat) : ConvBlock :=
  {| main := {| conv_ndims := nd; in_channels := c; out_channels := nf;
                kernel_size := 3; stride := 1; padding := 1 |};
     activation := {| negative_slope := (2 # 10)%Q |} |}.

(** [chain nd c convs c']: the blocks of one level map [c] channels to [c']
    channels, each block taking what the previous one gives. *)
Inductive chain (nd : nat) : nat -> list ConvBlock -> nat -> Prop :=
| chain_nil : forall c, chain nd c [] c
| chain_cons : forall c nf convs c',
    chain nd nf convs c' -> chain nd c (block nd c nf :: convs) c'.

(** [enc_levels nd c levels es]: the encoder levels are chained, level [k]
    ending with [es[k]] channels. *)
Inductive enc_levels (nd : nat) : nat -> list (list ConvBlock) -> list nat -> Prop :=
| enc_levels_nil : forall c, enc_levels nd c [] []
| enc_levels_cons : forall c convs e levels es,
    chain nd c convs e -> enc_levels nd e levels es ->
    enc_levels nd c (convs :: levels) (e :: es).

(** [dec_levels nd skips lvl c levels c']: the decoder levels from index
    [lvl] on are chained, the input of the next level being the output of
    the level plus the width [skips[lvl]] of the skip connection. *)
Inductive dec_levels (nd : nat) (skips : list nat)
  : nat -> nat -> list (list ConvBlock) -> nat -> Prop :=
| dec_levels_nil : forall lvl c, dec_levels nd skips lvl c [] c
| dec_levels_cons : forall lvl c convs d skip levels c',
    chain nd c convs d -> nth_error skips lvl = Some skip ->
    dec_levels nd skips (S lvl) (d + skip) levels c' ->
    dec_levels nd skips lvl c (convs :: levels) c'.

(** The activations that the encoder records from extents [dims] on with
    pooling factor [p]: level [k] has [es[k]] channels at the extents
    pooled [k] times. *)
Fixpoint hist_of (n p : nat) (dims : list nat) (es : list nat) : list tshape :=
  match es with
  | [] => []
  | e :: es' => (n :: e :: dims) :: hist_of n p (map (fun d => d / p) dims) es'
  end.

(** The output widths of the convolutions of a list of levels, and of a
    whole network. *)
Definition level_widths (levels : list (list ConvBlock)) : list nat :=
  map (fun cb => out_channels (main cb)) (List.concat levels).

Definition conv_widths (self : Unet2) : list nat :=
  level_widths (encoder self) ++ level_widths (decoder self)
  ++ level_widths [remaining self].

(** [uniform_pool max_pool levels p]: the [max_pool] argument gives the
    factor [p] to each of the first [levels] levels, as the integer [p] or
    as a list that starts with [levels] entries [p]. *)
Definition uniform_pool (max_pool : max_pool_arg) (levels p : nat) : Prop :=
  match max_pool with
  | PoolInt s => s = p
  | PoolList ss => firstn levels ss = repeat p levels
  end.

(** The reference configuration of [Bottleneck] and small networks used
    as concrete inputs. *)
Definition unet_ref : result Unet2 :=
  Unet2_init [256; 256] 2 (Some (FeatLists enc_nf_ref dec_nf_ref)) None
    (PoolInt 2) 1 1 false.

Definition unet_half : result Unet2 :=
  Unet2_init [8; 8] 2 (Some (FeatLists [4] [4; 2])) None (PoolInt 2) 1 1 true.

Definition frame_pair_ref : tshape := [1; 2; 256; 256].
Definition bottleneck_ref : tshape := [1; 64; 8; 8].
Definition history_ref : list tshape :=
  [[1; 2; 256; 256]; [1; 16; 256; 256]; [1; 32; 128; 128]; [1; 32; 64; 64];
   [1; 32; 32; 32]; [1; 64; 16; 16]].
Definition images_ref : tshape := [40; 1; 1; 256; 256].

(** ** Results and loops *)

Lemma bind_ok {A B : Type} (r : result A) (k : A -> result B) (b : B) :
  bind r k = Ok b -> exists a, r = Ok a /\ k a = Ok b.
Proof.
  destruct r as [a | e]; simpl; intros Hb; [eauto | discriminate].
Qed.

Lemma pop_snoc {X : Type} (xs : list X) (x : X) : pop (xs ++ [x]) = Ok (x, xs).
Proof.
  induction xs as [| y ys IH]; [reflexivity |].
  change ((y :: ys) ++ [x]) with (y :: (ys ++ [x])).
  simpl pop. rewrite IH.
  destruct (ys ++ [x]) eqn:E; [destruct ys; discriminate | reflexivity].
Qed.

Lemma pop_ok {X : Type} (xs r : list X) (x : X) :
  pop xs = Ok (x, r) -> xs = r ++ [x].
Proof.
  destruct xs as [| y ys] using rev_ind; [discriminate |].
  rewrite pop_snoc. intros E. inversion E. reflexivity.
Qed.

(** ** The dispatch on [task] *)

Section Dispatch.

Context {tensor rng : Type} {torch : Torch tensor rng}.

(** C10. For every input tensor and every task string other than
    ['encode'] and ['decode'], [Unet2.forward] returns [None]: both
    branches are skipped, nothing is computed, no error is raised and the
    history argument is left as it was. *)
Theorem forward_other_task_returns_none :
  forall (self : Unet2) (x : tensor) (task : string)
         (x_history_ : option (list tensor)),
    task <> "encode"%string -> task <> "decode"%string ->
    Unet2_forward self x task x_history_ = Ok (PyNone, x_history_).
Proof.
  intros self x task h Henc Hdec. unfold Unet2_forward.
  destruct (String.eqb_spec task "encode"); [contradiction |].
  destruct (String.eqb_spec task "decode"); [contradiction |].
  reflexivity.
Qed.

End Dispatch.

Lemma forward_other_task_returns_none_witness :
  exists u, unet_ref = Ok u /\
    Unet2_forward u frame_pair_ref "train" (Some [frame_pair_ref])
    = Ok (PyNone, Some [frame_pair_ref]).
Proof.
  eexists. split; [vm_compute; reflexivity |].
  apply (forward_other_task_returns_none (torch := ShapeTorch));
    intros E; discriminate E.
Defined.

(** ** Construction errors *)

Lemma ndims_check_spec (n : nat) :
  existsb (Nat.eqb n) [1; 2; 3] = true <-> In n [1; 2; 3].
Proof.
  rewrite existsb_exists. split.
  - intros [k [Hin Hk]]. apply Nat.eqb_eq in Hk. subst k. exact Hin.
  - intros Hin. exists n. split; [exact Hin | apply Nat.eqb_refl].
Qed.

(** C9. [Unet2] construction fails at once with a descriptive error and
    never falls back to a default: an [AssertionError] naming the
    dimensionality found when it is not 1, 2 or 3; a [ValueError] when
    [nb_features] is an integer and [nb_levels] is not given; a
    [ValueError] when [nb_levels] is given and [nb_features] is not an
    integer (a pair of lists, or left to its default). *)
Theorem init_rejects_bad_configuration :
  forall (inshape : list nat) (infeats : nat) (max_pool : max_pool_arg)
         (feat_mult nb_conv_per_level : nat) (half : bool),
    (forall nb_features nb_levels_arg,
        ~ In (List.length inshape) [1; 2; 3] ->
        Unet2_init inshape infeats nb_features nb_levels_arg max_pool
          feat_mult nb_conv_per_level half
        = Err (AssertionError
                 (String.append "ndims should be one of 1, 2, or 3. found: "
                    (percent_d (List.length inshape)))))
    /\ (forall n,
        In (List.length inshape) [1; 2; 3] ->
        Unet2_init inshape infeats (Some (FeatInt n)) None max_pool
          feat_mult nb_conv_per_level half
        = Err (ValueError
                 "must provide unet nb_levels if nb_features is an integer"))
    /\ (forall nb_features lv,
        In (List.length inshape) [1; 2; 3] ->
        (forall n, nb_features <> Some (FeatInt n)) ->
        Unet2_init inshape infeats nb_features (Some lv) max_pool
          feat_mult nb_conv_per_level half
        = Err (ValueError
                 "cannot use nb_levels if nb_features is not an integer")).
Proof.
  intros inshape infeats max_pool feat_mult ncpl half.
  split; [| split].
  - intros nbf lv Hnd. unfold Unet2_init.
    destruct (existsb (Nat.eqb (List.length inshape)) [1; 2; 3]) eqn:E.
    + apply ndims_check_spec in E. contradiction.
    + reflexivity.
  - intros n Hnd. unfold Unet2_init.
    apply ndims_check_spec in Hnd. rewrite Hnd. reflexivity.
  - intros nbf lv Hnd Hnot. unfold Unet2_init.
    apply ndims_check_spec in Hnd. rewrite Hnd.
    destruct nbf as [[n | enc dec] |]; simpl.
    + exfalso. apply (Hnot n). reflexivity.
    + reflexivity.
    + reflexivity.
Qed.

Lemma init_rejects_bad_configuration_witness :
  Unet2_init [4; 4; 4; 4] 2 None None (PoolInt 2) 1 1 false
  = Err (AssertionError "ndims should be one of 1, 2, or 3. found: 4")
  /\ Unet2_init [8; 8] 2 (Some (FeatInt 16)) None (PoolInt 2) 1 1 false
     = Err (ValueError
              "must provide unet nb_levels if nb_features is an integer")
  /\ Unet2_init [8; 8] 2 None (Some 3) (PoolInt 2) 1 1 false
     = Err (ValueError
              "cannot use nb_levels if nb_features is not an integer").
Proof.
  destruct (init_rejects_bad_configuration [4; 4; 4; 4] 2 (PoolInt 2) 1 1 false)
    as [Hdim _].
  destruct (init_rejects_bad_configuration [8; 8] 2 (PoolInt 2) 1 1 false)
    as [_ [Hint Hlist]].
  split; [| split].
  - apply (Hdim None None). simpl. intros [H | [H | [H | []]]]; discriminate H.
  - apply (Hint 16). simpl. auto.
  - apply (Hlist None 3); [simpl; auto | intros n H; discriminate H].
Defined.

(** ** What construction guarantees *)

Lemma ConvBlock_init_ok (nd c nf : nat) :
  In nd [1; 2; 3] -> ConvBlock_init nd c nf 1 = Ok (block nd c nf).
Proof.
  intros Hnd. unfold ConvBlock_init.
  apply ndims_check_spec in Hnd. rewrite Hnd. reflexivity.
Qed.

Lemma chain_snoc (nd a b nf : nat) (convs : list ConvBlock) :
  chain nd a convs b -> chain nd a (convs ++ [block nd b nf]) nf.
Proof.
  induction 1 as [c | c nf' convs c' _ IH]; simpl.
  - constructor. constructor.
  - constructor. exact IH.
Qed.

Lemma level_convs_loop (nd : nat) (nfs : list nat) (base : nat) :
  In nd [1; 2; 3] ->
  forall (idx : list nat) (a prev : nat) (convs : list ConvBlock) r,
    chain nd a convs prev ->
    for_each idx
      (fun conv '(convs, prev_nf) =>
         nf <- getitem nfs (base + conv) ;;
         c <- ConvBlock_init nd prev_nf nf 1 ;;
         Ok (convs ++ [c], nf))
      (convs, prev) = Ok r ->
    chain nd a (fst r) (snd r).
Proof.
  intros Hnd. induction idx as [| i idx IH]; intros a prev convs r Hc Hr.
  - simpl in Hr. inversion Hr. exact Hc.
  - simpl in Hr. apply bind_ok in Hr. destruct Hr as [[convs' prev'] [Hstep Hrest]].
    apply bind_ok in Hstep. destruct Hstep as [nf [_ Hstep]].
    rewrite (ConvBlock_init_ok _ _ Hnd) in Hstep. simpl in Hstep.
    inversion Hstep; subst convs' prev'.
    apply (IH a nf (convs ++ [block nd prev nf]) r); [| exact Hrest].
    apply chain_snoc. exact Hc.
Qed.

Lemma level_convs_chain (nd : nat) (nfs : list nat) (ncpl level prev : nat)
    (convs : list ConvBlock) (nf : nat) :
  In nd [1; 2; 3] ->
  level_convs nd nfs ncpl level prev = Ok (convs, nf) ->
  chain nd prev convs nf.
Proof.
  intros Hnd Hr. unfold level_convs in Hr.
  apply (level_convs_loop nfs (level * ncpl) Hnd (range ncpl)
           (a := prev) (chain_nil nd prev)) in Hr.
  exact Hr.
Qed.

Lemma last_cons_default {X : Type} (x : X) (xs : list X) (d d' : X) :
  last (x :: xs) d = last (x :: xs) d'.
Proof.
  revert x. induction xs as [| y ys IH]; intros x; [reflexivity |].
  change (last (y :: ys) d = last (y :: ys) d'). apply IH.
Qed.

Lemma enc_levels_snoc (nd c e : nat) (levels : list (list ConvBlock))
    (es : list nat) (convs : list ConvBlock) :
  enc_levels nd c levels es -> chain nd (last es c) convs e ->
  enc_levels nd c (levels ++ [convs]) (es ++ [e]).
Proof.
  induction 1 as [c | c cv e' levels es Hc Hl IH]; intros Hlast.
  - simpl in *. constructor; [exact Hlast | constructor].
  - change ((cv :: levels) ++ [convs]) with (cv :: (levels ++ [convs])).
    change ((e' :: es) ++ [e]) with (e' :: (es ++ [e])).
    constructor; [exact Hc |]. apply IH.
    destruct es as [| e1 es]; [exact Hlast |].
    rewrite (last_cons_default e1 es e' c).
    change (last (e' :: e1 :: es) c) with (last (e1 :: es) c) in Hlast.
    exact Hlast.
Qed.

Lemma enc_levels_length (nd c : nat) (levels : list (list ConvBlock))
    (es : list nat) :
  enc_levels nd c levels es -> List.length es = List.length levels.
Proof. induction 1; simpl; congruence. Qed.

Lemma configure_encoder_loop (nd : nat) (enc_nf : list nat) (ncpl infeats : nat) :
  In nd [1; 2; 3] ->
  forall (idx : list nat) (es : list nat) (enc : list (list ConvBlock)) r,
    enc_levels nd infeats enc es ->
    for_each idx
      (fun level '(prev_nf, encoder_nfs, enc) =>
         '(convs, prev_nf) <- level_convs nd enc_nf ncpl level prev_nf ;;
         Ok (prev_nf, encoder_nfs ++ [prev_nf], enc ++ [convs]))
      (last es infeats, infeats :: es, enc) = Ok r ->
    exists es', r = (last es' infeats, infeats :: es', snd r)
                /\ enc_levels nd infeats (snd r) es'
                /\ List.length es' = List.length es + List.length idx.
Proof.
  intros Hnd. induction idx as [| i idx IH]; intros es enc r Hl Hr.
  - simpl in Hr. inversion Hr. exists es. simpl. auto.
  - simpl in Hr. apply bind_ok in Hr. destruct Hr as [[[p nfs] enc'] [Hstep Hrest]].
    apply bind_ok in Hstep. destruct Hstep as [[convs nf] [Hlv Hstep]].
    inversion Hstep; subst p nfs enc'.
    apply level_convs_chain in Hlv; [| exact Hnd].
    assert (Hlast : last (es ++ [nf]) infeats = nf) by apply last_last.
    rewrite <- Hlast in Hrest at 1.
    change ((infeats :: es) ++ [nf]) with (infeats :: (es ++ [nf])) in Hrest.
    apply IH in Hrest; [| apply enc_levels_snoc; assumption].
    destruct Hrest as [es' [Hr [Hl' Hlen]]].
    exists es'. rewrite length_app in Hlen. simpl in Hlen |- *.
    repeat split; [exact Hr | exact Hl' | lia].
Qed.

Lemma configure_encoder_spec (nd : nat) (enc_nf : list nat)
    (ncpl nb_lvls infeats prev : nat) (nfs : list nat)
    (enc : list (list ConvBlock)) :
  In nd [1; 2; 3] ->
  configure_encoder nd enc_nf ncpl nb_lvls infeats = Ok (prev, nfs, enc) ->
  exists es, prev = last es infeats /\ nfs = infeats :: es
             /\ enc_levels nd infeats enc es
             /\ List.length es = nb_lvls - 1.
Proof.
  intros Hnd Hr. unfold configure_encoder in Hr.
  apply (configure_encoder_loop enc_nf ncpl Hnd (range (nb_lvls - 1))
           (es := []) (enc := []) (enc_levels_nil nd infeats)) in Hr.
  destruct Hr as [es [Hr [Hl Hlen]]]. simpl in Hr, Hl.
  inversion Hr. exists es. unfold range in Hlen. rewrite length_seq in Hlen.
  simpl in Hlen. auto.
Qed.

Lemma dec_levels_snoc (nd : nat) (skips : list nat) (lvl c c' d skip : nat)
    (levels : list (list ConvBlock)) (convs : list ConvBlock) :
  dec_levels nd skips lvl c levels c' ->
  chain nd c' convs d ->
  nth_error skips (lvl + List.length levels) = Some skip ->
  dec_levels nd skips lvl c (levels ++ [convs]) (d + skip).
Proof.
  induction 1 as [lvl c | lvl c cv d' sk levels c' Hc Hsk Hl IH];
    intros Hch Hnth.
  - simpl in *. rewrite Nat.add_0_r in Hnth.
    econstructor; [exact Hch | exact Hnth | constructor].
  - change ((cv :: levels) ++ [convs]) with (cv :: (levels ++ [convs])).
    econstructor; [exact Hc | exact Hsk |].
    apply IH; [exact Hch |].
    simpl in Hnth. rewrite Nat.add_succ_r in Hnth. exact Hnth.
Qed.

(** The decoder loop adds one level per turn, whatever [half_res] is. *)
Lemma configure_decoder_length (nd : nat) (dec_nf skips : list nat)
    (ncpl nb_lvls : nat) (half : bool) :
  forall (idx : list nat) (prev : nat) (dec : list (list ConvBlock)) r,
    for_each idx
      (fun level '(prev_nf, dec) =>
         '(convs, prev_nf) <- level_convs nd dec_nf ncpl level prev_nf ;;
         if takes_skip half nb_lvls level then
           skip <- getitem skips level ;;
           Ok (prev_nf + skip, dec ++ [convs])
         else Ok (prev_nf, dec ++ [convs]))
      (prev, dec) = Ok r ->
    List.length (snd r) = List.length dec + List.length idx.
Proof.
  induction idx as [| i idx IH]; intros prev dec r Hr.
  - simpl in Hr. inversion Hr. simpl. lia.
  - simpl in Hr. apply bind_ok in Hr. destruct Hr as [[p dec'] [Hstep Hrest]].
    apply IH in Hrest. rewrite Hrest. simpl.
    apply bind_ok in Hstep. destruct Hstep as [[convs nf] [_ Hstep]].
    destruct (takes_skip half nb_lvls i).
    + apply bind_ok in Hstep. destruct Hstep as [sk [_ Hstep]].
      inversion Hstep. rewrite length_app. simpl. lia.
    + inversion Hstep. rewrite length_app. simpl. lia.
Qed.

(** Without [half_res] every decoder level takes its skip connection. *)
Lemma configure_decoder_loop (nd : nat) (dec_nf skips : list nat)
    (ncpl nb_lvls c0 : nat) :
  In nd [1; 2; 3] ->
  forall (k a prev : nat) (dec : list (list ConvBlock)) r,
    dec_levels nd skips 0 c0 dec prev ->
    List.length dec = a ->
    for_each (seq a k)
      (fun level '(prev_nf, dec) =>
         '(convs, prev_nf) <- level_convs nd dec_nf ncpl level prev_nf ;;
         if takes_skip false nb_lvls level then
           skip <- getitem skips level ;;
           Ok (prev_nf + skip, dec ++ [convs])
         else Ok (prev_nf, dec ++ [convs]))
      (prev, dec) = Ok r ->
    dec_levels nd skips 0 c0 (snd r) (fst r).
Proof.
  intros Hnd. induction k as [| k IH]; intros a prev dec r Hd Hlen Hr.
  - simpl in Hr. inversion Hr. exact Hd.
  - simpl in Hr. apply bind_ok in Hr. destruct Hr as [[p dec'] [Hstep Hrest]].
    apply bind_ok in Hstep. destruct Hstep as [[convs nf] [Hlv Hstep]].
    apply level_convs_chain in Hlv; [| exact Hnd].
    change (takes_skip false nb_lvls a) with true in Hstep.
    apply bind_ok in Hstep. destruct Hstep as [sk [Hsk Hstep]].
    inversion Hstep; subst p dec'.
    unfold getitem in Hsk. destruct (nth_error skips a) eqn:Hnth; [| discriminate].
    inversion Hsk; subst n.
    apply (IH (S a) (nf + sk) (dec ++ [convs]) r); [| | exact Hrest].
    + eapply dec_levels_snoc; [exact Hd | exact Hlv |].
      simpl. rewrite Hlen. exact Hnth.
    + rewrite length_app. simpl. lia.
Qed.

Lemma configure_remaining_loop (nd : nat) :
  In nd [1; 2; 3] ->
  forall (nfs : list nat) (a prev : nat) (rem : list ConvBlock) r,
    chain nd a rem prev ->
    for_each nfs
      (fun nf '(prev_nf, rem) =>
         c <- ConvBlock_init nd prev_nf nf 1 ;;
         Ok (nf, rem ++ [c]))
      (prev, rem) = Ok r ->
    chain nd a (snd r) (fst r).
Proof.
  intros Hnd. induction nfs as [| nf nfs IH]; intros a prev rem r Hc Hr.
  - simpl in Hr. inversion Hr. exact Hc.
  - simpl in Hr. rewrite (ConvBlock_init_ok _ _ Hnd) in Hr. simpl in Hr.
    apply (IH a nf (rem ++ [block nd prev nf]) r); [| exact Hr].
    apply chain_snoc. exact Hc.
Qed.

(** The steps of a successful construction. *)
Lemma Unet2_init_inv (inshape : list nat) (infeats : nat)
    (nb_features : option features) (nb_levels_arg : option nat)
    (max_pool : max_pool_arg) (feat_mult ncpl : nat) (half : bool)
    (self : Unet2) :
  Unet2_init inshape infeats nb_features nb_levels_arg max_pool feat_mult ncpl
    half = Ok self ->
  let nd := List.length inshape in
  let factors :=
    match max_pool with
    | PoolInt s => repeat s (nb_levels self)
    | PoolList ss => ss
    end in
  In nd [1; 2; 3] /\ half_res self = half
  /\ pooling self = map (fun s => {| pool_ndims := nd; pool_kernel := s |}) factors
  /\ upsampling self = map (fun s => {| scale_factor := s |}) factors
  /\ exists enc_nf dec_nf prev1 nfs prev2,
      nb_levels self = List.length enc_nf / ncpl + 1
      /\ configure_encoder nd enc_nf ncpl (nb_levels self) infeats
         = Ok (prev1, nfs, encoder self)
      /\ configure_decoder nd (firstn (List.length enc_nf) dec_nf) (np_flip nfs)
           ncpl (nb_levels self) half prev1 = Ok (prev2, decoder self)
      /\ configure_remaining nd (skipn (List.length enc_nf) dec_nf) prev2
         = Ok (final_nf self, remaining self).
Proof.
  intros Hinit. unfold Unet2_init in Hinit.
  destruct (existsb (Nat.eqb (List.length inshape)) [1; 2; 3]) eqn:Hnd;
    [| discriminate].
  apply ndims_check_spec in Hnd. simpl in Hinit.
  apply bind_ok in Hinit. destruct Hinit as [[enc_nf dec_nf] [_ Hinit]].
  destruct (ncpl =? 0); [discriminate |]. simpl in Hinit.
  apply bind_ok in Hinit. destruct Hinit as [[[prev1 nfs] enc] [Henc Hinit]].
  apply bind_ok in Hinit. destruct Hinit as [[prev2 dec] [Hdec Hinit]].
  apply bind_ok in Hinit. destruct Hinit as [[fin rem] [Hrem Hinit]].
  inversion Hinit; subst self; simpl.
  repeat split; try assumption; try reflexivity.
  exists enc_nf, dec_nf, prev1, nfs, prev2. auto.
Qed.

(** Every constructed network has as many encoder levels as decoder
    levels, one fewer than [nb_levels]. *)
Lemma Unet2_init_lengths (inshape : list nat) (infeats : nat)
    (nb_features : option features) (nb_levels_arg : option nat)
    (max_pool : max_pool_arg) (feat_mult ncpl : nat) (half : bool)
    (self : Unet2) :
  Unet2_init inshape infeats nb_features nb_levels_arg max_pool feat_mult ncpl
    half = Ok self ->
  half_res self = half
  /\ 1 <= nb_levels self
  /\ List.length (encoder self) = nb_levels self - 1
  /\ List.length (decoder self) = nb_levels self - 1.
Proof.
  intros Hinit. apply Unet2_init_inv in Hinit.
  destruct Hinit as [Hnd [Hhalf [_ [_ Hrest]]]].
  destruct Hrest as [enc_nf [dec_nf [prev1 [nfs [prev2 [Hnb [Henc [Hdec _]]]]]]]].
  apply configure_encoder_spec in Henc; [| exact Hnd].
  destruct Henc as [es [_ [_ [Hl Hlen]]]].
  apply enc_levels_length in Hl.
  unfold configure_decoder in Hdec. apply configure_decoder_length in Hdec.
  unfold range in Hdec. rewrite length_seq in Hdec. simpl in Hdec.
  repeat split; [exact Hhalf | lia | lia | exact Hdec].
Qed.

(** ** The history stack, over any tensor library *)

Lemma count_below (m n : nat) :
  List.length (filter (fun l => l <? m) (seq 0 n)) = Nat.min n m.
Proof.
  induction n as [| n IH]; [reflexivity |].
  rewrite seq_S, filter_app, length_app, IH.
  cbn [Nat.add filter]. destruct (n <? m) eqn:E; cbn [List.length].
  - apply Nat.ltb_lt in E. lia.
  - apply Nat.ltb_ge in E. lia.
Qed.

Lemma count_all (f : nat -> bool) (l : list nat) :
  (forall x, f x = true) -> List.length (filter f l) = List.length l.
Proof.
  intros Hf. induction l as [| x l IH]; simpl; [reflexivity |].
  rewrite Hf. simpl. congruence.
Qed.

(** The number of entries a decode call pops: every level, or every level
    but the last in half-resolution mode. *)
Lemma skip_levels_value (self : Unet2) :
  List.length (decoder self) = nb_levels self - 1 ->
  skip_levels self
  = if half_res self then nb_levels self - 2 else nb_levels self - 1.
Proof.
  intros Hlen. unfold skip_levels, takes_skip, range. rewrite Hlen.
  destruct (half_res self); simpl.
  - rewrite count_below. lia.
  - rewrite count_all by reflexivity. apply length_seq.
Qed.

Section History.

Context {tensor rng : Type} {torch : Torch tensor rng}.

Lemma encode_loop_history (self : Unet2) :
  forall (levels : list (list ConvBlock)) (k : nat) (x : tensor)
         (h : list tensor) r,
    for_each (combine (seq k (List.length levels)) levels) (encode_level self)
      (x, h) = Ok r ->
    exists added, snd r = h ++ added /\ List.length added = List.length levels.
Proof.
  induction levels as [| convs levels IH]; intros k x h r Hr.
  - simpl in Hr. inversion Hr. exists []. simpl. rewrite app_nil_r. auto.
  - simpl in Hr. apply bind_ok in Hr. destruct Hr as [[x1 h1] [Hstep Hrest]].
    apply IH in Hrest. destruct Hrest as [added [Hsnd Hlen]].
    apply bind_ok in Hstep. destruct Hstep as [x2 [_ Hstep]].
    apply bind_ok in Hstep. destruct Hstep as [p [_ Hstep]].
    apply bind_ok in Hstep. destruct Hstep as [x3 [_ Hstep]].
    inversion Hstep; subst x1 h1.
    exists (x2 :: added). rewrite Hsnd, <- app_assoc. simpl. auto.
Qed.

Lemma decode_loop_history (self : Unet2) :
  forall (levels : list (list ConvBlock)) (k : nat) (x : tensor)
         (h : list tensor) r,
    for_each (combine (seq k (List.length levels)) levels) (decode_level self)
      (x, h) = Ok r ->
    exists popped,
      h = snd r ++ popped
      /\ List.length popped
         = List.length
             (filter (takes_skip (half_res self) (nb_levels self))
                (seq k (List.length levels))).
Proof.
  induction levels as [| convs levels IH]; intros k x h r Hr.
  - simpl in Hr. inversion Hr. exists []. simpl. rewrite app_nil_r. auto.
  - simpl in Hr. apply bind_ok in Hr. destruct Hr as [[x1 h1] [Hstep Hrest]].
    apply IH in Hrest. destruct Hrest as [popped [Hh1 Hlen]].
    apply bind_ok in Hstep. destruct Hstep as [x2 [_ Hstep]].
    simpl. destruct (takes_skip (half_res self) (nb_levels self) k).
    + apply bind_ok in Hstep. destruct Hstep as [u [_ Hstep]].
      apply bind_ok in Hstep. destruct Hstep as [x3 [_ Hstep]].
      apply bind_ok in Hstep. destruct Hstep as [[skip h2] [Hpop Hstep]].
      apply bind_ok in Hstep. destruct Hstep as [x4 [_ Hstep]].
      injection Hstep as Hx Hh. apply pop_ok in Hpop.
      exists (popped ++ [skip]). split.
      * rewrite Hpop, Hh, Hh1, app_assoc. reflexivity.
      * rewrite length_app. simpl. lia.
    + injection Hstep as Hx Hh. exists popped. split; [congruence | exact Hlen].
Qed.

(** Encode records the input and then one activation per encoder level. *)
Lemma Unet2_encode_history (self : Unet2) (x y : tensor) (h : list tensor) :
  Unet2_encode self x = Ok (y, h) ->
  exists added, h = x :: added /\ List.length added = List.length (encoder self).
Proof.
  intros Hr. unfold Unet2_encode, enumerate in Hr.
  apply encode_loop_history in Hr. exact Hr.
Qed.

(** Decode pops [skip_levels] entries off the end and leaves the rest. *)
Lemma Unet2_decode_history (self : Unet2) (x y : tensor) (h h' : list tensor) :
  Unet2_decode self x (Some h) = Ok (y, h') ->
  exists popped, h = h' ++ popped /\ List.length popped = skip_levels self.
Proof.
  intros Hr. unfold Unet2_decode, enumerate in Hr.
  apply bind_ok in Hr. destruct Hr as [[x1 h1] [Hloop Hr]].
  apply bind_ok in Hr. destruct Hr as [x2 [_ Hr]].
  inversion Hr; subst x2 h1.
  apply decode_loop_history in Hloop. exact Hloop.
Qed.

Lemma forward_encode_inv (self : Unet2) (x : tensor) hs v hs' :
  Unet2_forward self x "encode" hs = Ok (v, hs') ->
  exists y h, v = Encoded y h /\ hs' = hs /\ Unet2_encode self x = Ok (y, h).
Proof.
  unfold Unet2_forward. simpl. intros Hr.
  apply bind_ok in Hr. destruct Hr as [[y h] [Henc Hr]].
  inversion Hr. exists y, h. auto.
Qed.

Lemma forward_decode_inv (self : Unet2) (x : tensor) hs v hs' :
  Unet2_forward self x "decode" hs = Ok (v, hs') ->
  exists y h', v = Decoded y /\ hs' = Some h'
               /\ Unet2_decode self x hs = Ok (y, h').
Proof.
  unfold Unet2_forward. simpl. intros Hr.
  apply bind_ok in Hr. destruct Hr as [[y h'] [Hdec Hr]].
  inversion Hr. exists y, h'. auto.
Qed.

End History.

Section HistoryClaims.

Context {tensor rng : Type} {torch : Torch tensor rng}.

(** C1 (as amended). For every configuration that [Unet2] accepts, encode
    returns a history stack of [nb_levels] entries, the input first and
    then one activation per level, and a decode call that returns pops
    one entry per decoder level that takes a skip connection:
    [nb_levels - 1] of them, or [nb_levels - 2] in half-resolution mode.
    So the stack is not emptied: what decode leaves is never empty, and
    without half-resolution it is exactly the input that encode pushed
    first. *)
Theorem decode_leaves_input_on_stack :
  forall (inshape : list nat) (infeats : nat) (nb_features : option features)
         (nb_levels_arg : option nat) (max_pool : max_pool_arg)
         (feat_mult nb_conv_per_level : nat) (half : bool) (self : Unet2)
         (x y z w : tensor) (h h' : list tensor),
    Unet2_init inshape infeats nb_features nb_levels_arg max_pool feat_mult
      nb_conv_per_level half = Ok self ->
    Unet2_forward self x "encode" None = Ok (Encoded y h, None) ->
    Unet2_forward self z "decode" (Some h) = Ok (Decoded w, Some h') ->
    List.length h = nb_levels self
    /\ skip_levels self
       = (if half then nb_levels self - 2 else nb_levels self - 1)
    /\ List.length h' = nb_levels self - skip_levels self
    /\ 1 <= List.length h'
    /\ (half = false -> h' = [x]).
Proof.
  intros inshape infeats nbf lv mp fm ncpl half self x y z w h h'
    Hinit Henc Hdec.
  apply Unet2_init_lengths in Hinit. destruct Hinit as [Hhalf [Hnb [Hle Hld]]].
  apply forward_encode_inv in Henc.
  destruct Henc as [y0 [h0 [Hv [_ Henc]]]]. inversion Hv; subst y0 h0.
  apply forward_decode_inv in Hdec.
  destruct Hdec as [w0 [h1 [Hv' [Hs Hdec]]]].
  inversion Hv'; inversion Hs; subst w0 h1.
  apply Unet2_encode_history in Henc. destruct Henc as [added [Hh Hadd]].
  apply Unet2_decode_history in Hdec. destruct Hdec as [popped [Hh' Hpop]].
  pose proof (skip_levels_value self Hld) as Hsk. rewrite Hhalf in Hsk.
  assert (Hlen : List.length h = S (List.length added))
    by (rewrite Hh; reflexivity).
  assert (Hlen' : List.length h = List.length h' + List.length popped)
    by (rewrite Hh' at 1; apply length_app).
  split; [lia |]. split; [exact Hsk |].
  destruct half.
  - repeat split; try lia; discriminate.
  - repeat split; try lia. intros _.
    assert (Hone : List.length h' = 1) by lia.
    destruct h' as [| a [| b h'']]; try discriminate.
    rewrite Hh in Hh'. simpl in Hh'. congruence.
Qed.

(** C4 (as amended). Decode fails with an [AssertionError] when no
    history stack is supplied, and fails whenever the stack holds fewer
    entries than there are decoder levels taking a skip connection, so an
    empty stack is rejected as soon as one level takes a skip.  A longer
    stack is accepted: a decode that returns has popped exactly that many
    entries off the end and leaves the others on the stack. *)
Theorem decode_rejects_missing_or_short_stack :
  forall (self : Unet2) (x : tensor),
    Unet2_forward self x "decode" None
    = Err (AssertionError "x_history_ is None.")
    /\ (forall h, List.length h < skip_levels self ->
                  exists e, Unet2_forward self x "decode" (Some h) = Err e)
    /\ (forall h v hs,
           Unet2_forward self x "decode" (Some h) = Ok (v, hs) ->
           skip_levels self <= List.length h
           /\ exists h', hs = Some h'
                         /\ List.length h' = List.length h - skip_levels self
                         /\ h' = firstn (List.length h') h).
Proof.
  intros self x.
  assert (Hok : forall h v hs,
             Unet2_forward self x "decode" (Some h) = Ok (v, hs) ->
             skip_levels self <= List.length h
             /\ exists h', hs = Some h'
                           /\ List.length h' = List.length h - skip_levels self
                           /\ h' = firstn (List.length h') h).
  { intros h v hs Hr. apply forward_decode_inv in Hr.
    destruct Hr as [y [h' [_ [Hs Hdec]]]].
    apply Unet2_decode_history in Hdec. destruct Hdec as [popped [Hh Hpop]].
    assert (Hlen : List.length h = List.length h' + List.length popped)
      by (rewrite Hh at 1; apply length_app).
    split; [lia |]. exists h'. repeat split; [exact Hs | lia |].
    rewrite Hh, firstn_app, firstn_all, Nat.sub_diag. simpl.
    rewrite app_nil_r. reflexivity. }
  split; [reflexivity |]. split; [| exact Hok].
  intros h Hshort.
  destruct (Unet2_forward self x "decode" (Some h)) as [[v hs] | e] eqn:Hr.
  - apply Hok in Hr. lia.
  - exists e. reflexivity.
Qed.

End HistoryClaims.

(** C1, as stated, fails: in the reference configuration the stack of a
    matching encode still holds one entry after decode. *)
Lemma decode_leaves_input_on_stack_counterexample :
  exists u y w h',
    unet_ref = Ok u
    /\ Unet2_forward u frame_pair_ref "encode" None
       = Ok (Encoded y history_ref, None)
    /\ Unet2_forward u y "decode" (Some history_ref)
       = Ok (Decoded w, Some h')
    /\ List.length h' = 1.
Proof.
  do 4 eexists. split; [vm_compute; reflexivity |].
  split; [vm_compute; reflexivity |].
  split; [vm_compute; reflexivity | reflexivity].
Qed.

Lemma decode_leaves_input_on_stack_witness :
  exists u,
    unet_ref = Ok u
    /\ List.length history_ref = nb_levels u
    /\ skip_levels u = nb_levels u - 1
    /\ List.length [frame_pair_ref] = nb_levels u - skip_levels u
    /\ 1 <= List.length [frame_pair_ref]
    /\ (false = false -> [frame_pair_ref] = [frame_pair_ref]).
Proof.
  eexists. split; [vm_compute; reflexivity |].
  refine (@decode_leaves_input_on_stack tshape nat ShapeTorch
            [256; 256] 2 (Some (FeatLists enc_nf_ref dec_nf_ref)) None
            (PoolInt 2) 1 1 false _ frame_pair_ref bottleneck_ref
            bottleneck_ref frame_pair_ref history_ref [frame_pair_ref] _ _ _);
    vm_compute; reflexivity.
Defined.

(** C4, as stated, fails: the stack of the matching encode holds six
    entries where five decoder levels take a skip connection, and decode
    accepts it. *)
Lemma decode_rejects_missing_or_short_stack_counterexample :
  exists u w hs,
    unet_ref = Ok u
    /\ skip_levels u = 5
    /\ List.length history_ref = 6
    /\ Unet2_forward u bottleneck_ref "decode" (Some history_ref)
       = Ok (Decoded w, hs).
Proof.
  do 3 eexists. split; [vm_compute; reflexivity |].
  repeat split; vm_compute; reflexivity.
Qed.

Lemma decode_rejects_missing_or_short_stack_witness :
  exists u,
    unet_ref = Ok u
    /\ Unet2_forward u bottleneck_ref "decode" None
       = Err (AssertionError "x_history_ is None.")
    /\ (exists e, Unet2_forward u bottleneck_ref "decode" (Some []) = Err e)
    /\ (exists e, Unet2_forward u bottleneck_ref "decode"
                    (Some (skipn 2 history_ref)) = Err e).
Proof.
  eexists. split; [vm_compute; reflexivity |].
  match goal with
  | |- Unet2_forward ?u _ _ _ = _ /\ _ =>
      destruct (decode_rejects_missing_or_short_stack (torch := ShapeTorch)
                  u bottleneck_ref) as [Hnone [Hshort _]]
  end.
  split; [exact Hnone |]. split.
  - apply (Hshort []). vm_compute. lia.
  - apply (Hshort (skipn 2 history_ref)). vm_compute. lia.
Defined.

(** ** Shape arithmetic *)

Lemma conv_extent (d : nat) : 1 <= d -> (d + 2 * 1 - 3) / 1 + 1 = d.
Proof. intros Hd. rewrite Nat.div_1_r. lia. Qed.

Lemma pool_extent (p d : nat) : 1 <= p -> p <= d -> (d - p) / p + 1 = d / p.
Proof.
  intros Hp Hd. replace d with (d - p + 1 * p) at 2 by lia.
  rewrite Nat.div_add by lia. reflexivity.
Qed.

Lemma div_pow_succ (p m d : nat) : d / p / p ^ m = d / p ^ S m.
Proof. rewrite Nat.Div0.div_div, Nat.pow_succ_r'. reflexivity. Qed.

Lemma pow_pos (p m : nat) : 1 <= p -> 1 <= p ^ m.
Proof.
  intros Hp. induction m as [| m IH]; simpl; [lia | nia].
Qed.

Lemma pooled_bound (p m d : nat) : 1 <= p -> p ^ S m <= d -> p ^ m <= d / p.
Proof.
  intros Hp Hd. apply Nat.div_le_lower_bound; [lia |].
  rewrite Nat.pow_succ_r' in Hd. exact Hd.
Qed.

Lemma up_extent (p m d : nat) :
  1 <= p -> Nat.divide (p ^ S m) d -> d / p ^ S m * p = d / p ^ m.
Proof.
  intros Hp [k Hk]. pose proof (pow_pos m Hp) as Hm.
  pose proof (pow_pos (S m) Hp) as HSm.
  subst d. rewrite Nat.div_mul by lia.
  rewrite Nat.pow_succ_r'. replace (k * (p * p ^ m)) with (k * p * p ^ m) by lia.
  rewrite Nat.div_mul by lia. reflexivity.
Qed.

Lemma divide_pow_le (p m l d : nat) :
  m <= l -> Nat.divide (p ^ l) d -> Nat.divide (p ^ m) d.
Proof.
  intros Hml Hd. apply Nat.divide_trans with (p ^ l); [| exact Hd].
  exists (p ^ (l - m)). rewrite <- Nat.pow_add_r. f_equal. lia.
Qed.

Lemma divide_pos_bound (q d : nat) : 1 <= d -> Nat.divide q d -> q <= d.
Proof.
  intros Hd [k Hk]. destruct k as [| k]; [lia | nia].
Qed.

Lemma existsb_none {X : Type} (f : X -> bool) (l : list X) :
  Forall (fun x => f x = false) l -> existsb f l = false.
Proof.
  induction 1 as [| x l Hx _ IH]; simpl; [reflexivity |].
  rewrite Hx, IH. reflexivity.
Qed.

Lemma map_id_on {X : Type} (f : X -> X) (l : list X) :
  Forall (fun x => f x = x) l -> map f l = l.
Proof.
  induction 1 as [| x l Hx _ IH]; simpl; [reflexivity |].
  rewrite Hx, IH. reflexivity.
Qed.

Lemma same_shape_refl (s : tshape) : same_shape s s = true.
Proof.
  unfold same_shape. destruct (list_eq_dec Nat.eq_dec s s); congruence.
Qed.

(** ** The network on shapes *)

Lemma conv_shape_batched (c : ConvNd) (n ch : nat) (dims : list nat) :
  List.length dims = conv_ndims c ->
  conv_shape c (n :: ch :: dims)
  = (r <- conv_features c ch dims ;; Ok (n :: r)).
Proof.
  intros Hlen. unfold conv_shape. rewrite Hlen, Nat.eqb_refl. reflexivity.
Qed.

Lemma max_pool_shape_batched (p : MaxPool) (n ch : nat) (dims : list nat) :
  List.length dims = pool_ndims p ->
  max_pool_shape p (n :: ch :: dims)
  = (r <- pool_features p ch dims ;; Ok (n :: r)).
Proof.
  intros Hlen. unfold max_pool_shape. rewrite Hlen, Nat.eqb_refl. reflexivity.
Qed.

Lemma conv_block_shape (n nd c nf : nat) (dims : list nat) :
  1 <= nf ->
  List.length dims = nd -> Forall (fun d => 1 <= d) dims ->
  ConvBlock_forward (block nd c nf) (n :: c :: dims) = Ok (n :: nf :: dims).
Proof.
  intros Hnf Hlen Hpos. unfold ConvBlock_forward.
  change (conv_forward ?a ?b) with (conv_shape a b).
  rewrite conv_shape_batched by exact Hlen.
  unfold conv_features. simpl.
  destruct (Nat.eqb_spec nf 0) as [E | _]; [lia |].
  rewrite Nat.eqb_refl. simpl.
  rewrite existsb_none.
  - simpl. rewrite map_id_on; [reflexivity |].
    eapply Forall_impl; [| exact Hpos]. intros d Hd. apply conv_extent, Hd.
  - eapply Forall_impl; [| exact Hpos]. intros d Hd. simpl in Hd |- *.
    apply Nat.ltb_ge. lia.
Qed.

Lemma apply_convs_shape (n nd c c' : nat) (convs : list ConvBlock)
    (dims : list nat) :
  chain nd c convs c' ->
  Forall (fun cb => 1 <= out_channels (main cb)) convs ->
  List.length dims = nd -> Forall (fun d => 1 <= d) dims ->
  apply_convs convs (n :: c :: dims) = Ok (n :: c' :: dims).
Proof.
  intros Hc Hw Hlen Hpos. unfold apply_convs.
  induction Hc as [c | c nf convs c' _ IH]; [reflexivity |].
  inversion Hw as [| cb cbs Hnf Hw' E]. simpl in Hnf.
  cbn [for_each]. rewrite conv_block_shape by assumption. exact (IH Hw').
Qed.

(** Blocks with positive widths give a positive number of channels. *)
Lemma chain_out_pos (nd c c' : nat) (convs : list ConvBlock) :
  chain nd c convs c' ->
  Forall (fun cb => 1 <= out_channels (main cb)) convs ->
  1 <= c -> 1 <= c'.
Proof.
  induction 1 as [c | c nf convs c' _ IH]; intros Hw Hc; [exact Hc |].
  inversion Hw as [| cb cbs Hnf Hw' E]. simpl in Hnf. exact (IH Hw' Hnf).
Qed.

Lemma level_widths_cons (convs : list ConvBlock) (levels : list (list ConvBlock)) :
  Forall (fun w => 1 <= w) (level_widths (convs :: levels)) ->
  Forall (fun cb => 1 <= out_channels (main cb)) convs
  /\ Forall (fun w => 1 <= w) (level_widths levels).
Proof.
  unfold level_widths. simpl List.concat. rewrite map_app. intros H.
  apply Forall_app in H. destruct H as [H1 H2]. split; [| exact H2].
  rewrite Forall_map in H1. exact H1.
Qed.

Lemma max_pool_floor (n nd p c : nat) (dims : list nat) :
  1 <= p -> 1 <= c ->
  List.length dims = nd -> Forall (fun d => p <= d) dims ->
  max_pool_shape {| pool_ndims := nd; pool_kernel := p |} (n :: c :: dims)
  = Ok (n :: c :: map (fun d => d / p) dims).
Proof.
  intros Hp Hc Hlen Hge.
  rewrite max_pool_shape_batched by exact Hlen.
  unfold pool_features. simpl.
  destruct (Nat.eqb_spec p 0) as [E | _]; [lia |].
  destruct (Nat.eqb_spec c 0) as [E | _]; [lia |].
  rewrite existsb_none.
  - simpl. f_equal. f_equal. f_equal. apply map_ext_Forall.
    eapply Forall_impl; [| exact Hge]. intros d Hd. apply pool_extent; assumption.
  - eapply Forall_impl; [| exact Hge]. intros d Hd. apply Nat.ltb_ge. exact Hd.
Qed.

Lemma upsample_scale (n nd p c : nat) (dims : list nat) :
  In nd [1; 2; 3] -> 1 <= p -> 1 <= c ->
  List.length dims = nd -> Forall (fun d => 1 <= d) dims ->
  upsample_shape {| scale_factor := p |} (n :: c :: dims)
  = Ok (n :: c :: map (fun d => d * p) dims).
Proof.
  intros Hnd Hp Hc Hlen Hpos. unfold upsample_shape. simpl scale_factor.
  rewrite Hlen. rewrite (proj2 (ndims_check_spec nd) Hnd). simpl negb.
  cbv iota. destruct (Nat.eqb_spec c 0) as [E | _]; [lia |].
  rewrite existsb_none; [reflexivity |].
  eapply Forall_impl; [| exact Hpos]. intros d Hd. simpl in Hd.
  apply Nat.eqb_neq, Nat.neq_mul_0. lia.
Qed.

(** A shape of two axes or more is not the one-dimensional empty shape
    that [torch.cat] skips. *)
Lemma not_legacy_empty (a b : nat) (s : list nat) :
  same_shape (a :: b :: s) [0] = false.
Proof.
  unfold same_shape.
  destruct (list_eq_dec Nat.eq_dec (a :: b :: s) [0]); [discriminate | reflexivity].
Qed.

Lemma cat_channels (n c c' : nat) (dims : list nat) :
  cat_shape [n :: c :: dims; n :: c' :: dims] 1 = Ok (n :: c + c' :: dims).
Proof.
  unfold cat_shape. cbn [filter]. rewrite !not_legacy_empty. simpl.
  rewrite Nat.eqb_refl, same_shape_refl. reflexivity.
Qed.

Lemma last_cons {X : Type} (x : X) (xs : list X) (d : X) :
  last (x :: xs) d = last xs x.
Proof.
  destruct xs as [| y ys]; [reflexivity |].
  change (last (x :: y :: ys) d) with (last (y :: ys) d).
  apply last_cons_default.
Qed.

Lemma getitem_nth {X : Type} (xs : list X) (i : nat) (x : X) :
  nth_error xs i = Some x -> getitem xs i = Ok x.
Proof. unfold getitem. intros ->. reflexivity. Qed.

(** The encoder loop on shapes: every level keeps the extents through its
    blocks, records them, and pooling floors them. *)
Lemma encode_loop_shape (n nd p : nat) (self : Unet2) (c : nat)
    (levels : list (list ConvBlock)) (es : list nat) :
  1 <= p ->
  enc_levels nd c levels es ->
  1 <= c ->
  Forall (fun w => 1 <= w) (level_widths levels) ->
  forall (k : nat) (dims : list nat) (h : list tshape),
    (forall j, j < List.length levels ->
               nth_error (pooling self) (k + j)
               = Some {| pool_ndims := nd; pool_kernel := p |}) ->
    List.length dims = nd ->
    Forall (fun d => p ^ List.length levels <= d) dims ->
    for_each (combine (seq k (List.length levels)) levels) (encode_level self)
      (n :: c :: dims, h)
    = Ok (n :: last es c :: map (fun d => d / p ^ List.length levels) dims,
          h ++ hist_of n p dims es).
Proof.
  intros Hp.
  induction 1 as [c | c convs e levels es Hc Hl IH];
    intros Hc1 Hw k dims h Hpool Hlen Hge.
  - simpl. rewrite app_nil_r. rewrite map_id_on; [reflexivity |].
    apply Forall_forall. intros d _. apply Nat.div_1_r.
  - apply level_widths_cons in Hw. destruct Hw as [Hwc Hwl].
    pose proof (@chain_out_pos nd c e convs Hc Hwc Hc1) as He.
    assert (Hpos : Forall (fun d => 1 <= d) dims).
    { eapply Forall_impl; [| exact Hge]. intros d Hd. simpl in Hd.
      pose proof (pow_pos (List.length levels) Hp). nia. }
    assert (Hgep : Forall (fun d => p <= d) dims).
    { eapply Forall_impl; [| exact Hge]. intros d Hd. simpl in Hd.
      pose proof (pow_pos (List.length levels) Hp). nia. }
    assert (Hk : nth_error (pooling self) k
                 = Some {| pool_ndims := nd; pool_kernel := p |}).
    { rewrite <- (Nat.add_0_r k). apply Hpool. simpl. lia. }
    cbn [List.length seq combine for_each].
    unfold encode_level at 1.
    rewrite (@apply_convs_shape n nd c e convs dims Hc Hwc Hlen Hpos).
    cbn [bind].
    rewrite (getitem_nth _ _ Hk). cbn [bind].
    change (max_pool_forward ?a ?b) with (max_pool_shape a b).
    rewrite (@max_pool_floor n nd p e dims Hp He Hlen Hgep). cbn [bind].
    rewrite (IH He Hwl).
    + rewrite last_cons, map_map, <- app_assoc. simpl hist_of.
      f_equal. f_equal. f_equal. f_equal.
      apply map_ext. intros d. apply div_pow_succ.
    + intros j Hj. replace (S k + j) with (k + S j) by lia.
      apply Hpool. simpl. lia.
    + rewrite length_map. exact Hlen.
    + apply Forall_map. eapply Forall_impl; [| exact Hge].
      intros d Hd. apply pooled_bound; assumption.
Qed.

Lemma hist_of_length (n p : nat) (es : list nat) :
  forall dims, List.length (hist_of n p dims es) = List.length es.
Proof.
  induction es as [| e es IH]; intros dims; simpl; [reflexivity |].
  rewrite IH. reflexivity.
Qed.

Lemma hist_of_nth (n p : nat) (es : list nat) :
  forall (j : nat) (dims : list nat) (e : nat),
    nth_error es j = Some e ->
    nth_error (hist_of n p dims es) j
    = Some (n :: e :: map (fun d => d / p ^ j) dims).
Proof.
  induction es as [| e0 es IH]; intros j dims e Hj.
  - destruct j; discriminate.
  - destruct j as [| j]; simpl in Hj |- *.
    + inversion Hj. rewrite map_id_on; [reflexivity |].
      apply Forall_forall. intros d _. apply Nat.div_1_r.
    + rewrite (IH j _ e Hj), map_map. f_equal. f_equal. f_equal.
      apply map_ext. intros d. rewrite Nat.Div0.div_div. reflexivity.
Qed.

Lemma firstn_succ_nth {X : Type} (l : list X) :
  forall (j : nat) (a : X),
    nth_error l j = Some a -> firstn (S j) l = firstn j l ++ [a].
Proof.
  induction l as [| x l IH]; intros j a Hj.
  - destruct j; discriminate.
  - destruct j as [| j]; simpl in Hj.
    + inversion Hj. reflexivity.
    + change (firstn (S (S j)) (x :: l)) with (x :: firstn (S j) l).
      rewrite (IH j a Hj). reflexivity.
Qed.

(** The decoder loop on shapes, every level taking its skip connection:
    upsampling undoes one pooling when the extents divide, and the entry
    popped is the activation of the mirrored encoder level. *)
Lemma decode_loop_shape (n nd p infeats : nat) (self : Unet2) (es D : list nat) :
  In nd [1; 2; 3] -> 1 <= p -> half_res self = false ->
  List.length D = nd ->
  Forall (fun d => 1 <= d /\ Nat.divide (p ^ List.length es) d) D ->
  forall (lvl c : nat) (levels : list (list ConvBlock)) (c' : nat),
    dec_levels nd (rev (infeats :: es)) lvl c levels c' ->
    1 <= c ->
    Forall (fun w => 1 <= w) (level_widths levels) ->
    lvl + List.length levels = List.length es ->
    (forall j, j < List.length levels ->
               nth_error (upsampling self) (lvl + j)
               = Some {| scale_factor := p |}) ->
    forall hbase : list tshape,
      for_each (combine (seq lvl (List.length levels)) levels)
        (decode_level self)
        (n :: c :: map (fun d => d / p ^ List.length levels) D,
         hbase ++ firstn (List.length levels) (hist_of n p D es))
      = Ok (n :: c' :: D, hbase)
      /\ 1 <= c'.
Proof.
  intros Hnd Hp Hhalf HlenD HD.
  induction 1 as [lvl c | lvl c convs d0 skip levels c' Hc Hsk Hl IH];
    intros Hc1 Hw Hsum Hup hbase.
  - split; [| exact Hc1].
    simpl. rewrite app_nil_r. rewrite map_id_on; [reflexivity |].
    apply Forall_forall. intros d _. apply Nat.div_1_r.
  - apply level_widths_cons in Hw. destruct Hw as [Hwc Hwl].
    pose proof (@chain_out_pos nd c d0 convs Hc Hwc Hc1) as Hd0.
    set (m := List.length levels) in *.
    assert (Hm : S m <= List.length es) by (simpl in Hsum; lia).
    assert (Hdiv : Forall (fun d => Nat.divide (p ^ S m) d) D).
    { eapply Forall_impl; [| exact HD]. intros d [_ Hd].
      apply (@divide_pow_le p (S m) (List.length es) d Hm Hd). }
    assert (Hpos : Forall (fun d => 1 <= d) (map (fun d => d / p ^ S m) D)).
    { apply Forall_map. eapply Forall_impl; [| exact HD]. intros d [Hd1 Hd].
      apply Nat.div_str_pos. split; [apply (pow_pos (S m) Hp) |].
      apply divide_pos_bound;
        [exact Hd1 | apply (@divide_pow_le p (S m) (List.length es) d Hm Hd)]. }
    assert (Hlenm : List.length (map (fun d => d / p ^ S m) D) = nd)
      by (rewrite length_map; exact HlenD).
    assert (Hu : nth_error (upsampling self) lvl = Some {| scale_factor := p |}).
    { rewrite <- (Nat.add_0_r lvl). apply Hup. simpl. lia. }
    assert (Hes : nth_error es m = Some skip).
    { rewrite nth_error_rev in Hsk. simpl List.length in Hsk.
      destruct (Nat.ltb_spec lvl (S (List.length es))) as [_ | Hbad];
        [| simpl in Hsum; lia].
      replace (S (List.length es) - S lvl) with (S m) in Hsk
        by (simpl in Hsum; lia).
      exact Hsk. }
    cbn [List.length seq combine for_each]. fold m.
    unfold decode_level at 1.
    rewrite (@apply_convs_shape n nd c d0 convs _ Hc Hwc Hlenm Hpos).
    cbn [bind].
    rewrite Hhalf. change (takes_skip false (nb_levels self) lvl) with true.
    cbv iota. rewrite (getitem_nth _ _ Hu). cbn [bind].
    change (upsample_forward ?a ?b) with (upsample_shape a b).
    rewrite (@upsample_scale n nd p d0 _ Hnd Hp Hd0 Hlenm Hpos). cbn [bind].
    rewrite (firstn_succ_nth _ _ (@hist_of_nth n p es m D skip Hes)).
    rewrite app_assoc, pop_snoc. cbn [bind].
    change (cat ?a ?b) with (cat_shape a b).
    rewrite map_map.
    rewrite (map_ext_Forall _ (fun d => d / p ^ m)).
    + rewrite cat_channels. cbn [bind]. apply IH.
      * lia.
      * exact Hwl.
      * simpl in Hsum. fold m in Hsum. fold m. lia.
      * intros j Hj. replace (S lvl + j) with (lvl + S j) by lia.
        apply Hup. simpl. fold m. lia.
    + eapply Forall_impl; [| exact Hdiv]. intros d Hd.
      apply up_extent; assumption.
Qed.

(** What a successful construction says about the three paths. *)
Lemma Unet2_init_spec (inshape : list nat) (infeats : nat)
    (nb_features : option features) (nb_levels_arg : option nat)
    (max_pool : max_pool_arg) (feat_mult ncpl : nat) (half : bool)
    (self : Unet2) :
  Unet2_init inshape infeats nb_features nb_levels_arg max_pool feat_mult ncpl
    half = Ok self ->
  let nd := List.length inshape in
  exists es,
    List.length es = nb_levels self - 1
    /\ enc_levels nd infeats (encoder self) es
    /\ (half = false ->
        exists prev2,
          dec_levels nd (rev (infeats :: es)) 0 (last es infeats)
            (decoder self) prev2
          /\ chain nd prev2 (remaining self) (final_nf self)).
Proof.
  intros Hinit nd. apply Unet2_init_inv in Hinit. fold nd in Hinit.
  destruct Hinit as [Hnd [Hhalf [_ [_ Hrest]]]].
  destruct Hrest as [enc_nf [dec_nf [prev1 [nfs [prev2 [Hnb [Henc [Hdec Hrem]]]]]]]].
  apply configure_encoder_spec in Henc; [| exact Hnd].
  destruct Henc as [es [Hprev [Hnfs [Hl Hlen]]]].
  exists es. split; [exact Hlen |]. split; [exact Hl |].
  intros Hf. subst nfs prev1. rewrite Hf in Hdec. exists prev2. split.
  - unfold configure_decoder, range in Hdec.
    apply (configure_decoder_loop _ _ _ (c0 := last es infeats) Hnd
             (nb_levels self - 1) (a := 0)
             (dec_levels_nil nd _ 0 (last es infeats)) eq_refl) in Hdec.
    exact Hdec.
  - unfold configure_remaining in Hrem.
    apply (configure_remaining_loop Hnd _ (a := prev2) (chain_nil nd prev2))
      in Hrem.
    exact Hrem.
Qed.

(** With an integer [max_pool] every level pools and upsamples by it. *)
Lemma Unet2_init_pool_int (inshape : list nat) (infeats : nat)
    (nb_features : option features) (nb_levels_arg : option nat)
    (p feat_mult ncpl : nat) (half : bool) (self : Unet2) :
  Unet2_init inshape infeats nb_features nb_levels_arg (PoolInt p) feat_mult
    ncpl half = Ok self ->
  forall j, j < nb_levels self ->
    nth_error (pooling self) j
    = Some {| pool_ndims := List.length inshape; pool_kernel := p |}
    /\ nth_error (upsampling self) j = Some {| scale_factor := p |}.
Proof.
  intros Hinit j Hj. apply Unet2_init_inv in Hinit.
  destruct Hinit as [_ [_ [Hpool [Hup _]]]].
  rewrite Hpool, Hup, !nth_error_map, nth_error_repeat by exact Hj.
  split; reflexivity.
Qed.

(** When [max_pool] gives the factor [p] to the levels, every level
    pools and upsamples by it. *)
Lemma Unet2_init_pool_uniform (inshape : list nat) (infeats : nat)
    (nb_features : option features) (nb_levels_arg : option nat)
    (max_pool : max_pool_arg) (p feat_mult ncpl : nat) (half : bool)
    (self : Unet2) :
  Unet2_init inshape infeats nb_features nb_levels_arg max_pool feat_mult
    ncpl half = Ok self ->
  uniform_pool max_pool (nb_levels self - 1) p ->
  forall j, j < nb_levels self - 1 ->
    nth_error (pooling self) j
    = Some {| pool_ndims := List.length inshape; pool_kernel := p |}
    /\ nth_error (upsampling self) j = Some {| scale_factor := p |}.
Proof.
  intros Hinit Hu j Hj. apply Unet2_init_inv in Hinit.
  destruct Hinit as [_ [_ [Hpool [Hup _]]]].
  rewrite Hpool, Hup, !nth_error_map.
  destruct max_pool as [s | ss]; simpl in Hu.
  - subst s. rewrite nth_error_repeat by lia. split; reflexivity.
  - assert (Hn : nth_error ss j = Some p).
    { pose proof (nth_error_firstn (nb_levels self - 1) ss j) as Hf.
      rewrite Hu in Hf. rewrite nth_error_repeat in Hf by exact Hj.
      destruct (Nat.ltb_spec j (nb_levels self - 1)) as [_ | Hbad]; [| lia].
      symmetry. exact Hf. }
    rewrite Hn. split; reflexivity.
Qed.

(** ** Encode and decode on shapes *)

(** The encode pass on shapes, for one pooling factor at all levels. *)
Lemma Unet2_encode_shape (inshape : list nat) (infeats : nat)
    (nb_features : option features) (nb_levels_arg : option nat)
    (max_pool : max_pool_arg) (p feat_mult ncpl : nat) (half : bool)
    (self : Unet2) (n : nat) (dims : list nat) :
  Unet2_init inshape infeats nb_features nb_levels_arg max_pool feat_mult
    ncpl half = Ok self ->
  uniform_pool max_pool (nb_levels self - 1) p ->
  1 <= p ->
  1 <= infeats ->
  Forall (fun w => 1 <= w) (level_widths (encoder self)) ->
  List.length dims = List.length inshape ->
  Forall (fun d => p ^ (nb_levels self - 1) <= d) dims ->
  exists c hist,
    Unet2_encode self (n :: infeats :: dims)
    = Ok (n :: c :: map (fun d => d / p ^ (nb_levels self - 1)) dims, hist)
    /\ List.length hist = nb_levels self.
Proof.
  intros Hinit Hu Hp Hin Hw Hlen Hge.
  pose proof (Unet2_init_lengths _ _ _ _ _ _ _ _ Hinit) as [_ [Hnb [Hle _]]].
  pose proof (@Unet2_init_pool_uniform _ _ _ _ _ _ _ _ _ _ Hinit Hu) as Hpool.
  apply Unet2_init_spec in Hinit. destruct Hinit as [es [Hes [Hl _]]].
  exists (last es infeats), ([n :: infeats :: dims] ++ hist_of n p dims es).
  split.
  - unfold Unet2_encode, enumerate.
    rewrite (encode_loop_shape n self Hp Hl Hin Hw) with (dims := dims).
    + rewrite Hle. reflexivity.
    + intros j Hj. apply Hpool. simpl. lia.
    + exact Hlen.
    + rewrite Hle. exact Hge.
  - rewrite length_app, hist_of_length. simpl. lia.
Qed.

(** C2 (as amended). Encode does not check divisibility.  Take a network
    whose encoder blocks each have at least one output channel and whose
    [L = nb_levels - 1] pooling levels all have the factor [p >= 1] (an
    integer [max_pool], 2 in the reference configuration, or a list that
    starts with [L] entries [p]).  Encode succeeds on every non-empty
    input [(N, infeats, d1 .. dn)] whose extents are each at least
    [p ^ L], divisible or not: every pooling level floors, the bottleneck
    has the extents [d / p ^ L], and the history stack holds [nb_levels]
    entries. *)
Theorem encode_floors_without_check :
  forall (inshape : list nat) (infeats : nat) (nb_features : option features)
         (nb_levels_arg : option nat) (max_pool : max_pool_arg)
         (p feat_mult nb_conv_per_level : nat)
         (half : bool) (self : Unet2) (n : nat) (dims : list nat),
    Unet2_init inshape infeats nb_features nb_levels_arg max_pool feat_mult
      nb_conv_per_level half = Ok self ->
    uniform_pool max_pool (nb_levels self - 1) p ->
    1 <= p ->
    1 <= n ->
    1 <= infeats ->
    Forall (fun w => 1 <= w) (level_widths (encoder self)) ->
    List.length dims = List.length inshape ->
    Forall (fun d => p ^ (nb_levels self - 1) <= d) dims ->
    exists c hist,
      Unet2_forward self (n :: infeats :: dims) "encode" None
      = Ok (Encoded
              (n :: c :: map (fun d => d / p ^ (nb_levels self - 1)) dims)
              hist, None)
      /\ List.length hist = nb_levels self.
Proof.
  intros inshape infeats nbf lv mp p fm ncpl half self n dims
    Hinit Hu Hp _ Hin Hw Hlen Hge.
  destruct (@Unet2_encode_shape inshape infeats nbf lv mp p fm ncpl half self
              n dims Hinit Hu Hp Hin Hw Hlen Hge)
    as [c [hist [Henc Hhist]]].
  exists c, hist. split; [| exact Hhist].
  unfold Unet2_forward. simpl String.eqb. cbv iota.
  unfold tshape in Henc |- *. rewrite Henc. reflexivity.
Qed.

(** C5 (as amended). Take a configuration with half-resolution off whose
    convolutions each have at least one output channel and whose
    [nb_levels - 1] levels all have the pooling factor [p >= 1] (an
    integer [max_pool], or a list that starts with that many entries
    [p]).  For every non-empty input [(N, infeats, d1 .. dn)] whose extents
    are positive multiples of [p ^ (nb_levels - 1)], encode followed by
    decode with that encode's history stack returns a tensor of shape
    [(N, final_nf, d1 .. dn)]: the original extents with the final channel
    count (2 in the reference configuration).  The stack is left holding
    the input alone. *)
Theorem encode_decode_restores_shape :
  forall (inshape : list nat) (infeats : nat) (nb_features : option features)
         (nb_levels_arg : option nat) (max_pool : max_pool_arg)
         (p feat_mult nb_conv_per_level : nat)
         (self : Unet2) (n : nat) (dims : list nat),
    Unet2_init inshape infeats nb_features nb_levels_arg max_pool feat_mult
      nb_conv_per_level false = Ok self ->
    uniform_pool max_pool (nb_levels self - 1) p ->
    1 <= p ->
    1 <= n ->
    1 <= infeats ->
    Forall (fun w => 1 <= w) (conv_widths self) ->
    List.length dims = List.length inshape ->
    Forall (fun d => 1 <= d /\ Nat.divide (p ^ (nb_levels self - 1)) d) dims ->
    exists y hist,
      Unet2_forward self (n :: infeats :: dims) "encode" None
      = Ok (Encoded y hist, None)
      /\ Unet2_forward self y "decode" (Some hist)
         = Ok (Decoded (n :: final_nf self :: dims),
               Some [n :: infeats :: dims]).
Proof.
  intros inshape infeats nbf lv mp p fm ncpl self n dims
    Hinit Hu Hp _ Hin Hw Hlen HD.
  unfold conv_widths in Hw. apply Forall_app in Hw. destruct Hw as [Hwe Hw].
  apply Forall_app in Hw. destruct Hw as [Hwd Hwr].
  apply level_widths_cons in Hwr. destruct Hwr as [Hwr _].
  pose proof (Unet2_init_lengths _ _ _ _ _ _ _ _ Hinit)
    as [Hhalf [Hnb [Hle Hld]]].
  pose proof (@Unet2_init_pool_uniform _ _ _ _ _ _ _ _ _ _ Hinit Hu) as Hpool.
  pose proof (Unet2_init_inv _ _ _ _ _ _ _ _ Hinit) as [Hnd _].
  apply Unet2_init_spec in Hinit.
  destruct Hinit as [es [Hes [Hl Hdec]]].
  destruct (Hdec eq_refl) as [prev2 [Hd Hrem]]. clear Hdec.
  assert (Hge : Forall (fun d => p ^ List.length (encoder self) <= d) dims).
  { rewrite Hle. eapply Forall_impl; [| exact HD]. intros d [Hd1 Hdv].
    apply divide_pos_bound; assumption. }
  assert (Hpos : Forall (fun d => 1 <= d) dims).
  { eapply Forall_impl; [| exact HD]. intros d [Hd1 _]. exact Hd1. }
  assert (Hlast : 1 <= last es infeats).
  { clear - Hl Hwe Hin. revert Hwe Hin.
    induction Hl as [c | c convs e levels es Hc Hl IH]; intros Hwe Hin;
      [exact Hin |].
    apply level_widths_cons in Hwe. destruct Hwe as [Hwc Hwl].
    rewrite last_cons. apply (IH Hwl).
    apply (@chain_out_pos _ c e convs Hc Hwc Hin). }
  exists (n :: last es infeats
            :: map (fun d => d / p ^ List.length (encoder self)) dims),
         ([n :: infeats :: dims] ++ hist_of n p dims es).
  split.
  - unfold Unet2_forward. simpl String.eqb. cbv iota.
    unfold Unet2_encode, enumerate.
    rewrite (encode_loop_shape n self Hp Hl Hin Hwe) with (dims := dims).
    + reflexivity.
    + intros j Hj. apply Hpool. simpl. lia.
    + exact Hlen.
    + exact Hge.
  - unfold Unet2_forward. simpl String.eqb. cbv iota.
    unfold Unet2_decode, enumerate.
    rewrite Hle, <- Hld.
    rewrite <- (firstn_all (hist_of n p dims es)) at 1.
    rewrite hist_of_length, Hes, <- Hld.
    assert (HD' : Forall (fun d => 1 <= d /\ Nat.divide (p ^ List.length es) d)
                    dims) by (rewrite Hes; exact HD).
    assert (Hsum : 0 + List.length (decoder self) = List.length es)
      by (simpl; lia).
    assert (Hup : forall j, j < List.length (decoder self) ->
                    nth_error (upsampling self) (0 + j)
                    = Some {| scale_factor := p |})
      by (intros j Hj; apply Hpool; simpl; lia).
    destruct (@decode_loop_shape n (List.length inshape) p infeats self es
                dims Hnd Hp Hhalf Hlen HD' 0 (last es infeats) (decoder self)
                prev2 Hd Hlast Hwd Hsum Hup [n :: infeats :: dims])
      as [Hloop Hprev].
    unfold tshape in Hloop |- *. rewrite Hloop. cbn [bind].
    rewrite (@apply_convs_shape n (List.length inshape) prev2 (final_nf self)
               (remaining self) dims Hrem Hwr Hlen Hpos).
    reflexivity.
Qed.

(** C2, as stated, fails: 250 is not a multiple of [2 ^ 5], and the
    reference network encodes a 250 x 250 pair, flooring down to 7 x 7. *)
Lemma encode_floors_without_check_counterexample :
  exists u h,
    unet_ref = Ok u
    /\ List.length (encoder u) = 5
    /\ 250 mod 2 ^ 5 <> 0
    /\ Unet2_forward u [1; 2; 250; 250] "encode" None
       = Ok (Encoded [1; 64; 7; 7] h, None).
Proof.
  do 2 eexists. split; [vm_compute; reflexivity |].
  split; [reflexivity |]. split; [vm_compute; discriminate |].
  vm_compute. reflexivity.
Qed.

Lemma encode_floors_without_check_witness :
  exists u,
    unet_ref = Ok u
    /\ exists c hist,
        Unet2_forward u [1; 2; 250; 250] "encode" None
        = Ok (Encoded
                (1 :: c :: map (fun d => d / 2 ^ (nb_levels u - 1)) [250; 250])
                hist, None)
        /\ List.length hist = nb_levels u.
Proof.
  eexists. split; [vm_compute; reflexivity |].
  refine (@encode_floors_without_check [256; 256] 2
            (Some (FeatLists enc_nf_ref dec_nf_ref)) None (PoolInt 2) 2 1 1
            false _ 1 [250; 250] _ _ _ _ _ _ _ _).
  - vm_compute. reflexivity.
  - reflexivity.
  - lia.
  - lia.
  - lia.
  - repeat constructor.
  - reflexivity.
  - repeat constructor; vm_compute; lia.
Defined.

(** C5, as stated, fails: half-resolution mode is a valid configuration,
    and there the output of the round trip has half the extents. *)
Lemma encode_decode_restores_shape_counterexample :
  exists u y h hs,
    unet_half = Ok u
    /\ final_nf u = 2
    /\ Nat.divide (2 ^ (nb_levels u - 1)) 8
    /\ Unet2_forward u [1; 2; 8; 8] "encode" None = Ok (Encoded y h, None)
    /\ Unet2_forward u y "decode" (Some h) = Ok (Decoded [1; 2; 4; 4], hs).
Proof.
  do 4 eexists. split; [vm_compute; reflexivity |].
  split; [reflexivity |]. split; [exists 4; reflexivity |].
  split; vm_compute; reflexivity.
Qed.

Lemma encode_decode_restores_shape_witness :
  exists u,
    unet_ref = Ok u
    /\ exists y hist,
        Unet2_forward u frame_pair_ref "encode" None = Ok (Encoded y hist, None)
        /\ Unet2_forward u y "decode" (Some hist)
           = Ok (Decoded [1; final_nf u; 256; 256], Some [frame_pair_ref]).
Proof.
  eexists. split; [vm_compute; reflexivity |].
  refine (@encode_decode_restores_shape [256; 256] 2
            (Some (FeatLists enc_nf_ref dec_nf_ref)) None (PoolInt 2) 2 1 1 _ 1
            [256; 256] _ _ _ _ _ _ _ _).
  - vm_compute. reflexivity.
  - reflexivity.
  - lia.
  - lia.
  - lia.
  - repeat constructor.
  - reflexivity.
  - repeat constructor; try lia; exists 8; reflexivity.
Defined.

(** ** The orchestrator, over any tensor library *)

Section OrchestratorClaims.

Context {tensor rng : Type} {torch : Torch tensor rng}.

Lemma decode_stage_labels (self : Bottleneck) (e : encoded (tensor := tensor))
    (lbls : tensor) (h_0 c_0 : tensor) :
  match decode_stage self e None h_0 c_0 with
  | Ok out2 =>
      exists mi flow,
        out2 = [mi; flow]
        /\ (forall out3,
               decode_stage self e (Some lbls) h_0 c_0 = Ok out3 ->
               exists ml, out3 = [mi; ml; flow])
  | Err err => decode_stage self e (Some lbls) h_0 c_0 = Err err
  end.
Proof.
  unfold decode_stage.
  destruct (view (encoder_out e) _) as [flat | err]; [| reflexivity].
  cbn [bind].
  destruct (lstm_forward (lstm self) flat (h_0, c_0)) as [[lstm_out st] | err];
    [| reflexivity].
  cbn [bind].
  destruct (view lstm_out _) as [lstm_out' | err]; [| reflexivity].
  cbn [bind].
  destruct (unbind lstm_out') as [steps | err]; [| reflexivity].
  cbn [bind].
  destruct (comprehension _ (range (T e))) as [Y | err]; [| reflexivity].
  cbn [bind].
  destruct (cat Y 0) as [flow | err]; [| reflexivity].
  cbn [bind].
  destruct (unbind flow) as [flows | err]; [| reflexivity].
  cbn [bind].
  destruct (warp_all self (frames e) flows) as [mi | err]; [| reflexivity].
  cbn [bind].
  exists mi, flow. split; [reflexivity |].
  intros out3 H3.
  destruct (unbind lbls) as [lbl_frames | err]; [| discriminate].
  cbn [bind] in H3.
  destruct (warp_all self lbl_frames flows) as [ml | err]; [| discriminate].
  cbn [bind] in H3. inversion H3. exists ml. reflexivity.
Qed.

(** C6. For fixed weights, the same state of the random generator (so the
    same two draws for the recurrent initial state) and the same image
    sequence, a call with labels and a call without differ only in the
    arity of the returned list: the call without labels returns
    [[moved_images, flow]], every return of the call with labels is
    [[moved_images, moved_labels, flow]] with the same warped images and
    the same flow, a failure of the call without labels is the failure of
    the call with labels, and both calls leave the generator in the same
    state. *)
Theorem labels_change_only_arity :
  forall (self : Bottleneck) (images lbls : tensor) (g : rng),
    snd (Bottleneck_forward self images (Some lbls) g)
    = snd (Bottleneck_forward self images None g)
    /\ (forall out3,
           fst (Bottleneck_forward self images (Some lbls) g) = Ok out3 ->
           exists mi ml flow,
             out3 = [mi; ml; flow]
             /\ fst (Bottleneck_forward self images None g) = Ok [mi; flow])
    /\ (forall out2,
           fst (Bottleneck_forward self images None g) = Ok out2 ->
           exists mi flow,
             out2 = [mi; flow]
             /\ forall out3,
                 fst (Bottleneck_forward self images (Some lbls) g) = Ok out3 ->
                 exists ml, out3 = [mi; ml; flow])
    /\ (forall err,
           fst (Bottleneck_forward self images None g) = Err err ->
           fst (Bottleneck_forward self images (Some lbls) g) = Err err).
Proof.
  intros self images lbls g. unfold Bottleneck_forward.
  destruct (encode_stage self images) as [e | err].
  - destruct (randn [1; bs e; hidden_size self] g) as [h_0 g1].
    destruct (randn [1; bs e; hidden_size self] g1) as [c_0 g2].
    cbn [fst snd].
    pose proof (decode_stage_labels self e lbls h_0 c_0) as Hl.
    destruct (decode_stage self e None h_0 c_0) as [out2 | err].
    + destruct Hl as [mi [flow [H2 H3]]].
      split; [reflexivity |]. split; [| split].
      * intros out3 Hout. destruct (H3 out3 Hout) as [ml Hml].
        exists mi, ml, flow. split; [exact Hml | congruence].
      * intros out2' Hout. inversion Hout; subst out2'.
        exists mi, flow. split; [exact H2 | exact H3].
      * intros err Herr. discriminate.
    + split; [reflexivity |]. split; [| split].
      * intros out3 Hout. rewrite Hl in Hout. discriminate.
      * intros out2 Hout. discriminate.
      * intros err' Herr. inversion Herr; subst err'. exact Hl.
  - cbn [fst snd]. split; [reflexivity |]. split; [| split].
    + intros out3 Hout. discriminate.
    + intros out2 Hout. discriminate.
    + intros err' Herr. exact Herr.
Qed.

(** The checks of lines 39-40 on a stacked feature tensor of five axes. *)
Lemma check_entry_rejects (imgs : list tensor) (Xh : list (list tensor))
    (enc_out : tensor) (T' bs' C' W' H' : nat) :
  shape enc_out = [T'; bs'; C'; W'; H'] ->
  bs' <> 1 \/ T' <> 39 ->
  check_entry imgs Xh enc_out = Err (AssertionError "").
Proof.
  intros Hs Hbad. unfold check_entry, py_assert. rewrite Hs.
  destruct (Nat.eqb_spec bs' 1) as [Hbs | Hbs]; [| reflexivity].
  destruct (Nat.eqb_spec T' 39) as [HT | HT]; [| reflexivity].
  destruct Hbad; contradiction.
Qed.

Lemma check_entry_accepts (imgs : list tensor) (Xh : list (list tensor))
    (enc_out : tensor) (e : encoded) :
  check_entry imgs Xh enc_out = Ok e ->
  exists C' W' H', shape enc_out = [39; 1; C'; W'; H'] /\ bs e = 1 /\ T e = 39.
Proof.
  unfold check_entry, py_assert. intros Hr.
  destruct (shape enc_out) as [| T' [| bs' [| C' [| W' [| H' [| x s]]]]]];
    try discriminate.
  destruct (Nat.eqb_spec bs' 1) as [Hbs | Hbs]; [| discriminate].
  destruct (Nat.eqb_spec T' 39) as [HT | HT]; [| discriminate].
  cbn [bind] in Hr. injection Hr as He. subst e T' bs'. cbn.
  exists C', W', H'. repeat split.
Qed.

Lemma forward_fails_at_entry (self : Bottleneck) (images : tensor)
    (labels : option tensor) (g : rng) (err : exn) :
  encode_stage self images = Err err ->
  Bottleneck_forward self images labels g = (Err err, g).
Proof. unfold Bottleneck_forward. intros ->. reflexivity. Qed.

Lemma forward_ok_entry (self : Bottleneck) (images : tensor)
    (labels : option tensor) (g g' : rng) (out : list tensor) :
  Bottleneck_forward self images labels g = (Ok out, g') ->
  exists e, encode_stage self images = Ok e.
Proof.
  unfold Bottleneck_forward.
  destruct (encode_stage self images) as [e | err]; [eauto |].
  intros Hr. inversion Hr.
Qed.

End OrchestratorClaims.

(** ** The stacked encoder features on shapes *)

Lemma length_but_last {X : Type} (l : list X) :
  List.length (but_last l) = List.length l - 1.
Proof.
  unfold but_last. induction l as [| x l IH]; [reflexivity |].
  destruct l as [| y l]; [reflexivity |].
  change (removelast (x :: y :: l)) with (x :: removelast (y :: l)).
  simpl List.length in IH |- *. rewrite IH. lia.
Qed.

Lemma length_pairs {X : Type} (l : list X) :
  List.length (combine (but_last l) (but_first l)) = List.length l - 1.
Proof.
  rewrite length_combine, length_but_last. unfold but_first.
  rewrite length_tl. lia.
Qed.

(** Every encoded pair is stacked with a leading axis of extent one. *)
Lemma encode_pairs_loop (self : Bottleneck) :
  forall (pairs : list (tshape * tshape)) (X : list tshape)
         (Xh : list (list tshape)) r,
    Forall (fun t => exists s, t = 1 :: s) X ->
    for_each pairs
      (fun '(src, trg) '(X, X_hist) =>
         p <- cat [src; trg] 1 ;;
         r <- Unet2_forward (unet self) p "encode" None ;;
         match fst r with
         | Encoded x x_history =>
             Ok (X ++ [unsqueeze x 0], X_hist ++ [x_history])
         | _ => Err (TypeError "cannot unpack non-iterable object")
         end)
      (X, Xh) = Ok r ->
    Forall (fun t => exists s, t = 1 :: s) (fst r)
    /\ List.length (fst r) = List.length X + List.length pairs.
Proof.
  induction pairs as [| [src trg] pairs IH]; intros X Xh r HX Hr.
  - simpl in Hr. inversion Hr. simpl. split; [exact HX | lia].
  - cbn [for_each] in Hr. apply bind_ok in Hr.
    destruct Hr as [[X1 Xh1] [Hstep Hrest]].
    apply bind_ok in Hstep. destruct Hstep as [pr [_ Hstep]].
    apply bind_ok in Hstep. destruct Hstep as [[v hs] [_ Hstep]].
    destruct v as [x xh | x |]; try discriminate.
    cbn [fst] in Hstep. inversion Hstep; subst X1 Xh1.
    apply IH in Hrest.
    + destruct Hrest as [Hall Hlen]. split; [exact Hall |].
      rewrite Hlen, length_app. simpl. lia.
    + apply Forall_app. split; [exact HX |].
      constructor; [| constructor]. exists x. reflexivity.
Qed.

Lemma cat_stack_loop :
  forall (ts : list tshape) (a : nat) (tl r : tshape),
    Forall (fun t => exists s, t = 1 :: s) ts ->
    for_each ts (fun t' acc => cat2 acc t' 0) (a :: tl) = Ok r ->
    r = a + List.length ts :: tl.
Proof.
  induction ts as [| t ts IH]; intros a tl r Hall Hr.
  - simpl in Hr. inversion Hr. f_equal. simpl. lia.
  - inversion Hall as [| t' ts' [s Ht] Hall']; subst t' ts' t.
    cbn [for_each] in Hr. simpl cat2 in Hr.
    destruct (same_shape tl s); [| discriminate].
    cbn [bind] in Hr. apply IH in Hr; [| exact Hall'].
    rewrite Hr. f_equal. simpl. lia.
Qed.

(** Tensors with a leading axis of extent one are not skipped by
    [torch.cat]. *)
Lemma filter_unit_lead (ts : list tshape) :
  Forall (fun t => exists s, t = 1 :: s) ts ->
  filter (fun t => negb (same_shape t [0])) ts = ts.
Proof.
  induction 1 as [| t ts [s Ht] _ IH]; [reflexivity |].
  subst t. cbn [filter]. unfold same_shape at 1.
  destruct (list_eq_dec Nat.eq_dec (1 :: s) [0]) as [E | _]; [discriminate |].
  cbn [negb]. rewrite IH. reflexivity.
Qed.

Lemma cat_stack (X : list tshape) (r : tshape) :
  Forall (fun t => exists s, t = 1 :: s) X ->
  cat_shape X 0 = Ok r ->
  exists tl, r = List.length X :: tl.
Proof.
  intros Hall Hr. unfold cat_shape in Hr.
  destruct X as [| t ts]; [discriminate |].
  rewrite (filter_unit_lead Hall) in Hr.
  inversion Hall as [| t' ts' [s Ht] Hall']; subst t' ts' t.
  simpl in Hr. apply cat_stack_loop in Hr; [| exact Hall'].
  exists s. rewrite Hr. reflexivity.
Qed.

(** The stacked features have one entry per pair of consecutive frames:
    the encoded sequence is one shorter than the image sequence. *)
Lemma stack_pairs_length (self : Bottleneck) (fr : nat) (rest : tshape)
    (imgs : list tshape) (Xh : list (list tshape)) (enc_out : tshape) :
  stack_pairs self (fr :: rest) = Ok (imgs, Xh, enc_out) ->
  List.length imgs = fr /\ exists tl, enc_out = fr - 1 :: tl.
Proof.
  unfold stack_pairs. simpl unbind. cbn [unbind_shape bind]. intros Hr.
  apply bind_ok in Hr. destruct Hr as [[X Xh'] [Hpairs Hr]].
  apply bind_ok in Hr. destruct Hr as [enc [Hcat Hr]].
  inversion Hr; subst imgs Xh' enc.
  unfold encode_pairs in Hpairs.
  apply encode_pairs_loop in Hpairs; [| constructor].
  destruct Hpairs as [Hall Hlen]. cbn [fst] in Hall, Hlen.
  rewrite length_pairs, repeat_length in Hlen. simpl in Hlen.
  split; [apply repeat_length |].
  apply (cat_stack Hall) in Hcat. destruct Hcat as [tl Htl].
  exists tl. rewrite Htl, Hlen. reflexivity.
Qed.

Lemma stack_pairs_too_short (self : Bottleneck) (fr : nat) (rest : tshape) :
  fr <= 1 ->
  stack_pairs self (fr :: rest)
  = Err (RuntimeError "cat: expected a non-empty list of Tensors").
Proof.
  intros Hfr. destruct fr as [| [| fr]]; [reflexivity | reflexivity | lia].
Qed.

Lemma pairs_repeat {X : Type} (s : X) (k : nat) :
  combine (but_last (repeat s (S k))) (but_first (repeat s (S k)))
  = repeat (s, s) k.
Proof.
  unfold but_last, but_first. induction k as [| k IH]; [reflexivity |].
  change (repeat s (S (S k))) with (s :: repeat s (S k)).
  change (removelast (s :: repeat s (S k)))
    with (s :: removelast (repeat s (S k))).
  change (tl (s :: repeat s (S k))) with (s :: tl (repeat s (S k))).
  simpl combine. simpl in IH. rewrite IH. reflexivity.
Qed.

Lemma cat_repeat_loop (y : tshape) :
  forall (k a : nat),
    for_each (repeat (1 :: y) k) (fun t' acc => cat2 acc t' 0) (a :: y)
    = Ok (a + k :: y).
Proof.
  induction k as [| k IH]; intros a.
  - simpl. rewrite Nat.add_0_r. reflexivity.
  - simpl repeat. cbn [for_each]. simpl cat2. rewrite same_shape_refl.
    cbn [bind]. rewrite IH. f_equal. f_equal. lia.
Qed.

Lemma cat_repeat (y : tshape) (k : nat) :
  cat_shape (repeat (1 :: y) (S k)) 0 = Ok (S k :: y).
Proof.
  unfold cat_shape. rewrite filter_unit_lead.
  - simpl repeat. cbn [List.length Nat.ltb Nat.leb].
    apply cat_repeat_loop.
  - apply Forall_forall. intros t Ht. apply repeat_spec in Ht.
    exists y. exact Ht.
Qed.

(** Frames of one shape give encoded pairs of one shape. *)
Lemma encode_pairs_repeat (self : Bottleneck) (s pr y : tshape)
    (hist : list tshape) :
  cat_shape [s; s] 1 = Ok pr ->
  Unet2_forward (unet self) pr "encode" None = Ok (Encoded y hist, None) ->
  forall (k : nat) (X : list tshape) (Xh : list (list tshape)),
    for_each (repeat (s, s) k)
      (fun '(src, trg) '(X, X_hist) =>
         p <- cat [src; trg] 1 ;;
         r <- Unet2_forward (unet self) p "encode" None ;;
         match fst r with
         | Encoded x x_history =>
             Ok (X ++ [unsqueeze x 0], X_hist ++ [x_history])
         | _ => Err (TypeError "cannot unpack non-iterable object")
         end)
      (X, Xh)
    = Ok (X ++ repeat (1 :: y) k, Xh ++ repeat hist k).
Proof.
  intros Hcat Henc. induction k as [| k IH]; intros X Xh.
  - simpl. rewrite !app_nil_r. reflexivity.
  - simpl repeat. cbn [for_each].
    change (cat [s; s] 1) with (cat_shape [s; s] 1). rewrite Hcat. cbn [bind].
    unfold tshape in Henc |- *. rewrite Henc. cbn [bind fst].
    rewrite IH, <- !app_assoc. reflexivity.
Qed.

(** The network of a constructed [Bottleneck]. *)
Lemma Bottleneck_init_unet (size : list nat) (b : Bottleneck) :
  Bottleneck_init size = Ok b ->
  Unet2_init size 2 (Some (FeatLists enc_nf_ref dec_nf_ref)) None (PoolInt 2)
    1 1 false = Ok (unet b).
Proof.
  unfold Bottleneck_init. intros Hinit.
  apply bind_ok in Hinit. destruct Hinit as [u [Hu Hinit]].
  apply bind_ok in Hinit. destruct Hinit as [c [_ Hinit]].
  apply bind_ok in Hinit. destruct Hinit as [s0 [_ Hinit]].
  apply bind_ok in Hinit. destruct Hinit as [s1 [_ Hinit]].
  apply bind_ok in Hinit. destruct Hinit as [l [_ Hinit]].
  injection Hinit as Hb. rewrite <- Hb. exact Hu.
Qed.

(** A sequence of at least two frames [(N, 1, W, H)] with extents of at
    least 32 passes the encoder of the reference model and stacks to a
    tensor of five axes. *)
Lemma stack_pairs_frames (s0 s1 : nat) (b : Bottleneck)
    (fr n Wd Ht : nat) :
  Bottleneck_init [s0; s1] = Ok b ->
  2 <= fr -> 32 <= Wd -> 32 <= Ht ->
  exists Xh c W' H',
    stack_pairs b [fr; n; 1; Wd; Ht]
    = Ok (repeat [n; 1; Wd; Ht] fr, Xh, [fr - 1; n; c; W'; H']).
Proof.
  intros Hinit Hfr HW HH. apply Bottleneck_init_unet in Hinit.
  remember (unet b) as u eqn:Eu.
  assert (Hu : unet_ref = Ok u) by exact Hinit.
  assert (Hnb : nb_levels u = 6).
  { pose proof Hu as Hu'. vm_compute in Hu'. injection Hu' as Hu'.
    rewrite <- Hu'. reflexivity. }
  assert (Hw : Forall (fun w => 1 <= w) (level_widths (encoder u))).
  { pose proof Hu as Hu'. vm_compute in Hu'. injection Hu' as Hu'.
    rewrite <- Hu'. repeat constructor. }
  assert (Hge : Forall (fun d => 2 ^ (nb_levels u - 1) <= d) [Wd; Ht]).
  { rewrite Hnb. repeat constructor; simpl; lia. }
  destruct (@Unet2_encode_shape [256; 256] 2 _ None (PoolInt 2) 2 1 1 false
              u n [Wd; Ht] Hu eq_refl (le_n_S _ _ (Nat.le_0_l _))
              (le_n_S _ _ (Nat.le_0_l _)) Hw eq_refl Hge)
    as [c [hist [Henc _]]].
  simpl map in Henc.
  exists (repeat hist (fr - 1)), c,
         (Wd / 2 ^ (nb_levels u - 1)), (Ht / 2 ^ (nb_levels u - 1)).
  unfold stack_pairs. simpl unbind. cbn [unbind_shape bind].
  unfold encode_pairs.
  destruct fr as [| k]; [lia |].
  rewrite pairs_repeat.
  rewrite (@encode_pairs_repeat b [n; 1; Wd; Ht] [n; 2; Wd; Ht]
             [n; c; Wd / 2 ^ (nb_levels u - 1); Ht / 2 ^ (nb_levels u - 1)]
             hist).
  - cbn [bind app]. destruct k as [| k]; [lia |].
    change (cat ?a ?b) with (cat_shape a b). rewrite cat_repeat.
    cbn [bind]. reflexivity.
  - apply cat_channels.
  - rewrite <- Eu. unfold Unet2_forward. simpl String.eqb. cbv iota.
    unfold tshape in Henc |- *. rewrite Henc. reflexivity.
Qed.

(** ** The entry of the recurrent stage *)

Lemma encode_stage_stacked (self : Bottleneck) (images : tshape)
    (imgs : list tshape) (Xh : list (list tshape)) (enc_out : tshape) :
  stack_pairs self images = Ok (imgs, Xh, enc_out) ->
  encode_stage self images = check_entry imgs Xh enc_out.
Proof. unfold encode_stage. intros ->. reflexivity. Qed.

Lemma forward_rejects_stack (self : Bottleneck) (images : tshape)
    (labels : option tshape) (g : nat) (imgs : list tshape)
    (Xh : list (list tshape)) (T' bs' C' W' H' : nat) :
  stack_pairs self images = Ok (imgs, Xh, [T'; bs'; C'; W'; H']) ->
  bs' <> 1 \/ T' <> 39 ->
  Bottleneck_forward self images labels g = (Err (AssertionError ""), g).
Proof.
  intros Hst Hbad. apply forward_fails_at_entry.
  rewrite (encode_stage_stacked _ _ Hst).
  eapply check_entry_rejects; [reflexivity | exact Hbad].
Qed.

(** C3. At the entry of the recurrent stage the stacked encoder features
    are checked: their first axis, the encoded sequence length, is always
    one less than the number of frames, and it must be 39, one less than
    the 40 frames of the reference input; their second axis, the batch
    size, must be 1.  On any violation the call raises an
    [AssertionError] at once: no random state is drawn and nothing is
    decoded, truncated or padded.  A call that returns has passed both
    checks. *)
Theorem recurrent_entry_checks :
  forall (self : Bottleneck) (fr : nat) (rest : tshape)
         (labels : option tshape) (g : nat) (imgs : list tshape)
         (Xh : list (list tshape)) (enc_out : tshape),
    stack_pairs self (fr :: rest) = Ok (imgs, Xh, enc_out) ->
    (exists tl, enc_out = fr - 1 :: tl)
    /\ (forall T' bs' C' W' H',
           enc_out = [T'; bs'; C'; W'; H'] ->
           bs' <> 1 \/ T' <> 39 ->
           Bottleneck_forward self (fr :: rest) labels g
           = (Err (AssertionError ""), g))
    /\ (forall out g',
           Bottleneck_forward self (fr :: rest) labels g = (Ok out, g') ->
           exists C' W' H', enc_out = [39; 1; C'; W'; H'] /\ fr = 40).
Proof.
  intros self fr rest labels g imgs Xh enc_out Hst.
  destruct (stack_pairs_length _ _ _ Hst) as [_ [tl Htl]].
  split; [exists tl; exact Htl |]. split.
  - intros T' bs' C' W' H' Henc Hbad. rewrite Henc in Hst.
    apply (forward_rejects_stack _ _ labels g Hst Hbad).
  - intros out g' Hout. apply forward_ok_entry in Hout.
    destruct Hout as [e He].
    pose proof (encode_stage_stacked _ _ Hst) as Hes.
    unfold tshape in Hes, He. rewrite Hes in He.
    apply check_entry_accepts in He.
    destruct He as [C' [W' [H' [Hshape _]]]]. simpl in Hshape.
    exists C', W', H'. split; [exact Hshape |].
    rewrite Hshape in Htl. injection Htl as Hfr _. lia.
Qed.

Lemma recurrent_entry_checks_witness :
  exists b imgs Xh,
    Bottleneck_init [256; 256] = Ok b
    /\ stack_pairs b [40; 2; 1; 256; 256] = Ok (imgs, Xh, [39; 2; 64; 8; 8])
    /\ Bottleneck_forward b [40; 2; 1; 256; 256] None 0
       = (Err (AssertionError ""), 0).
Proof.
  do 3 eexists. split; [vm_compute; reflexivity |].
  match goal with
  | |- stack_pairs ?b ?im = Ok (?i, ?x, ?e) /\ _ =>
      assert (Hst : stack_pairs b im = Ok (i, x, e))
        by (vm_compute; reflexivity)
  end.
  split; [exact Hst |].
  destruct (@recurrent_entry_checks _ _ _ None 0 _ _ _ Hst) as [_ [Hrej _]].
  apply (Hrej 39 2 64 8 8 eq_refl). left. discriminate.
Defined.

(** C8 (as amended). [Bottleneck.forward] fails for every image sequence
    whose frame count is not 40, whatever the model was built with: the
    length check compares the number of frame pairs with the constant 39.
    The failure is the [AssertionError] of the entry checks whenever the
    pairs were encoded and stacked to five axes, which is the case for
    the model of a two-dimensional image size on every sequence of at
    least two frames [(N, 1, W, H)] with extents of at least 32.  A
    sequence of fewer than two frames fails earlier, at the concatenation
    of an empty list. *)
Theorem forward_requires_forty_frames :
  forall (self : Bottleneck) (fr : nat) (rest : tshape)
         (labels : option tshape) (g : nat),
    fr <> 40 ->
    (exists e, Bottleneck_forward self (fr :: rest) labels g = (Err e, g))
    /\ (forall imgs Xh T' bs' C' W' H',
           stack_pairs self (fr :: rest)
           = Ok (imgs, Xh, [T'; bs'; C'; W'; H']) ->
           Bottleneck_forward self (fr :: rest) labels g
           = (Err (AssertionError ""), g))
    /\ (forall s0 s1 n Wd Ht,
           Bottleneck_init [s0; s1] = Ok self -> rest = [n; 1; Wd; Ht] ->
           2 <= fr -> 32 <= Wd -> 32 <= Ht ->
           Bottleneck_forward self (fr :: rest) labels g
           = (Err (AssertionError ""), g))
    /\ (fr <= 1 ->
        Bottleneck_forward self (fr :: rest) labels g
        = (Err (RuntimeError "cat: expected a non-empty list of Tensors"), g)).
Proof.
  intros self fr rest labels g Hfr.
  assert (Hassert : forall imgs Xh T' bs' C' W' H',
             stack_pairs self (fr :: rest)
             = Ok (imgs, Xh, [T'; bs'; C'; W'; H']) ->
             Bottleneck_forward self (fr :: rest) labels g
             = (Err (AssertionError ""), g)).
  { intros imgs Xh T' bs' C' W' H' Hst.
    apply (forward_rejects_stack _ _ labels g Hst). right.
    destruct (stack_pairs_length _ _ _ Hst) as [_ [tl Htl]].
    injection Htl as HT _. lia. }
  split; [| split; [exact Hassert | split]].
  - destruct (stack_pairs self (fr :: rest)) as [[[imgs Xh] enc_out] | e] eqn:Hst.
    + destruct (check_entry imgs Xh enc_out) as [e | err] eqn:Hck.
      * apply check_entry_accepts in Hck.
        destruct Hck as [C' [W' [H' [Hshape _]]]]. simpl in Hshape.
        destruct (stack_pairs_length _ _ _ Hst) as [_ [tl Htl]].
        rewrite Hshape in Htl. injection Htl as HT _. lia.
      * exists err. apply forward_fails_at_entry.
        pose proof (encode_stage_stacked _ _ Hst) as Hes.
        unfold tshape in Hes |- *. rewrite Hes. exact Hck.
    + exists e. apply forward_fails_at_entry.
      unfold encode_stage. rewrite Hst. reflexivity.
  - intros s0 s1 n Wd Ht Hinit Hrest H2 HW HH. subst rest.
    destruct (@stack_pairs_frames s0 s1 self fr n Wd Ht Hinit H2 HW HH)
      as [Xh [c [W' [H' Hst]]]].
    apply (Hassert _ _ _ _ _ _ _ Hst).
  - intros Hle. apply forward_fails_at_entry.
    unfold encode_stage. rewrite (stack_pairs_too_short self rest Hle).
    reflexivity.
Qed.

(** C8, as stated, fails: a sequence of one frame has no pair to encode,
    and the call fails at the concatenation of the empty list, before the
    assertions are reached. *)
Lemma forward_requires_forty_frames_counterexample :
  exists b,
    Bottleneck_init [256; 256] = Ok b
    /\ 1 <> 40
    /\ Bottleneck_forward b [1; 1; 1; 256; 256] None 0
       = (Err (RuntimeError "cat: expected a non-empty list of Tensors"), 0)
    /\ forall msg,
        fst (Bottleneck_forward b [1; 1; 1; 256; 256] None 0)
        <> Err (AssertionError msg).
Proof.
  eexists. split; [vm_compute; reflexivity |].
  split; [discriminate |]. split; [reflexivity |].
  intros msg. discriminate.
Qed.

Lemma forward_requires_forty_frames_witness :
  exists b,
    Bottleneck_init [256; 256] = Ok b
    /\ Bottleneck_forward b [10; 1; 1; 256; 256] None 0
       = (Err (AssertionError ""), 0).
Proof.
  eexists. split; [vm_compute; reflexivity |].
  match goal with
  | |- Bottleneck_forward ?b _ _ _ = _ =>
      destruct (@forward_requires_forty_frames b 10 [1; 1; 256; 256] None 0)
        as [_ [_ [Hframes _]]]
  end.
  - discriminate.
  - apply (Hframes 256 256 1 256 256); try reflexivity; lia.
Defined.

(** The reference input passes the checks and yields 39 warped images,
    39 warped labels and 39 flow fields of two channels. *)
Example forward_reference_run :
  exists b,
    Bottleneck_init [256; 256] = Ok b
    /\ fst (Bottleneck_forward b images_ref (Some images_ref) 0)
       = Ok [[39; 1; 1; 256; 256]; [39; 1; 1; 256; 256]; [39; 1; 2; 256; 256]]
    /\ fst (Bottleneck_forward b images_ref None 0)
       = Ok [[39; 1; 1; 256; 256]; [39; 1; 2; 256; 256]].
Proof.
  eexists. split; [vm_compute; reflexivity |].
  split; vm_compute; reflexivity.
Qed.

Unset Implicit Arguments.

(** ** More on [ConvBlock] *)

(** X5. A block of kernel 3 and padding 1 with at least one output
    channel maps a non-empty [(N, in, d1 .. dn)] with positive extents to
    [(N, out, (d - 1) / stride + 1 ..)]; with stride 1 the extents are kept.
    A block without output channels is built but fails on its input, and
    an input with another channel count is rejected. *)
Theorem ConvBlock_forward_shape :
  forall (nd c nf s : nat) (cb : ConvBlock) (n : nat) (dims : list nat),
    ConvBlock_init nd c nf s = Ok cb ->
    1 <= s ->
    1 <= n ->
    1 <= c ->
    List.length dims = nd ->
    Forall (fun d => 1 <= d) dims ->
    (1 <= nf ->
     ConvBlock_forward cb (n :: c :: dims)
     = Ok (n :: nf :: map (fun d => (d - 1) / s + 1) dims))
    /\ (1 <= nf -> s = 1 ->
        ConvBlock_forward cb (n :: c :: dims) = Ok (n :: nf :: dims))
    /\ (nf = 0 -> exists e, ConvBlock_forward cb (n :: c :: dims) = Err e)
    /\ (forall c', c' <> c ->
                   exists e, ConvBlock_forward cb (n :: c' :: dims) = Err e).
Proof.
  intros nd c nf s cb n dims Hinit Hs _ _ Hlen Hpos.
  unfold ConvBlock_init in Hinit.
  destruct (existsb (Nat.eqb nd) [1; 2; 3]); [| discriminate].
  injection Hinit as Hcb. subst cb.
  assert (Hfwd : 1 <= nf ->
                 ConvBlock_forward
                   {| main := {| conv_ndims := nd; in_channels := c;
                                 out_channels := nf; kernel_size := 3;
                                 stride := s; padding := 1 |};
                      activation := {| negative_slope := (2 # 10)%Q |} |}
                   (n :: c :: dims)
                 = Ok (n :: nf :: map (fun d => (d - 1) / s + 1) dims)).
  { intros Hnf. unfold ConvBlock_forward.
    change (conv_forward ?a ?b) with (conv_shape a b).
    rewrite conv_shape_batched by exact Hlen.
    unfold conv_features. simpl.
    destruct (Nat.eqb_spec nf 0) as [E | _]; [lia |].
    rewrite Nat.eqb_refl. simpl.
    destruct (Nat.eqb_spec s 0) as [E | _]; [lia |].
    rewrite existsb_none.
    - simpl. f_equal. f_equal. f_equal. apply map_ext_Forall.
      eapply Forall_impl; [| exact Hpos]. intros d Hd. simpl in Hd.
      replace (d + 2 - 3) with (d - 1) by lia. reflexivity.
    - eapply Forall_impl; [| exact Hpos]. intros d Hd. simpl in Hd |- *.
      apply Nat.ltb_ge. lia. }
  split; [exact Hfwd |]. split; [| split].
  - intros Hnf ->. rewrite (Hfwd Hnf). f_equal. f_equal. f_equal.
    apply map_id_on. eapply Forall_impl; [| exact Hpos].
    intros d Hd. simpl in Hd. rewrite Nat.div_1_r. lia.
  - intros ->. unfold ConvBlock_forward.
    change (conv_forward ?a ?b) with (conv_shape a b).
    rewrite conv_shape_batched by exact Hlen.
    unfold conv_features. simpl. eexists. reflexivity.
  - intros c' Hc'. unfold ConvBlock_forward.
    change (conv_forward ?a ?b) with (conv_shape a b).
    rewrite conv_shape_batched by exact Hlen.
    unfold conv_features. simpl.
    destruct (nf =? 0); [simpl; eexists; reflexivity |].
    destruct (Nat.eqb_spec c' c) as [E | _]; [contradiction |].
    simpl. eexists. reflexivity.
Qed.

Lemma ConvBlock_forward_shape_witness :
  exists cb,
    ConvBlock_init 2 16 32 2 = Ok cb
    /\ ConvBlock_forward cb [1; 16; 9; 10] = Ok [1; 32; 5; 5].
Proof.
  eexists. split; [reflexivity |].
  refine (proj1 (@ConvBlock_forward_shape 2 16 32 2 _ 1 [9; 10] eq_refl
                   _ _ _ _ _) _).
  - lia.
  - lia.
  - lia.
  - reflexivity.
  - repeat constructor; lia.
  - lia.
Defined.

(** ** When construction succeeds *)





Lemma level_convs_loop_length (nd : nat) (nfs : list nat) (base : nat) :
  forall (idx : list nat) (prev : nat) (convs : list ConvBlock) r,
    for_each idx
      (fun conv '(convs, prev_nf) =>
         nf <- getitem nfs (base + conv) ;;
         c <- ConvBlock_init nd prev_nf nf 1 ;;
         Ok (convs ++ [c], nf))
      (convs, prev) = Ok r ->
    List.length (fst r) = List.length convs + List.length idx.
Proof.
  induction idx as [| i idx IH]; intros prev convs r Hr.
  - simpl in Hr. inversion Hr. simpl. lia.
  - simpl in Hr. apply bind_ok in Hr. destruct Hr as [[convs' prev'] [Hstep Hrest]].
    apply IH in Hrest. rewrite Hrest.
    apply bind_ok in Hstep. destruct Hstep as [nf [_ Hstep]].
    apply bind_ok in Hstep. destruct Hstep as [c [_ Hstep]].
    injection Hstep as Hc _. rewrite <- Hc, length_app. simpl. lia.
Qed.

Lemma level_convs_length (nd : nat) (nfs : list nat) (ncpl level prev : nat)
    (convs : list ConvBlock) (nf : nat) :
  level_convs nd nfs ncpl level prev = Ok (convs, nf) ->
  List.length convs = ncpl.
Proof.
  intros Hr. unfold level_convs in Hr.
  apply level_convs_loop_length in Hr. simpl in Hr.
  unfold range in Hr. rewrite length_seq in Hr. exact Hr.
Qed.




Lemma configure_remaining_run (nd : nat) :
  In nd [1; 2; 3] ->
  forall (nfs : list nat) (prev : nat) (rem : list ConvBlock),
    exists rem',
      for_each nfs
        (fun nf '(prev_nf, rem) =>
           c <- ConvBlock_init nd prev_nf nf 1 ;;
           Ok (nf, rem ++ [c]))
        (prev, rem) = Ok (last nfs prev, rem')
      /\ List.length rem' = List.length rem + List.length nfs.
Proof.
  intros Hnd. induction nfs as [| nf nfs IH]; intros prev rem.
  - exists rem. simpl. split; [reflexivity | lia].
  - cbn [for_each]. rewrite (ConvBlock_init_ok _ _ Hnd). cbn [bind].
    destruct (IH nf (rem ++ [block nd prev nf])) as [rem' [Hr Hlen]].
    exists rem'. rewrite Hr, last_cons. split; [reflexivity |].
    rewrite Hlen, length_app. simpl. lia.
Qed.


Lemma Unet2_init_parts (inshape : list nat) (infeats : nat)
    (nb_features : option features) (nb_levels_arg : option nat)
    (max_pool : max_pool_arg) (feat_mult ncpl : nat) (half : bool)
    (self : Unet2) :
  Unet2_init inshape infeats nb_features nb_levels_arg max_pool feat_mult ncpl
    half = Ok self ->
  let nd := List.length inshape in
  exists enc_nf dec_nf prev1 nfs prev2,
    In nd [1; 2; 3]
    /\ feature_lists nb_features nb_levels_arg feat_mult ncpl
       = Ok (enc_nf, dec_nf)
    /\ 1 <= ncpl
    /\ nb_levels self = List.length enc_nf / ncpl + 1
    /\ configure_encoder nd enc_nf ncpl (nb_levels self) infeats
       = Ok (prev1, nfs, encoder self)
    /\ configure_decoder nd (firstn (List.length enc_nf) dec_nf) (np_flip nfs)
         ncpl (nb_levels self) half prev1 = Ok (prev2, decoder self)
    /\ configure_remaining nd (skipn (List.length enc_nf) dec_nf) prev2
       = Ok (final_nf self, remaining self).
Proof.
  intros Hinit. unfold Unet2_init in Hinit.
  destruct (existsb (Nat.eqb (List.length inshape)) [1; 2; 3]) eqn:Hnd;
    [| discriminate].
  apply ndims_check_spec in Hnd. simpl in Hinit.
  apply bind_ok in Hinit. destruct Hinit as [[enc_nf dec_nf] [Hfl Hinit]].
  destruct (Nat.eqb_spec ncpl 0) as [E | E]; [discriminate |].
  simpl in Hinit.
  apply bind_ok in Hinit. destruct Hinit as [[[prev1 nfs] enc] [Henc Hinit]].
  apply bind_ok in Hinit. destruct Hinit as [[prev2 dec] [Hdec Hinit]].
  apply bind_ok in Hinit. destruct Hinit as [[fin rem] [Hrem Hinit]].
  inversion Hinit; subst self; simpl.
  exists enc_nf, dec_nf, prev1, nfs, prev2.
  repeat split; try assumption; try reflexivity. lia.
Qed.

Lemma configure_encoder_blocks (nd : nat) (enc_nf : list nat) (ncpl : nat) :
  forall (idx : list nat) st r,
    Forall (fun l => List.length l = ncpl) (snd st) ->
    for_each idx
      (fun level '(prev_nf, encoder_nfs, enc) =>
         '(convs, prev_nf) <- level_convs nd enc_nf ncpl level prev_nf ;;
         Ok (prev_nf, encoder_nfs ++ [prev_nf], enc ++ [convs]))
      st = Ok r ->
    Forall (fun l : list ConvBlock => List.length l = ncpl) (snd r).
Proof.
  induction idx as [| i idx IH]; intros [[p nfs] enc] r Hall Hr.
  - simpl in Hr. inversion Hr. exact Hall.
  - simpl in Hr. apply bind_ok in Hr. destruct Hr as [st1 [Hstep Hrest]].
    apply bind_ok in Hstep. destruct Hstep as [[convs nf] [Hlv Hstep]].
    injection Hstep as Hst. subst st1.
    apply (IH (nf, nfs ++ [nf], enc ++ [convs]) r); [| exact Hrest].
    simpl. apply Forall_app. split; [exact Hall |].
    constructor; [| constructor]. apply (level_convs_length _ _ _ _ _ _ _ Hlv).
Qed.


Lemma last_skipn {X : Type} (l : list X) :
  forall (k : nat) (d d' : X),
    k < List.length l -> last (skipn k l) d = last l d'.
Proof.
  induction l as [| x l IH]; intros k d d' Hk; [simpl in Hk; lia |].
  destruct k as [| k].
  - simpl skipn. apply last_cons_default.
  - simpl skipn. simpl in Hk. rewrite (IH k d x) by lia.
    symmetry. apply last_cons.
Qed.




(** X3. When the decoder list is longer than the encoder list, the final
    number of features is its last entry. *)
Theorem Unet2_init_final_nf :
  forall (inshape : list nat) (infeats : nat) (enc_nf dec_nf : list nat)
         (max_pool : max_pool_arg) (feat_mult nb_conv_per_level : nat)
         (half : bool) (self : Unet2),
    Unet2_init inshape infeats (Some (FeatLists enc_nf dec_nf)) None max_pool
      feat_mult nb_conv_per_level half = Ok self ->
    List.length enc_nf < List.length dec_nf ->
    final_nf self = last dec_nf 0.
Proof.
  intros inshape infeats enc_nf dec_nf mp fm ncpl half self Hinit Hlen.
  apply Unet2_init_parts in Hinit.
  destruct Hinit
    as [enc [dec [prev1 [nfs [prev2 [Hnd [Hfl [_ [_ [_ [_ Hrem]]]]]]]]]]].
  injection Hfl as He Hd. subst enc dec.
  unfold configure_remaining in Hrem.
  destruct (configure_remaining_run _ Hnd (skipn (List.length enc_nf) dec_nf)
              prev2 []) as [rem [Hrun _]].
  rewrite Hrun in Hrem. injection Hrem as Hf _. rewrite <- Hf.
  apply last_skipn. exact Hlen.
Qed.

Lemma Unet2_init_final_nf_witness :
  exists u, unet_ref = Ok u /\ final_nf u = 2.
Proof.
  eexists. split; [vm_compute; reflexivity |].
  refine (@Unet2_init_final_nf [256; 256] 2 enc_nf_ref dec_nf_ref (PoolInt 2)
            1 1 false _ _ _).
  - vm_compute. reflexivity.
  - simpl. lia.
Defined.








(** ** Failures of the encode pass *)

Lemma conv_block_inv (n nd a nf c : nat) (dims : list nat) (r : tshape) :
  List.length dims = nd ->
  ConvBlock_forward (block nd a nf) (n :: c :: dims) = Ok r ->
  r = n :: nf :: dims /\ c = a /\ 1 <= nf.
Proof.
  intros Hlen. unfold ConvBlock_forward.
  change (conv_forward ?a ?b) with (conv_shape a b).
  rewrite conv_shape_batched by exact Hlen.
  unfold conv_features. simpl.
  destruct (Nat.eqb_spec nf 0) as [_ | Hnf]; [discriminate |].
  destruct (Nat.eqb_spec c a) as [Hc | _]; [| discriminate].
  simpl.
  destruct (existsb (fun d => d + 2 <? 3) dims) eqn:Hex; [discriminate |].
  simpl. intros Hr. injection Hr as Hr. subst r.
  split; [| split; [assumption | lia]]. f_equal. f_equal.
  apply map_id_on. apply Forall_forall. intros d Hd.
  assert (Hd3 : (d + 2 <? 3) = false).
  { destruct (d + 2 <? 3) eqn:E; [| reflexivity].
    assert (existsb (fun d => d + 2 <? 3) dims = true)
      by (apply existsb_exists; exists d; split; assumption).
    congruence. }
  apply Nat.ltb_ge in Hd3. apply (@conv_extent d). lia.
Qed.

(** Blocks that return keep the batch size and the extents of a batched
    input. *)
Lemma apply_convs_inv (n nd a b : nat) (convs : list ConvBlock) :
  chain nd a convs b ->
  forall (c : nat) (dims : list nat) (r : tshape),
    List.length dims = nd ->
    apply_convs convs (n :: c :: dims) = Ok r ->
    exists c', r = n :: c' :: dims.
Proof.
  unfold apply_convs.
  induction 1 as [a | a nf convs b _ IH]; intros c dims r Hlen Hr.
  - simpl in Hr. inversion Hr. exists c. reflexivity.
  - cbn [for_each] in Hr. apply bind_ok in Hr. destruct Hr as [r1 [Hb Hrest]].
    apply (conv_block_inv _ _ _ _ _ _ _ Hlen) in Hb.
    destruct Hb as [Hr1 _]. subst r1.
    apply (IH nf dims r Hlen Hrest).
Qed.

Lemma apply_convs_out (n nd a b : nat) (convs : list ConvBlock) :
  chain nd a convs b ->
  forall (dims : list nat) (r : tshape),
    List.length dims = nd ->
    apply_convs convs (n :: a :: dims) = Ok r -> r = n :: b :: dims.
Proof.
  unfold apply_convs.
  induction 1 as [a | a nf convs b _ IH]; intros dims r Hlen Hr.
  - simpl in Hr. inversion Hr. reflexivity.
  - cbn [for_each] in Hr. apply bind_ok in Hr. destruct Hr as [r1 [Hb Hrest]].
    apply (conv_block_inv _ _ _ _ _ _ _ Hlen) in Hb.
    destruct Hb as [Hr1 _]. subst r1.
    apply (IH dims r Hlen Hrest).
Qed.

Lemma max_pool_inv (n nd p c : nat) (dims : list nat) (r : tshape) :
  List.length dims = nd ->
  max_pool_shape {| pool_ndims := nd; pool_kernel := p |} (n :: c :: dims)
  = Ok r ->
  1 <= p /\ Forall (fun d => p <= d) dims
  /\ r = n :: c :: map (fun d => d / p) dims.
Proof.
  intros Hlen. rewrite max_pool_shape_batched by exact Hlen.
  unfold pool_features. simpl.
  destruct (Nat.eqb_spec p 0) as [_ | Hp]; [discriminate |].
  destruct (c =? 0); [discriminate |].
  destruct (existsb (fun d => d <? p) dims) eqn:Hex; [discriminate |].
  simpl. intros Hr. injection Hr as Hr.
  assert (Hge : Forall (fun d => p <= d) dims).
  { apply Forall_forall. intros d Hd.
    destruct (d <? p) eqn:E; [| apply Nat.ltb_ge; exact E].
    assert (existsb (fun d => d <? p) dims = true)
      by (apply existsb_exists; exists d; split; assumption).
    congruence. }
  split; [lia |]. split; [exact Hge |]. subst r. f_equal. f_equal.
  apply map_ext_Forall. eapply Forall_impl; [| exact Hge].
  intros d Hd. simpl in Hd. apply pool_extent; lia.
Qed.

(** The encoder loop fails as soon as one extent cannot be pooled once
    per remaining level. *)
Lemma encode_loop_small (n nd p : nat) (self : Unet2) (c : nat)
    (levels : list (list ConvBlock)) (es : list nat) :
  enc_levels nd c levels es ->
  forall (k : nat) (dims : list nat) (h : list tshape),
    levels <> [] ->
    (forall j, j < List.length levels ->
               nth_error (pooling self) (k + j)
               = Some {| pool_ndims := nd; pool_kernel := p |}) ->
    List.length dims = nd ->
    Exists (fun d => d < p ^ List.length levels) dims ->
    exists e,
      for_each (combine (seq k (List.length levels)) levels)
        (encode_level self) (n :: c :: dims, h) = Err e.
Proof.
  induction 1 as [c | c convs e levels es Hc Hl IH];
    intros k dims h Hne Hpool Hlen Hex; [contradiction |].
  assert (Hk : nth_error (pooling self) k
               = Some {| pool_ndims := nd; pool_kernel := p |}).
  { rewrite <- (Nat.add_0_r k). apply Hpool. simpl. lia. }
  cbn [List.length seq combine for_each].
  unfold encode_level at 1.
  destruct (apply_convs convs (n :: c :: dims)) as [r | err] eqn:Hconv;
    [| exists err; reflexivity].
  apply (apply_convs_out _ _ _ _ _ Hc _ _ Hlen) in Hconv. subst r.
  cbn [bind]. rewrite (getitem_nth _ _ Hk). cbn [bind].
  change (max_pool_forward ?a ?b) with (max_pool_shape a b).
  destruct (max_pool_shape {| pool_ndims := nd; pool_kernel := p |}
              (n :: e :: dims)) as [r | err] eqn:Hmp;
    [| exists err; reflexivity].
  apply (max_pool_inv _ _ _ _ _ _ Hlen) in Hmp.
  destruct Hmp as [Hp [Hge Hr]]. subst r.
  cbn [bind].
  assert (Hex' : Exists (fun d => d < p ^ List.length levels)
                   (map (fun d => d / p) dims)).
  { apply Exists_exists in Hex. destruct Hex as [d [Hin Hd]].
    apply Exists_exists. exists (d / p).
    split; [apply (in_map (fun d => d / p)); exact Hin |].
    apply Nat.Div0.div_lt_upper_bound.
    cbn [List.length] in Hd. rewrite Nat.pow_succ_r' in Hd. exact Hd. }
  destruct levels as [| lv levels'].
  - exfalso. apply Exists_exists in Hex'. destruct Hex' as [q [Hin Hq]].
    apply in_map_iff in Hin. destruct Hin as [d [Hdq Hin]].
    rewrite Forall_forall in Hge. specialize (Hge d Hin). simpl in Hq, Hge.
    assert (1 <= d / p) by (apply Nat.div_le_lower_bound; lia). lia.
  - apply (IH (S k) (map (fun d => d / p) dims) (h ++ [n :: e :: dims])).
    + discriminate.
    + intros j Hj. replace (S k + j) with (k + S j) by lia.
      apply Hpool. simpl in Hj |- *. lia.
    + rewrite length_map. exact Hlen.
    + exact Hex'.
Qed.

(** X6. Take a network of at least one level whose encoder blocks each
    have at least one output channel and whose levels all pool by the
    factor [p >= 1].  The encode pass on a non-empty batched input
    [(N, infeats, d1 .. dn)] returns exactly when every extent is at least
    [p ^ (nb_levels - 1)]: a smaller extent reaches zero at some pooling
    level, which raises. *)
Theorem encode_succeeds_iff :
  forall (inshape : list nat) (infeats : nat) (nb_features : option features)
         (nb_levels_arg : option nat) (max_pool : max_pool_arg)
         (p feat_mult nb_conv_per_level : nat)
         (half : bool) (self : Unet2) (n : nat) (dims : list nat),
    Unet2_init inshape infeats nb_features nb_levels_arg max_pool feat_mult
      nb_conv_per_level half = Ok self ->
    uniform_pool max_pool (nb_levels self - 1) p ->
    1 <= p ->
    2 <= nb_levels self ->
    1 <= n ->
    1 <= infeats ->
    Forall (fun w => 1 <= w) (level_widths (encoder self)) ->
    List.length dims = List.length inshape ->
    ((exists v, Unet2_forward self (n :: infeats :: dims) "encode" None = Ok v)
     <-> Forall (fun d => p ^ (nb_levels self - 1) <= d) dims).
Proof.
  intros inshape infeats nbf lv mp p fm ncpl half self n dims
    Hinit Hu Hp Hnb _ Hin Hw Hlen.
  split.
  - intros [v Hv].
    destruct (Forall_Exists_dec (fun d => p ^ (nb_levels self - 1) <= d)
                (fun d => le_dec (p ^ (nb_levels self - 1)) d) dims)
      as [Hall | Hex]; [exact Hall | exfalso].
    pose proof (Unet2_init_lengths _ _ _ _ _ _ _ _ Hinit) as [_ [_ [Hle _]]].
    pose proof (@Unet2_init_pool_uniform _ _ _ _ _ _ _ _ _ _ Hinit Hu) as Hpool.
    apply Unet2_init_spec in Hinit. destruct Hinit as [es [Hes [Hl _]]].
    destruct (encode_loop_small n (List.length inshape) p self infeats
                (encoder self) es Hl 0 dims [n :: infeats :: dims])
      as [e He].
    + intros E. rewrite E in Hle. simpl in Hle. lia.
    + intros j Hj. apply Hpool. simpl. lia.
    + exact Hlen.
    + rewrite Hle. eapply Exists_impl; [| exact Hex].
      intros d Hd. simpl in Hd. lia.
    + unfold Unet2_forward in Hv. simpl String.eqb in Hv. cbv iota in Hv.
      unfold Unet2_encode, enumerate in Hv.
      unfold tshape in He, Hv. rewrite He in Hv. discriminate.
  - intros Hge.
    destruct (@Unet2_encode_shape inshape infeats nbf lv mp p fm ncpl half self
                n dims Hinit Hu Hp Hin Hw Hlen Hge) as [c [hist [Henc _]]].
    eexists. unfold Unet2_forward. simpl String.eqb. cbv iota.
    unfold tshape in Henc |- *. rewrite Henc. reflexivity.
Qed.

Lemma encode_succeeds_iff_witness :
  exists u,
    unet_ref = Ok u
    /\ ((exists v, Unet2_forward u [1; 2; 40; 31] "encode" None = Ok v)
        <-> Forall (fun d => 2 ^ (nb_levels u - 1) <= d) [40; 31])
    /\ exists e, Unet2_forward u [1; 2; 40; 31] "encode" None = Err e.
Proof.
  eexists. split; [vm_compute; reflexivity |].
  split.
  - refine (encode_succeeds_iff [256; 256] 2
              (Some (FeatLists enc_nf_ref dec_nf_ref)) None (PoolInt 2) 2 1 1
              false _ 1 [40; 31] _ _ _ _ _ _ _ _).
    + vm_compute. reflexivity.
    + reflexivity.
    + lia.
    + simpl. lia.
    + lia.
    + lia.
    + repeat constructor.
    + reflexivity.
  - eexists. vm_compute. reflexivity.
Defined.

Lemma chain_head (nd a b : nat) (convs : list ConvBlock) :
  chain nd a convs b -> convs <> [] ->
  exists nf rest, convs = block nd a nf :: rest.
Proof.
  intros Hc Hne. destruct Hc as [c | c nf convs c' _]; [contradiction |].
  exists nf, convs. reflexivity.
Qed.

(** X7. With at least one level, the encode pass rejects every non-empty
    batched input [(N, c, d1 .. dn)] whose channel count [c] is not
    [infeats]. *)
Theorem encode_rejects_channels :
  forall (inshape : list nat) (infeats : nat) (nb_features : option features)
         (nb_levels_arg : option nat) (max_pool : max_pool_arg)
         (feat_mult nb_conv_per_level : nat) (half : bool) (self : Unet2)
         (n c : nat) (dims : list nat),
    Unet2_init inshape infeats nb_features nb_levels_arg max_pool feat_mult
      nb_conv_per_level half = Ok self ->
    2 <= nb_levels self ->
    1 <= n ->
    List.length dims = List.length inshape ->
    c <> infeats ->
    exists e, Unet2_forward self (n :: c :: dims) "encode" None = Err e.
Proof.
  intros inshape infeats nbf lv mp fm ncpl half self n c dims
    Hinit Hnb _ Hlen Hc.
  pose proof (Unet2_init_lengths _ _ _ _ _ _ _ _ Hinit) as [_ [_ [Hle _]]].
  pose proof (Unet2_init_spec _ _ _ _ _ _ _ _ Hinit) as [es [_ [Hl _]]].
  apply Unet2_init_parts in Hinit.
  destruct Hinit
    as [enc [dec [prev1 [nfs [prev2 [_ [_ [Hn [_ [Henc _]]]]]]]]]].
  unfold configure_encoder in Henc.
  apply configure_encoder_blocks in Henc; [| constructor].
  simpl in Henc. simpl in Hl.
  destruct (encoder self) as [| lv0 rest] eqn:Eenc; [simpl in Hle; lia |].
  inversion Hl as [| c0 cv0 e0 lv1 es0 Hch Hl0]; subst.
  apply Forall_inv in Henc. rename Henc into Hlen0.
  destruct (chain_head _ _ _ _ Hch) as [nf [convs Hlv0]].
  { intros E. rewrite E in Hlen0. simpl in Hlen0. lia. }
  subst lv0.
  unfold Unet2_forward. simpl String.eqb. cbv iota.
  unfold Unet2_encode, enumerate. rewrite Eenc.
  cbn [List.length seq combine for_each].
  unfold encode_level at 1. unfold apply_convs. cbn [for_each].
  destruct (ConvBlock_forward (block (List.length inshape) infeats nf)
              (n :: c :: dims)) as [r | err] eqn:Hb.
  - apply (conv_block_inv _ _ _ _ _ _ _ Hlen) in Hb.
    destruct Hb as [_ [Hbad _]]. contradiction.
  - exists err. reflexivity.
Qed.

Lemma encode_rejects_channels_witness :
  exists u,
    unet_ref = Ok u
    /\ exists e, Unet2_forward u [1; 1; 256; 256] "encode" None = Err e.
Proof.
  eexists. split; [vm_compute; reflexivity |].
  refine (encode_rejects_channels [256; 256] 2
            (Some (FeatLists enc_nf_ref dec_nf_ref)) None (PoolInt 2) 1 1
            false _ 1 1 [256; 256] _ _ _ _ _).
  - vm_compute. reflexivity.
  - simpl. lia.
  - lia.
  - reflexivity.
  - discriminate.
Defined.

(** ** Failures of the decode pass *)

Lemma same_shape_eq (a b : tshape) : same_shape a b = true -> a = b.
Proof.
  unfold same_shape. destruct (list_eq_dec Nat.eq_dec a b); [auto | discriminate].
Qed.

Lemma upsample_inv (p n c : nat) (dims : list nat) (r : tshape) :
  upsample_shape {| scale_factor := p |} (n :: c :: dims) = Ok r ->
  r = n :: c :: map (fun d => d * p) dims.
Proof.
  unfold upsample_shape. simpl scale_factor.
  destruct (negb (existsb (Nat.eqb (List.length dims)) [1; 2; 3]));
    [discriminate |].
  destruct (c =? 0); [discriminate |].
  destruct (existsb (fun d => d * p =? 0) dims); [discriminate |].
  intros Hr. injection Hr as Hr. auto.
Qed.

Lemma cat_channels_inv (n c : nat) (dims : list nat) (t r : tshape) :
  t <> [0] ->
  cat_shape [n :: c :: dims; t] 1 = Ok r ->
  exists c', t = n :: c' :: dims.
Proof.
  intros Ht. unfold cat_shape. cbn [filter]. rewrite not_legacy_empty.
  destruct (same_shape t [0]) eqn:E;
    [apply same_shape_eq in E; contradiction |].
  simpl.
  destruct t as [| n' [| c' dims']]; simpl; try discriminate.
  - destruct (n =? n'); discriminate.
  - destruct (Nat.eqb_spec n n') as [Hn | _]; [| discriminate].
    destruct (same_shape dims dims') eqn:Hs; [| discriminate].
    intros _. apply same_shape_eq in Hs. subst. exists c'. reflexivity.
Qed.

Lemma configure_decoder_head (nd : nat) (dec_nf skips : list nat)
    (ncpl nb_lvls : nat) (half : bool) (prev prev2 : nat)
    (dec : list (list ConvBlock)) :
  In nd [1; 2; 3] ->
  2 <= nb_lvls ->
  configure_decoder nd dec_nf skips ncpl nb_lvls half prev = Ok (prev2, dec) ->
  exists convs rest d, dec = convs :: rest /\ chain nd prev convs d.
Proof.
  intros Hnd Hnb Hr. unfold configure_decoder, range in Hr.
  destruct (nb_lvls - 1) as [| k] eqn:Ek; [lia |].
  cbn [seq for_each] in Hr. apply bind_ok in Hr.
  destruct Hr as [[p1 dec1] [Hstep Hrest]].
  apply bind_ok in Hstep. destruct Hstep as [[convs nf] [Hlv Hstep]].
  assert (Hdec1 : dec1 = [convs]).
  { destruct (takes_skip half nb_lvls 0).
    - apply bind_ok in Hstep. destruct Hstep as [sk [_ Hstep]].
      injection Hstep as _ Hd. symmetry. exact Hd.
    - injection Hstep as _ Hd. symmetry. exact Hd. }
  subst dec1.
  assert (Hgrow : forall (idx : list nat) st r,
             for_each idx
               (fun level '(prev_nf, dec) =>
                  '(convs, prev_nf) <-
                    level_convs nd dec_nf ncpl level prev_nf ;;
                  if takes_skip half nb_lvls level then
                    skip <- getitem skips level ;;
                    Ok (prev_nf + skip, dec ++ [convs])
                  else Ok (prev_nf, dec ++ [convs]))
               st = Ok r ->
             exists added, snd r = snd st ++ added).
  { induction idx as [| i idx IH]; intros [q dq] r Hq.
    - simpl in Hq. inversion Hq. exists []. simpl. rewrite app_nil_r.
      reflexivity.
    - cbn [for_each] in Hq. apply bind_ok in Hq.
      destruct Hq as [[q1 dq1] [Hs Hq]].
      apply IH in Hq. destruct Hq as [added Hadd]. simpl in Hadd.
      apply bind_ok in Hs. destruct Hs as [[cv nf1] [_ Hs]].
      assert (Hdq1 : dq1 = dq ++ [cv]).
      { destruct (takes_skip half nb_lvls i).
        - apply bind_ok in Hs. destruct Hs as [sk [_ Hs]].
          injection Hs as _ Hd. symmetry. exact Hd.
        - injection Hs as _ Hd. symmetry. exact Hd. }
      exists (cv :: added). simpl. rewrite Hadd, Hdq1, <- app_assoc.
      reflexivity. }
  apply Hgrow in Hrest. destruct Hrest as [added Hadd]. simpl in Hadd.
  exists convs, added, nf. split; [exact Hadd |].
  eapply level_convs_chain; [exact Hnd | exact Hlv].
Qed.

(** X8. A decode of a batched feature tensor [(N, c, d1 .. dn)] whose
    first level takes a skip connection rejects every history stack whose
    top entry is neither the one-dimensional empty tensor, which the
    concatenation skips, nor a tensor with the batch size of the features
    and [p] times their extents: the stack of an encode at another
    resolution is refused. *)
Theorem decode_rejects_mismatched_history :
  forall (inshape : list nat) (infeats : nat) (nb_features : option features)
         (nb_levels_arg : option nat) (p feat_mult nb_conv_per_level : nat)
         (half : bool) (self : Unet2) (n c : nat) (dims : list nat)
         (h : list tshape) (t : tshape),
    Unet2_init inshape infeats nb_features nb_levels_arg (PoolInt p) feat_mult
      nb_conv_per_level half = Ok self ->
    2 <= nb_levels self ->
    half = false \/ 3 <= nb_levels self ->
    List.length dims = List.length inshape ->
    t <> [0] ->
    (forall c', t <> n :: c' :: map (fun d => d * p) dims) ->
    exists e,
      Unet2_forward self (n :: c :: dims) "decode" (Some (h ++ [t])) = Err e.
Proof.
  intros inshape infeats nbf lv p fm ncpl half self n c dims h t
    Hinit Hnb Hskip Hlen Ht0 Ht.
  pose proof (Unet2_init_lengths _ _ _ _ _ _ _ _ Hinit) as [Hhalf _].
  pose proof (Unet2_init_pool_int _ _ _ _ _ _ _ _ Hinit) as Hpool.
  apply Unet2_init_parts in Hinit.
  destruct Hinit
    as [enc [dec [prev1 [nfs [prev2 [Hnd [_ [_ [_ [_ [Hdec _]]]]]]]]]]].
  destruct (configure_decoder_head _ _ _ _ _ _ _ _ _ Hnd Hnb Hdec)
    as [convs [rest [d [Hd Hch]]]].
  assert (Hts : takes_skip (half_res self) (nb_levels self) 0 = true).
  { unfold takes_skip. rewrite Hhalf. destruct Hskip as [-> | H3];
      [reflexivity |].
    apply Bool.orb_true_iff. right. apply Nat.ltb_lt. lia. }
  destruct (Hpool 0) as [_ Hup]; [lia |].
  unfold Unet2_forward. simpl String.eqb. cbv iota.
  unfold Unet2_decode, enumerate. rewrite Hd.
  cbn [List.length seq combine for_each].
  unfold decode_level at 1.
  destruct (apply_convs convs (n :: c :: dims)) as [r | err] eqn:Hconv;
    [| exists err; reflexivity].
  destruct (apply_convs_inv _ _ _ _ _ Hch _ _ _ Hlen Hconv) as [c1 Hr].
  subst r.
  cbn [bind]. rewrite Hts. rewrite (getitem_nth _ _ Hup). cbn [bind].
  change (upsample_forward ?a ?b) with (upsample_shape a b).
  destruct (upsample_shape {| scale_factor := p |} (n :: c1 :: dims))
    as [r | err] eqn:Hu; [| exists err; reflexivity].
  apply upsample_inv in Hu. subst r. cbn [bind].
  unfold tshape. rewrite pop_snoc. cbn [bind].
  change (cat ?a ?b) with (cat_shape a b).
  destruct (cat_shape _ 1) as [r | err] eqn:Hcat; [| exists err; reflexivity].
  apply (cat_channels_inv _ _ _ _ _ Ht0) in Hcat. destruct Hcat as [c' Hc'].
  exfalso. apply (Ht c'). exact Hc'.
Qed.

Lemma decode_rejects_mismatched_history_witness :
  exists u,
    unet_ref = Ok u
    /\ exists e,
        Unet2_forward u bottleneck_ref "decode"
          (Some (firstn 5 history_ref ++ [[1; 64; 32; 32]])) = Err e.
Proof.
  eexists. split; [vm_compute; reflexivity |].
  refine (decode_rejects_mismatched_history [256; 256] 2
            (Some (FeatLists enc_nf_ref dec_nf_ref)) None 2 1 1 false _
            1 64 [8; 8] (firstn 5 history_ref) [1; 64; 32; 32] _ _ _ _ _ _).
  - vm_compute. reflexivity.
  - simpl. lia.
  - left. reflexivity.
  - reflexivity.
  - discriminate.
  - intros c' E. discriminate E.
Defined.

(** ** [Bottleneck]: construction *)

Lemma Ok_inj {A : Type} (a b : A) : Ok a = Ok b -> a = b.
Proof. intros H. injection H as H. exact H. Qed.

Lemma hidden_units_zero (s0 s1 : nat) :
  64 * (s0 / 32) * (s1 / 32) = 0 <-> s0 < 32 \/ s1 < 32.
Proof.
  pose proof (Nat.div_small_iff s0 32) as H0.
  pose proof (Nat.div_small_iff s1 32) as H1.
  split.
  - intros H. destruct (Nat.eq_dec (s0 / 32) 0) as [E | E].
    + left. apply H0; [lia | exact E].
    + right. apply H1; [lia |]. nia.
  - intros [H | H].
    + apply H0 in H; [| lia]. rewrite H. reflexivity.
    + apply H1 in H; [| lia]. rewrite H. lia.
Qed.

(** [Bottleneck.__init__] on a size of two or three extents, up to the
    construction of the recurrent cell. *)
Lemma Bottleneck_init_run (s0 s1 : nat) (rest : list nat) :
  List.length rest <= 1 ->
  exists u,
    Unet2_init (s0 :: s1 :: rest) 2 (Some (FeatLists enc_nf_ref dec_nf_ref))
      None (PoolInt 2) 1 1 false = Ok u
    /\ nb_levels u = 6 /\ final_nf u = 2 /\ half_res u = false
    /\ Bottleneck_init (s0 :: s1 :: rest)
       = (l <- LSTM_init (64 * (s0 / 32) * (s1 / 32))
                 (64 * (s0 / 32) * (s1 / 32)) false ;;
          Ok {| image_size := s0 :: s1 :: rest;
                ndims := List.length (s0 :: s1 :: rest); unet := u;
                input_size := 64 * (s0 / 32) * (s1 / 32);
                hidden_size := 64 * (s0 / 32) * (s1 / 32);
                lstm := l;
                spatial_transformer := {| st_size := s0 :: s1 :: rest |} |}).
Proof.
  intros Hr. destruct rest as [| s2 [| s3 rest]]; [| | simpl in Hr; lia].
  - eexists. split; [reflexivity |]. repeat split; reflexivity.
  - eexists. split; [reflexivity |]. repeat split; reflexivity.
Qed.

(** X10. [Bottleneck] is built exactly for image sizes of two or three
    extents whose first two are at least 32.  A size of one extent passes
    the network's own check and then fails at [image_size[1]]; with a
    first or second extent below 32 the recurrent cell would have no
    units, which its constructor refuses.  The recurrent cell gets
    [64 * (s0 / 32) * (s1 / 32)] input and hidden features, from the first
    two extents only, and the warp is configured with the whole size. *)
Theorem Bottleneck_init_spec :
  forall size : list nat,
    ((exists b, Bottleneck_init size = Ok b)
     <-> (List.length size = 2 \/ List.length size = 3)
         /\ 32 <= nth 0 size 0 /\ 32 <= nth 1 size 0)
    /\ (List.length size = 1 ->
        Bottleneck_init size = Err (IndexError "list index out of range"))
    /\ (List.length size = 2 \/ List.length size = 3 ->
        nth 0 size 0 < 32 \/ nth 1 size 0 < 32 ->
        exists e, Bottleneck_init size = Err e)
    /\ (forall b,
           Bottleneck_init size = Ok b ->
           input_size b = 64 * (nth 0 size 0 / 32) * (nth 1 size 0 / 32)
           /\ 1 <= input_size b
           /\ hidden_size b = input_size b
           /\ lstm b = {| lstm_input_size := input_size b;
                          lstm_hidden_size := input_size b;
                          batch_first := false |}
           /\ spatial_transformer b = {| st_size := size |}
           /\ nb_levels (unet b) = 6
           /\ final_nf (unet b) = 2
           /\ half_res (unet b) = false).
Proof.
  intros size.
  destruct size as [| s0 [| s1 rest]].
  - split; [| split; [| split]].
    + split; [intros [b Hb]; discriminate Hb | simpl; lia].
    + simpl. lia.
    + simpl. lia.
    + intros b Hb. discriminate Hb.
  - split; [| split; [| split]].
    + split; [intros [b Hb]; discriminate Hb | simpl; lia].
    + intros _. reflexivity.
    + simpl. lia.
    + intros b Hb. discriminate Hb.
  - destruct (le_dec (List.length rest) 1) as [Hr | Hr].
    + destruct (Bottleneck_init_run s0 s1 rest Hr)
        as [u [Hu [Hnb [Hfin [Hhalf Hrun]]]]].
      rewrite Hrun. unfold LSTM_init. cbn [nth].
      pose proof (hidden_units_zero s0 s1) as Hz.
      destruct (Nat.eqb_spec (64 * (s0 / 32) * (s1 / 32)) 0) as [E | E];
        cbn [bind].
      * apply Hz in E.
        split; [| split; [| split]].
        -- split; [intros [b Hb]; discriminate Hb | intros [_ [H0 H1]]; lia].
        -- simpl. lia.
        -- intros _ _. eexists. reflexivity.
        -- intros b Hb. discriminate Hb.
      * assert (Hge : 32 <= s0 /\ 32 <= s1).
        { split.
          - destruct (le_dec 32 s0) as [H | H]; [exact H |].
            exfalso. apply E, Hz. left. lia.
          - destruct (le_dec 32 s1) as [H | H]; [exact H |].
            exfalso. apply E, Hz. right. lia. }
        split; [| split; [| split]].
        -- split; [| intros _; eexists; reflexivity].
           intros _. split; [simpl in Hr |- *; lia | exact Hge].
        -- simpl. lia.
        -- intros _ Hlt. lia.
        -- intros b Hb. apply Ok_inj in Hb. subst b.
           cbn [input_size hidden_size lstm spatial_transformer unet].
           split; [reflexivity |]. split; [lia |].
           repeat split; try assumption; reflexivity.
    + assert (Hbad : Bottleneck_init (s0 :: s1 :: rest)
                     = Err (AssertionError
                              (String.append
                                 "ndims should be one of 1, 2, or 3. found: "
                                 (percent_d (List.length (s0 :: s1 :: rest)))))).
      { destruct rest as [| s2 [| s3 rest]];
          [simpl in Hr; lia | simpl in Hr; lia |]. reflexivity. }
      split; [| split; [| split]].
      * split; [intros [b Hb]; rewrite Hbad in Hb; discriminate Hb |].
        simpl. lia.
      * simpl. lia.
      * simpl. lia.
      * intros b Hb. rewrite Hbad in Hb. discriminate Hb.
Qed.

Lemma Bottleneck_init_spec_witness :
  exists e, Bottleneck_init [16; 16] = Err e.
Proof.
  destruct (Bottleneck_init_spec [16; 16]) as [_ [_ [Hsmall _]]].
  apply Hsmall.
  - left. reflexivity.
  - left. simpl. lia.
Defined.

(** ** The reference network on frames of any size *)

Ltac chain_step :=
  match goal with
  | |- chain ?nd ?c [] ?e => apply chain_nil
  | |- chain ?nd ?c
         (Build_ConvBlock (Build_ConvNd _ _ ?nf _ _ _) _ :: ?rest) ?e =>
      change (chain nd c (block nd c nf :: rest) e); apply chain_cons
  end.

Lemma unet_ref_spec (u : Unet2) :
  unet_ref = Ok u ->
  half_res u = false /\ nb_levels u = 6 /\ final_nf u = 2
  /\ List.length (encoder u) = 5 /\ List.length (decoder u) = 5
  /\ enc_levels 2 2 (encoder u) enc_nf_ref
  /\ dec_levels 2 (rev (2 :: enc_nf_ref)) 0 64 (decoder u) 48
  /\ chain 2 48 (remaining u) 2
  /\ (forall j, j < 6 ->
        nth_error (pooling u) j = Some {| pool_ndims := 2; pool_kernel := 2 |}
        /\ nth_error (upsampling u) j = Some {| scale_factor := 2 |}).
Proof.
  intros Hu.
  assert (Hpool : forall j, j < nb_levels u ->
            nth_error (pooling u) j
            = Some {| pool_ndims := 2; pool_kernel := 2 |}
            /\ nth_error (upsampling u) j = Some {| scale_factor := 2 |})
    by (apply (Unet2_init_pool_int _ _ _ _ _ _ _ _ Hu)).
  vm_compute in Hu. injection Hu as Hu. subst u.
  split; [reflexivity |]. split; [reflexivity |]. split; [reflexivity |].
  split; [reflexivity |]. split; [reflexivity |].
  split; [| split; [| split]].
  - cbn [encoder]. unfold enc_nf_ref.
    repeat (apply enc_levels_cons || apply enc_levels_nil || chain_step).
  - cbn [decoder].
    repeat (eapply dec_levels_cons || apply dec_levels_nil || chain_step
            || reflexivity).
  - cbn [remaining]. repeat chain_step.
  - exact Hpool.
Qed.

(** Every convolution of the reference network has output channels. *)
Lemma unet_ref_widths (u : Unet2) :
  unet_ref = Ok u ->
  Forall (fun w => 1 <= w) (level_widths (encoder u))
  /\ Forall (fun w => 1 <= w) (level_widths (decoder u))
  /\ Forall (fun cb => 1 <= out_channels (main cb)) (remaining u).
Proof.
  intros Hu. vm_compute in Hu. injection Hu as Hu. subst u.
  split; [| split]; repeat constructor.
Qed.

(** The encode pass of the reference network on a pair of any size of
    at least 32 x 32. *)
Lemma unet_ref_encode (u : Unet2) (n Wd Ht : nat) :
  unet_ref = Ok u ->
  32 <= Wd -> 32 <= Ht ->
  Unet2_encode u [n; 2; Wd; Ht]
  = Ok ([n; 64; Wd / 32; Ht / 32],
        [n; 2; Wd; Ht] :: hist_of n 2 [Wd; Ht] enc_nf_ref).
Proof.
  intros Hu HW HH.
  destruct (unet_ref_spec u Hu)
    as [_ [_ [_ [Hle [_ [Hl [_ [_ Hpool]]]]]]]].
  destruct (unet_ref_widths u Hu) as [Hwe _].
  unfold Unet2_encode, enumerate.
  pose proof (@encode_loop_shape n 2 2 u 2 (encoder u) enc_nf_ref
                (le_S _ _ (le_n 1)) Hl (le_S _ _ (le_n 1)) Hwe
                0 [Wd; Ht] [[n; 2; Wd; Ht]]) as Hloop.
  rewrite Hle in Hloop. unfold tshape in Hloop |- *. rewrite Hle.
  apply Hloop.
  - intros j Hj. apply Hpool. simpl. lia.
  - reflexivity.
  - repeat constructor; simpl; lia.
Qed.

(** The decode pass of the reference network on what encode produced,
    for extents that are positive multiples of 32. *)
Lemma unet_ref_decode (u : Unet2) (n Wd Ht : nat) :
  unet_ref = Ok u ->
  1 <= Wd -> 1 <= Ht -> Nat.divide 32 Wd -> Nat.divide 32 Ht ->
  Unet2_decode u [n; 64; Wd / 32; Ht / 32]
    (Some ([n; 2; Wd; Ht] :: hist_of n 2 [Wd; Ht] enc_nf_ref))
  = Ok ([n; 2; Wd; Ht], [[n; 2; Wd; Ht]]).
Proof.
  intros Hu HW HH HdW HdH.
  destruct (unet_ref_spec u Hu)
    as [Hhalf [_ [_ [_ [Hld [_ [Hd [Hrem Hpool]]]]]]]].
  destruct (unet_ref_widths u Hu) as [_ [Hwd Hwr]].
  assert (HD : Forall (fun d => 1 <= d /\ Nat.divide (2 ^ List.length enc_nf_ref) d)
                 [Wd; Ht]) by (repeat constructor; assumption).
  assert (Hsum : 0 + List.length (decoder u) = List.length enc_nf_ref)
    by (rewrite Hld; reflexivity).
  assert (Hup : forall j, j < List.length (decoder u) ->
                  nth_error (upsampling u) (0 + j)
                  = Some {| scale_factor := 2 |})
    by (intros j Hj; apply Hpool; simpl; rewrite Hld in Hj; lia).
  assert (H64 : 1 <= 64) by lia.
  destruct (@decode_loop_shape n 2 2 2 u enc_nf_ref [Wd; Ht]
              (or_intror (or_introl eq_refl)) (le_S _ _ (le_n 1)) Hhalf
              eq_refl HD 0 64 (decoder u) 48 Hd H64 Hwd Hsum Hup
              [[n; 2; Wd; Ht]])
    as [Hloop _].
  rewrite Hld in Hloop.
  assert (Hloop' :
            for_each (combine (seq 0 5) (decoder u)) (decode_level u)
              ([n; 64; Wd / 32; Ht / 32],
               [n; 2; Wd; Ht] :: hist_of n 2 [Wd; Ht] enc_nf_ref)
            = Ok ([n; 48; Wd; Ht], [[n; 2; Wd; Ht]])) by exact Hloop.
  unfold Unet2_decode, enumerate. rewrite Hld.
  unfold tshape in Hloop' |- *. rewrite Hloop'. cbn [bind].
  rewrite (@apply_convs_shape n 2 48 2 (remaining u) [Wd; Ht] Hrem Hwr eq_refl).
  - reflexivity.
  - repeat constructor; assumption.
Qed.

(** ** The whole forward pass on shapes *)

Lemma Bottleneck_init_2d (s0 s1 : nat) (b : Bottleneck) :
  Bottleneck_init [s0; s1] = Ok b ->
  unet_ref = Ok (unet b)
  /\ hidden_size b = 64 * (s0 / 32) * (s1 / 32)
  /\ lstm b = {| lstm_input_size := 64 * (s0 / 32) * (s1 / 32);
                 lstm_hidden_size := 64 * (s0 / 32) * (s1 / 32);
                 batch_first := false |}
  /\ spatial_transformer b = {| st_size := [s0; s1] |}.
Proof.
  intros Hinit.
  destruct (Bottleneck_init_run s0 s1 [] (Nat.le_0_l 1))
    as [u [Hu [_ [_ [_ Hrun]]]]].
  rewrite Hrun in Hinit. unfold LSTM_init in Hinit.
  destruct (64 * (s0 / 32) * (s1 / 32) =? 0); [discriminate |].
  cbn [bind] in Hinit. apply Ok_inj in Hinit. subst b.
  cbn [unet hidden_size lstm spatial_transformer].
  split; [exact Hu |]. repeat split; reflexivity.
Qed.

Lemma stack_pairs_ref (b : Bottleneck) (fr n Wd Ht : nat) :
  unet_ref = Ok (unet b) ->
  2 <= fr -> 32 <= Wd -> 32 <= Ht ->
  stack_pairs b [fr; n; 1; Wd; Ht]
  = Ok (repeat [n; 1; Wd; Ht] fr,
        repeat ([n; 2; Wd; Ht] :: hist_of n 2 [Wd; Ht] enc_nf_ref) (fr - 1),
        [fr - 1; n; 64; Wd / 32; Ht / 32]).
Proof.
  intros Hu Hfr HW HH.
  pose proof (unet_ref_encode (unet b) n Wd Ht Hu HW HH) as Henc.
  unfold stack_pairs. simpl unbind. cbn [unbind_shape bind].
  unfold encode_pairs.
  destruct fr as [| k]; [lia |].
  rewrite pairs_repeat.
  rewrite (@encode_pairs_repeat b [n; 1; Wd; Ht] [n; 2; Wd; Ht]
             [n; 64; Wd / 32; Ht / 32]
             ([n; 2; Wd; Ht] :: hist_of n 2 [Wd; Ht] enc_nf_ref)).
  - cbn [bind app]. destruct k as [| k]; [lia |].
    change (cat ?a ?b) with (cat_shape a b). rewrite cat_repeat.
    cbn [bind]. simpl Nat.sub. reflexivity.
  - apply cat_channels.
  - unfold Unet2_forward. simpl String.eqb. cbv iota.
    unfold tshape in Henc |- *. rewrite Henc. reflexivity.
Qed.

Lemma of_nat_not_minus_one (x : nat) :
  (Z.of_nat x =? -1)%Z = false /\ (Z.of_nat x <? -1)%Z = false.
Proof.
  split; [apply Z.eqb_neq | apply Z.ltb_ge]; lia.
Qed.

(** [t.view(T, bs, -1)] on five axes. *)
Lemma view_flatten (t n c w h : nat) :
  t * n <> 0 ->
  view_shape [t; n; c; w; h] [Z.of_nat t; Z.of_nat n; (-1)%Z]
  = Ok [t; n; c * w * h].
Proof.
  intros Htn.
  destruct (of_nat_not_minus_one t) as [Ht1 Ht2].
  destruct (of_nat_not_minus_one n) as [Hn1 Hn2].
  assert (Hf : filter (fun d => negb (d =? -1)%Z)
                 [Z.of_nat t; Z.of_nat n; (-1)%Z]
               = [Z.of_nat t; Z.of_nat n])
    by (simpl; rewrite Ht1, Hn1; reflexivity).
  assert (He : existsb (fun d => (d <? -1)%Z)
                 [Z.of_nat t; Z.of_nat n; (-1)%Z] = false)
    by (simpl; rewrite Ht2, Hn2; reflexivity).
  assert (Hk : numel (map Z.to_nat [Z.of_nat t; Z.of_nat n]) = t * n)
    by (unfold numel; simpl; rewrite !Nat2Z.id; lia).
  assert (Hs : numel [t; n; c; w; h] = c * w * h * (t * n))
    by (unfold numel; simpl fold_right; ring).
  unfold view_shape. rewrite Hf, He, Hk, Hs.
  cbn [List.length Nat.sub].
  destruct (Nat.eqb_spec (t * n) 0) as [E | _]; [contradiction |].
  rewrite Nat.Div0.mod_mul, Nat.eqb_refl, Nat.div_mul by exact Htn.
  cbn [map]. rewrite Ht1, Hn1, !Nat2Z.id. reflexivity.
Qed.

(** [t.view(T, bs, C, W, H)] on three axes. *)
Lemma view_unflatten (t n c w h : nat) :
  view_shape [t; n; c * w * h]
    [Z.of_nat t; Z.of_nat n; Z.of_nat c; Z.of_nat w; Z.of_nat h]
  = Ok [t; n; c; w; h].
Proof.
  destruct (of_nat_not_minus_one t) as [Ht1 Ht2].
  destruct (of_nat_not_minus_one n) as [Hn1 Hn2].
  destruct (of_nat_not_minus_one c) as [Hc1 Hc2].
  destruct (of_nat_not_minus_one w) as [Hw1 Hw2].
  destruct (of_nat_not_minus_one h) as [Hh1 Hh2].
  assert (Hf : filter (fun d => negb (d =? -1)%Z)
                 [Z.of_nat t; Z.of_nat n; Z.of_nat c; Z.of_nat w; Z.of_nat h]
               = [Z.of_nat t; Z.of_nat n; Z.of_nat c; Z.of_nat w; Z.of_nat h])
    by (simpl; rewrite Ht1, Hn1, Hc1, Hw1, Hh1; reflexivity).
  assert (He : existsb (fun d => (d <? -1)%Z)
                 [Z.of_nat t; Z.of_nat n; Z.of_nat c; Z.of_nat w; Z.of_nat h]
               = false)
    by (simpl; rewrite Ht2, Hn2, Hc2, Hw2, Hh2; reflexivity).
  assert (Hm : map Z.to_nat
                 [Z.of_nat t; Z.of_nat n; Z.of_nat c; Z.of_nat w; Z.of_nat h]
               = [t; n; c; w; h])
    by (simpl; rewrite !Nat2Z.id; reflexivity).
  assert (Hk : numel [t; n; c; w; h] = numel [t; n; c * w * h])
    by (unfold numel; simpl fold_right; ring).
  unfold view_shape. rewrite Hf, He, Hm, Hk, Nat.sub_diag, Nat.eqb_refl.
  reflexivity.
Qed.

Lemma comprehension_const {X Y : Type} (f : X -> result Y) (y : Y) :
  forall xs : list X,
    (forall x, In x xs -> f x = Ok y) ->
    comprehension f xs = Ok (repeat y (List.length xs)).
Proof.
  induction xs as [| x xs IH]; intros Hf; [reflexivity |].
  cbn [comprehension]. rewrite (Hf x (or_introl eq_refl)). cbn [bind].
  rewrite IH by (intros z Hz; apply Hf; right; exact Hz).
  reflexivity.
Qed.

Lemma but_last_repeat {X : Type} (x : X) (k : nat) :
  but_last (repeat x (S k)) = repeat x k.
Proof.
  unfold but_last. induction k as [| k IH]; [reflexivity |].
  change (repeat x (S (S k))) with (x :: repeat x (S k)).
  change (removelast (x :: repeat x (S k)))
    with (x :: removelast (repeat x (S k))).
  rewrite IH. reflexivity.
Qed.

Lemma combine_repeat {X Y : Type} (x : X) (y : Y) (k : nat) :
  combine (repeat x k) (repeat y k) = repeat (x, y) k.
Proof.
  induction k as [| k IH]; [reflexivity |]. simpl. rewrite IH. reflexivity.
Qed.

Lemma getitem_repeat {X : Type} (x : X) (k i : nat) :
  i < k -> getitem (repeat x k) i = Ok x.
Proof.
  intros Hi. apply getitem_nth. apply nth_error_repeat. exact Hi.
Qed.

(** The warp of every frame but the last with the flow of its pair. *)
Lemma warp_all_repeat (b : Bottleneck) (n c k Wd Ht : nat) :
  spatial_transformer b = {| st_size := [Wd; Ht] |} ->
  warp_all b (repeat [n; c; Wd; Ht] (S (S k))) (repeat [n; 2; Wd; Ht] (S k))
  = Ok [S k; n; c; Wd; Ht].
Proof.
  intros Hst. unfold warp_all. rewrite but_last_repeat, combine_repeat.
  rewrite (comprehension_const _ [1; n; c; Wd; Ht]).
  - cbn [bind]. rewrite repeat_length.
    change (cat ?a ?b) with (cat_shape a b). apply cat_repeat.
  - intros [src flow] Hin. apply repeat_spec in Hin.
    injection Hin as Hs Hf. subst src flow. rewrite Hst.
    change (spatial_transformer_forward ?a ?b ?c) with (warp_shape a b c).
    unfold warp_shape. cbn [st_size List.length].
    rewrite !Nat.eqb_refl, !same_shape_refl. reflexivity.
Qed.

(** Lines 46-62 on shapes, for a model built on the size of the frames. *)
Lemma decode_stage_shape (b : Bottleneck) (k n Wd Ht : nat)
    (Xh : list (list tshape)) :
  unet_ref = Ok (unet b) ->
  lstm b = {| lstm_input_size := 64 * (Wd / 32) * (Ht / 32);
              lstm_hidden_size := 64 * (Wd / 32) * (Ht / 32);
              batch_first := false |} ->
  spatial_transformer b = {| st_size := [Wd; Ht] |} ->
  1 <= n -> 1 <= Wd -> 1 <= Ht -> Nat.divide 32 Wd -> Nat.divide 32 Ht ->
  Xh = repeat ([n; 2; Wd; Ht] :: hist_of n 2 [Wd; Ht] enc_nf_ref) (S k) ->
  let e := {| frames := repeat [n; 1; Wd; Ht] (S (S k));
              X_history := Xh;
              encoder_out := [S k; n; 64; Wd / 32; Ht / 32];
              T := S k; bs := n; C := 64; W := Wd / 32; H := Ht / 32 |} in
  let s := [1; n; 64 * (Wd / 32) * (Ht / 32)] in
  decode_stage b e None s s
  = Ok [[S k; n; 1; Wd; Ht]; [S k; n; 2; Wd; Ht]]
  /\ decode_stage b e (Some [S (S k); n; 1; Wd; Ht]) s s
     = Ok [[S k; n; 1; Wd; Ht]; [S k; n; 1; Wd; Ht]; [S k; n; 2; Wd; Ht]].
Proof.
  intros Hu Hlstm Hst Hn HW HH HdW HdH HXh e s.
  pose proof (unet_ref_decode (unet b) n Wd Ht Hu HW HH HdW HdH) as Hdec.
  assert (Hprefix :
    forall labels,
      decode_stage b e labels s s
      = match labels with
        | Some lbls =>
            lbl_frames <- unbind lbls ;;
            moved_labels <- warp_all b lbl_frames
                              (repeat [n; 2; Wd; Ht] (S k)) ;;
            Ok [[S k; n; 1; Wd; Ht]; moved_labels; [S k; n; 2; Wd; Ht]]
        | None => Ok [[S k; n; 1; Wd; Ht]; [S k; n; 2; Wd; Ht]]
        end).
  { intros labels. unfold decode_stage. cbn [encoder_out T bs C W H frames e].
    change (view ?a ?b) with (view_shape a b).
    rewrite view_flatten by lia. cbn [bind].
    rewrite Hlstm.
    change (lstm_forward ?a ?b ?c) with (lstm_shape a b c).
    unfold lstm_shape. cbn [batch_first lstm_input_size lstm_hidden_size fst snd].
    rewrite Nat.eqb_refl. cbn [negb]. cbn [Nat.eqb].
    unfold s. rewrite same_shape_refl. cbn [negb bind].
    rewrite view_unflatten. cbn [bind].
    change (unbind ?a) with (unbind_shape a). cbn [unbind_shape bind].
    rewrite (comprehension_const _ [1; n; 2; Wd; Ht]).
    - cbn [bind]. unfold range. rewrite length_seq.
      change (cat ?a ?b) with (cat_shape a b). rewrite cat_repeat.
      cbn [bind unbind_shape].
      rewrite (warp_all_repeat b n 1 k Wd Ht Hst). cbn [bind].
      destruct labels; reflexivity.
    - intros i Hi. unfold range in Hi. apply in_seq in Hi.
      rewrite getitem_repeat by lia. cbn [bind X_history e].
      rewrite HXh, getitem_repeat by lia. cbn [bind].
      unfold Unet2_forward. simpl String.eqb. cbv iota.
      unfold tshape in Hdec |- *. rewrite Hdec. reflexivity. }
  split.
  - apply (Hprefix None).
  - rewrite (Hprefix (Some [S (S k); n; 1; Wd; Ht])).
    change (unbind ?a) with (unbind_shape a). cbn [unbind_shape bind].
    rewrite (warp_all_repeat b n 1 k Wd Ht Hst). reflexivity.
Qed.

(** X11. For a model built on an image size [W x H] whose extents are positive
    multiples of 32, the forward pass on 40 frames [(1, 1, W, H)] returns
    39 warped images and 39 flow fields of two channels at full
    resolution, and also 39 warped labels when labels of the same shape
    are supplied; two random draws are consumed.  The warp contributes
    its contract only: the warped output has the shape of the source. *)
Theorem forward_output_shapes :
  forall (Wd Ht : nat) (b : Bottleneck) (g : nat),
    Bottleneck_init [Wd; Ht] = Ok b ->
    1 <= Wd -> 1 <= Ht -> Nat.divide 32 Wd -> Nat.divide 32 Ht ->
    Bottleneck_forward b [40; 1; 1; Wd; Ht] None g
    = (Ok [[39; 1; 1; Wd; Ht]; [39; 1; 2; Wd; Ht]], S (S g))
    /\ Bottleneck_forward b [40; 1; 1; Wd; Ht] (Some [40; 1; 1; Wd; Ht]) g
       = (Ok [[39; 1; 1; Wd; Ht]; [39; 1; 1; Wd; Ht]; [39; 1; 2; Wd; Ht]],
          S (S g)).
Proof.
  intros Wd Ht b g Hinit HW HH HdW HdH.
  destruct (Bottleneck_init_2d Wd Ht b Hinit) as [Hu [Hhid [Hlstm Hst]]].
  assert (HW32 : 32 <= Wd) by (apply divide_pos_bound; assumption).
  assert (HH32 : 32 <= Ht) by (apply divide_pos_bound; assumption).
  pose proof (stack_pairs_ref b 40 1 Wd Ht Hu (le_n_S _ _ (le_n_S _ _ (Nat.le_0_l _)))
                HW32 HH32) as Hstack.
  simpl Nat.sub in Hstack.
  destruct (decode_stage_shape b 38 1 Wd Ht _ Hu Hlstm Hst (le_n 1) HW HH HdW
              HdH eq_refl) as [Hnone Hsome].
  cbv zeta in Hnone, Hsome.
  unfold Bottleneck_forward, encode_stage.
  unfold tshape in Hstack |- *. rewrite Hstack. cbn [bind].
  unfold check_entry. cbn [shape ShapeTorch py_assert Nat.eqb bind bs].
  cbn [randn ShapeTorch randn_shape]. rewrite Hhid.
  split; (f_equal; [exact Hnone || exact Hsome]).
Qed.

Lemma forward_output_shapes_witness :
  exists b,
    Bottleneck_init [64; 96] = Ok b
    /\ Bottleneck_forward b [40; 1; 1; 64; 96] None 0
       = (Ok [[39; 1; 1; 64; 96]; [39; 1; 2; 64; 96]], 2).
Proof.
  eexists. split; [reflexivity |].
  refine (proj1 (forward_output_shapes 64 96 _ 0 eq_refl _ _ _ _)).
  - lia.
  - lia.
  - exists 2. reflexivity.
  - exists 3. reflexivity.
Defined.

(** X12. Frames whose bottleneck has another number of features than that of
    the image size the model was built on are rejected by the recurrent
    cell, after both random draws. *)
Theorem forward_rejects_other_size :
  forall (s0 s1 Wd Ht : nat) (b : Bottleneck) (labels : option tshape)
         (g : nat),
    Bottleneck_init [s0; s1] = Ok b ->
    32 <= Wd -> 32 <= Ht ->
    (Wd / 32) * (Ht / 32) <> (s0 / 32) * (s1 / 32) ->
    Bottleneck_forward b [40; 1; 1; Wd; Ht] labels g
    = (Err (RuntimeError "lstm: input.size(-1) must be equal to input_size"),
       S (S g)).
Proof.
  intros s0 s1 Wd Ht b labels g Hinit HW HH Hne.
  destruct (Bottleneck_init_2d s0 s1 b Hinit) as [Hu [Hhid [Hlstm Hst]]].
  pose proof (stack_pairs_ref b 40 1 Wd Ht Hu
                (le_n_S _ _ (le_n_S _ _ (Nat.le_0_l _))) HW HH) as Hstack.
  simpl Nat.sub in Hstack.
  unfold Bottleneck_forward, encode_stage.
  unfold tshape in Hstack |- *. rewrite Hstack. cbn [bind].
  unfold check_entry. cbn [shape ShapeTorch py_assert Nat.eqb bind bs].
  cbn [randn ShapeTorch randn_shape]. f_equal.
  unfold decode_stage. cbn [encoder_out T bs C W H].
  change (view ?a ?b) with (view_shape a b).
  rewrite (view_flatten 39 1 64 (Wd / 32) (Ht / 32)) by discriminate.
  cbn [bind]. rewrite Hlstm.
  change (lstm_forward ?a ?b ?c) with (lstm_shape a b c).
  unfold lstm_shape. cbn [batch_first lstm_input_size].
  destruct (Nat.eqb_spec (64 * (Wd / 32) * (Ht / 32))
              (64 * (s0 / 32) * (s1 / 32))) as [E | _]; [| reflexivity].
  exfalso. apply Hne. nia.
Qed.

Lemma forward_rejects_other_size_witness :
  exists b,
    Bottleneck_init [256; 256] = Ok b
    /\ Bottleneck_forward b [40; 1; 1; 128; 128] None 0
       = (Err (RuntimeError "lstm: input.size(-1) must be equal to input_size"),
          2).
Proof.
  eexists. split; [reflexivity |].
  refine (forward_rejects_other_size 256 256 128 128 _ None 0 eq_refl _ _ _).
  - lia.
  - lia.
  - vm_compute. discriminate.
Defined.

(** ** A model built on three extents *)

Lemma for_each_app {X S : Type} (xs ys : list X) (body : X -> S -> result S)
    (s : S) :
  for_each (xs ++ ys) body s = (s' <- for_each xs body s ;; for_each ys body s').
Proof.
  revert s. induction xs as [| x xs IH]; intros s; simpl; [reflexivity |].
  destruct (body x s); simpl; auto.
Qed.

(** What a convolution returns is batched, or unbatched with its own
    width as the first axis. *)
Lemma conv_shape_rank (c : ConvNd) (x r : tshape) :
  conv_shape c x = Ok r ->
  List.length r = conv_ndims c + 2
  \/ (List.length r = conv_ndims c + 1 /\ hd 0 r = out_channels c).
Proof.
  assert (Hf : forall ch dims f,
             conv_features c ch dims = Ok f ->
             List.length f = S (List.length dims) /\ hd 0 f = out_channels c).
  { intros ch dims f. unfold conv_features.
    destruct (out_channels c =? 0); [discriminate |].
    destruct (negb (ch =? in_channels c)); [discriminate |].
    destruct (stride c =? 0); [discriminate |].
    destruct (existsb _ dims); [discriminate |].
    intros Hr. injection Hr as Hr. subst f. simpl.
    rewrite length_map. split; reflexivity. }
  unfold conv_shape. destruct x as [| a [| b dims]]; try discriminate.
  destruct (Nat.eqb_spec (List.length dims) (conv_ndims c)) as [Hlen | _].
  - intros Hr. apply bind_ok in Hr. destruct Hr as [f [Hfe Hr]].
    injection Hr as Hr. subst r. apply Hf in Hfe. destruct Hfe as [Hl _].
    left. simpl. rewrite Hl, Hlen. lia.
  - destruct (Nat.eqb_spec (List.length (b :: dims)) (conv_ndims c))
      as [Hlen | _]; [| discriminate].
    intros Hr. apply Hf in Hr. destruct Hr as [Hl Hh].
    right. split; [rewrite Hl, Hlen; lia | exact Hh].
Qed.

(** Pooling keeps the rank and the first axis. *)
Lemma max_pool_keeps (pl : MaxPool) (x r : tshape) :
  max_pool_shape pl x = Ok r ->
  List.length r = List.length x /\ hd 0 r = hd 0 x.
Proof.
  assert (Hf : forall ch dims f,
             pool_features pl ch dims = Ok f ->
             List.length f = S (List.length dims) /\ hd 0 f = ch).
  { intros ch dims f. unfold pool_features.
    destruct (pool_kernel pl =? 0); [discriminate |].
    destruct (ch =? 0); [discriminate |].
    destruct (existsb _ dims); [discriminate |].
    intros Hr. injection Hr as Hr. subst f. simpl.
    rewrite length_map. split; reflexivity. }
  unfold max_pool_shape. destruct x as [| a [| b dims]]; try discriminate.
  destruct (List.length dims =? pool_ndims pl).
  - intros Hr. apply bind_ok in Hr. destruct Hr as [f [Hfe Hr]].
    injection Hr as Hr. subst r. apply Hf in Hfe. destruct Hfe as [Hl _].
    simpl. rewrite Hl. split; reflexivity.
  - destruct (List.length (b :: dims) =? pool_ndims pl); [| discriminate].
    intros Hr. apply Hf in Hr. destruct Hr as [Hl Hh].
    split; [rewrite Hl; reflexivity | exact Hh].
Qed.

(** What an encoder returns has come out of the last block of its last
    level and of a pooling: it is batched, or unbatched with the width of
    that block as its first axis. *)
Lemma encode_loop_rank (self : Unet2) (nd w : nat) :
  forall (levels : list (list ConvBlock)) (k : nat) (x : tshape)
         (h : list tshape) r,
    (exists cs cb, last levels [] = cs ++ [cb]
                   /\ conv_ndims (main cb) = nd
                   /\ out_channels (main cb) = w) ->
    for_each (combine (seq k (List.length levels)) levels) (encode_level self)
      (x, h) = Ok r ->
    List.length (fst r) = nd + 2
    \/ (List.length (fst r) = nd + 1 /\ hd 0 (fst r) = w).
Proof.
  induction levels as [| convs levels IH]; intros k x h r Hlast Hr.
  - destruct Hlast as [cs [cb [Hl _]]]. simpl in Hl.
    destruct cs; discriminate Hl.
  - cbn [List.length seq combine for_each] in Hr.
    apply bind_ok in Hr. destruct Hr as [[x1 h1] [Hstep Hrest]].
    destruct levels as [| lv levels'].
    + simpl in Hrest. injection Hrest as Hr. subst r. cbn [fst].
      destruct Hlast as [cs [cb [Hl [Hnd Hw]]]]. simpl in Hl. subst convs.
      unfold encode_level in Hstep.
      apply bind_ok in Hstep. destruct Hstep as [x2 [Hconv Hstep]].
      apply bind_ok in Hstep. destruct Hstep as [pl [_ Hstep]].
      apply bind_ok in Hstep. destruct Hstep as [x3 [Hmp Hstep]].
      injection Hstep as Hx _. subst x3.
      unfold apply_convs in Hconv. rewrite for_each_app in Hconv.
      apply bind_ok in Hconv. destruct Hconv as [x0 [_ Hconv]].
      cbn [for_each] in Hconv.
      apply bind_ok in Hconv. destruct Hconv as [x4 [Hcb Hconv]].
      injection Hconv as Hx. subst x4.
      unfold ConvBlock_forward in Hcb.
      apply bind_ok in Hcb. destruct Hcb as [out [Hcv Hcb]].
      injection Hcb as Hx. cbn [leaky_relu ShapeTorch] in Hx. subst out.
      change (conv_forward ?a ?b) with (conv_shape a b) in Hcv.
      apply conv_shape_rank in Hcv. rewrite Hnd, Hw in Hcv.
      change (max_pool_forward ?a ?b) with (max_pool_shape a b) in Hmp.
      apply max_pool_keeps in Hmp. destruct Hmp as [Hl Hh].
      rewrite Hl, Hh. exact Hcv.
    + apply (IH (S k) x1 h1 r); [| exact Hrest].
      destruct Hlast as [cs [cb [Hl Hrest']]].
      exists cs, cb. split; [| exact Hrest']. exact Hl.
Qed.

Lemma encode_pairs_rank (self : Bottleneck) (Q : tshape -> Prop) :
  (forall p v hs,
      Unet2_forward (unet self) p "encode" None = Ok (v, hs) ->
      exists x xh, v = Encoded x xh /\ Q x) ->
  forall (pairs : list (tshape * tshape)) (X : list tshape)
         (Xh : list (list tshape)) r,
    Forall (fun t => exists s, t = 1 :: s /\ Q s) X ->
    for_each pairs
      (fun '(src, trg) '(X, X_hist) =>
         p <- cat [src; trg] 1 ;;
         r <- Unet2_forward (unet self) p "encode" None ;;
         match fst r with
         | Encoded x x_history =>
             Ok (X ++ [unsqueeze x 0], X_hist ++ [x_history])
         | _ => Err (TypeError "cannot unpack non-iterable object")
         end)
      (X, Xh) = Ok r ->
    Forall (fun t => exists s, t = 1 :: s /\ Q s) (fst r).
Proof.
  intros Hrk. induction pairs as [| [src trg] pairs IH]; intros X Xh r HX Hr.
  - simpl in Hr. inversion Hr. exact HX.
  - cbn [for_each] in Hr. apply bind_ok in Hr.
    destruct Hr as [[X1 Xh1] [Hstep Hrest]].
    apply bind_ok in Hstep. destruct Hstep as [pr [_ Hstep]].
    apply bind_ok in Hstep. destruct Hstep as [[v hs] [Henc Hstep]].
    destruct (Hrk _ _ _ Henc) as [x [xh [Hv Hlen]]]. subst v.
    cbn [fst] in Hstep. injection Hstep as HX1 _. subst X1.
    apply (IH (X ++ [unsqueeze x 0]) Xh1 r); [| exact Hrest].
    apply Forall_app. split; [exact HX |].
    constructor; [| constructor]. exists x. split; [reflexivity | exact Hlen].
Qed.

(** X13. A model can be built on an image size of three extents, but its
    forward pass never returns.  The features of a three-dimensional
    encoder are stacked to six axes where line 38 unpacks five; for
    unbatched pairs they are stacked to five axes of which the second,
    read as the batch size, is the 64 channels of the bottleneck, which
    the assertion of line 39 refuses. *)
Theorem forward_never_returns_in_3d :
  forall (size : list nat) (b : Bottleneck) (images : tshape)
         (labels : option tshape) (g : nat),
    Bottleneck_init size = Ok b ->
    List.length size = 3 ->
    exists e, Bottleneck_forward b images labels g = (Err e, g).
Proof.
  intros size b images labels g Hinit Hsize.
  destruct size as [| s0 [| s1 [| s2 [| s3 rest]]]]; try discriminate.
  apply Bottleneck_init_unet in Hinit.
  remember (unet b) as u eqn:Hunet.
  assert (Hlast : exists cs cb,
             last (encoder u) [] = cs ++ [cb]
             /\ conv_ndims (main cb) = 3 /\ out_channels (main cb) = 64).
  { pose proof Hinit as Hu'. vm_compute in Hu'. injection Hu' as Hu'.
    rewrite <- Hu'. exists []. eexists. split; [reflexivity |].
    split; reflexivity. }
  assert (Hrk : forall p v hs,
             Unet2_forward (unet b) p "encode" None = Ok (v, hs) ->
             exists x xh,
               v = Encoded x xh
               /\ (List.length x = 5 \/ (List.length x = 4 /\ hd 0 x = 64))).
  { intros p v hs Hv. rewrite <- Hunet in Hv.
    apply forward_encode_inv in Hv. destruct Hv as [x [xh [Hv [_ Henc]]]].
    exists x, xh. split; [exact Hv |].
    unfold Unet2_encode, enumerate in Henc.
    apply (encode_loop_rank u 3 64 _ _ _ _ _ Hlast) in Henc. exact Henc. }
  destruct (encode_stage b images) as [e | err] eqn:Hstage.
  - exfalso. unfold encode_stage in Hstage.
    apply bind_ok in Hstage. destruct Hstage as [[[imgs Xh] enc_out] [Hst Hck]].
    apply check_entry_accepts in Hck.
    destruct Hck as [C' [W' [H' [Hshape _]]]]. simpl in Hshape.
    unfold stack_pairs in Hst.
    apply bind_ok in Hst. destruct Hst as [fs [_ Hst]].
    apply bind_ok in Hst. destruct Hst as [[X Xh'] [Hpairs Hst]].
    apply bind_ok in Hst. destruct Hst as [enc [Hcat Hst]].
    injection Hst as _ _ Henc. subst enc.
    unfold encode_pairs in Hpairs.
    apply (encode_pairs_rank b _ Hrk) in Hpairs; [| constructor].
    cbn [fst] in Hpairs.
    assert (Hlead : Forall (fun t => exists s, t = 1 :: s) X).
    { eapply Forall_impl; [| exact Hpairs].
      intros a [s' [Ha _]]. exists s'. exact Ha. }
    change (cat ?a ?b) with (cat_shape a b) in Hcat.
    unfold cat_shape in Hcat. destruct X as [| t ts]; [discriminate |].
    rewrite (filter_unit_lead Hlead) in Hcat.
    inversion Hpairs as [| t' ts' [s [Ht Hq]] Hall]; subst t' ts' t.
    inversion Hlead as [| t' ts' _ Hlead']; subst t' ts'.
    simpl in Hcat. apply cat_stack_loop in Hcat; [| exact Hlead'].
    rewrite Hshape in Hcat. injection Hcat as _ Hs. subst s.
    destruct Hq as [Hq | [_ Hq]]; simpl in Hq; discriminate Hq.
  - exists err. apply forward_fails_at_entry. exact Hstage.
Qed.

Lemma forward_never_returns_in_3d_witness :
  exists b,
    Bottleneck_init [64; 64; 64] = Ok b
    /\ exists e,
        Bottleneck_forward b [40; 1; 1; 64; 64; 64] None 0 = (Err e, 0).
Proof.
  eexists. split; [reflexivity |].
  apply (forward_never_returns_in_3d [64; 64; 64] _ _ None 0); reflexivity.
Defined.

(** ** Half-resolution mode *)

(** The decoder loop over levels that all take their skip connection,
    whatever the mode: [skips] lists the widths of the entries popped. *)
Lemma decode_loop_skips (n nd p : nat) (self : Unet2) (skips es D : list nat) :
  In nd [1; 2; 3] -> 1 <= p ->
  List.length D = nd ->
  Forall (fun d => 1 <= d /\ Nat.divide (p ^ List.length es) d) D ->
  (forall lvl sk, nth_error skips lvl = Some sk -> lvl < List.length es ->
                  nth_error es (List.length es - 1 - lvl) = Some sk) ->
  forall (lvl c : nat) (levels : list (list ConvBlock)) (c' : nat),
    dec_levels nd skips lvl c levels c' ->
    1 <= c ->
    Forall (fun w => 1 <= w) (level_widths levels) ->
    lvl + List.length levels = List.length es ->
    (forall j, j < List.length levels ->
               takes_skip (half_res self) (nb_levels self) (lvl + j) = true
               /\ nth_error (upsampling self) (lvl + j)
                  = Some {| scale_factor := p |}) ->
    forall hbase : list tshape,
      for_each (combine (seq lvl (List.length levels)) levels)
        (decode_level self)
        (n :: c :: map (fun d => d / p ^ List.length levels) D,
         hbase ++ firstn (List.length levels) (hist_of n p D es))
      = Ok (n :: c' :: D, hbase)
      /\ 1 <= c'.
Proof.
  intros Hnd Hp HlenD HD Hskips.
  induction 1 as [lvl c | lvl c convs d0 skip levels c' Hc Hsk Hl IH];
    intros Hc1 Hw Hsum Hup hbase.
  - split; [| exact Hc1].
    simpl. rewrite app_nil_r. rewrite map_id_on; [reflexivity |].
    apply Forall_forall. intros d _. apply Nat.div_1_r.
  - apply level_widths_cons in Hw. destruct Hw as [Hwc Hwl].
    pose proof (@chain_out_pos nd c d0 convs Hc Hwc Hc1) as Hd0.
    set (m := List.length levels) in *.
    assert (Hm : S m <= List.length es) by (simpl in Hsum; lia).
    assert (Hdiv : Forall (fun d => Nat.divide (p ^ S m) d) D).
    { eapply Forall_impl; [| exact HD]. intros d [_ Hd].
      apply (@divide_pow_le p (S m) (List.length es) d Hm Hd). }
    assert (Hpos : Forall (fun d => 1 <= d) (map (fun d => d / p ^ S m) D)).
    { apply Forall_map. eapply Forall_impl; [| exact HD]. intros d [Hd1 Hd].
      apply Nat.div_str_pos. split; [apply (pow_pos (S m) Hp) |].
      apply divide_pos_bound;
        [exact Hd1 | apply (@divide_pow_le p (S m) (List.length es) d Hm Hd)]. }
    assert (Hlenm : List.length (map (fun d => d / p ^ S m) D) = nd)
      by (rewrite length_map; exact HlenD).
    destruct (Hup 0) as [Hts Hu]; [simpl; lia |].
    rewrite Nat.add_0_r in Hts, Hu.
    assert (Hes : nth_error es m = Some skip).
    { replace m with (List.length es - 1 - lvl) by (simpl in Hsum; lia).
      apply Hskips; [exact Hsk | simpl in Hsum; lia]. }
    cbn [List.length seq combine for_each]. fold m.
    unfold decode_level at 1.
    rewrite (@apply_convs_shape n nd c d0 convs _ Hc Hwc Hlenm Hpos).
    cbn [bind].
    rewrite Hts. rewrite (getitem_nth _ _ Hu). cbn [bind].
    change (upsample_forward ?a ?b) with (upsample_shape a b).
    rewrite (@upsample_scale n nd p d0 _ Hnd Hp Hd0 Hlenm Hpos). cbn [bind].
    rewrite (firstn_succ_nth _ _ (@hist_of_nth n p es m D skip Hes)).
    rewrite app_assoc, pop_snoc. cbn [bind].
    change (cat ?a ?b) with (cat_shape a b).
    rewrite map_map.
    rewrite (map_ext_Forall _ (fun d => d / p ^ m)).
    + rewrite cat_channels. cbn [bind]. apply IH.
      * lia.
      * exact Hwl.
      * simpl in Hsum. fold m in Hsum. fold m. lia.
      * intros j Hj. replace (S lvl + j) with (lvl + S j) by lia.
        apply Hup. simpl. fold m. lia.
    + eapply Forall_impl; [| exact Hdiv]. intros d Hd.
      apply up_extent; assumption.
Qed.

(** In half-resolution mode every decoder level but the last takes its
    skip connection. *)
Lemma configure_decoder_loop_half (nd : nat) (dec_nf skips : list nat)
    (ncpl nb_lvls c0 : nat) :
  In nd [1; 2; 3] ->
  forall (k a prev : nat) (dec : list (list ConvBlock)) r,
    a + k <= nb_lvls - 2 ->
    dec_levels nd skips 0 c0 dec prev ->
    List.length dec = a ->
    for_each (seq a k)
      (fun level '(prev_nf, dec) =>
         '(convs, prev_nf) <- level_convs nd dec_nf ncpl level prev_nf ;;
         if takes_skip true nb_lvls level then
           skip <- getitem skips level ;;
           Ok (prev_nf + skip, dec ++ [convs])
         else Ok (prev_nf, dec ++ [convs]))
      (prev, dec) = Ok r ->
    dec_levels nd skips 0 c0 (snd r) (fst r)
    /\ List.length (snd r) = a + k.
Proof.
  intros Hnd. induction k as [| k IH]; intros a prev dec r Hak Hd Hlen Hr.
  - simpl in Hr. inversion Hr. simpl. split; [exact Hd | lia].
  - simpl in Hr. apply bind_ok in Hr. destruct Hr as [[p dec'] [Hstep Hrest]].
    apply bind_ok in Hstep. destruct Hstep as [[convs nf] [Hlv Hstep]].
    assert (Hch : chain nd prev convs nf)
      by (eapply level_convs_chain; [exact Hnd | exact Hlv]).
    assert (Hts : takes_skip true nb_lvls a = true)
      by (unfold takes_skip; simpl; apply Nat.ltb_lt; lia).
    rewrite Hts in Hstep.
    apply bind_ok in Hstep. destruct Hstep as [sk [Hsk Hstep]].
    injection Hstep as Hp Hdec. subst p dec'.
    unfold getitem in Hsk. destruct (nth_error skips a) eqn:Hnth; [| discriminate].
    injection Hsk as Hsk. subst n.
    destruct (IH (S a) (nf + sk) (dec ++ [convs]) r) as [Hd' Hlen'];
      [lia | | | exact Hrest |].
    + eapply dec_levels_snoc; [exact Hd | exact Hch |].
      simpl. rewrite Hlen. exact Hnth.
    + rewrite length_app. simpl. lia.
    + split; [exact Hd' | lia].
Qed.

Lemma Unet2_init_spec_half (inshape : list nat) (infeats : nat)
    (nb_features : option features) (nb_levels_arg : option nat)
    (max_pool : max_pool_arg) (feat_mult ncpl : nat) (self : Unet2) :
  Unet2_init inshape infeats nb_features nb_levels_arg max_pool feat_mult ncpl
    true = Ok self ->
  2 <= nb_levels self ->
  let nd := List.length inshape in
  exists es prefix last_level c1 c2,
    List.length es = nb_levels self - 1
    /\ enc_levels nd infeats (encoder self) es
    /\ decoder self = prefix ++ [last_level]
    /\ List.length prefix = nb_levels self - 2
    /\ dec_levels nd (rev (infeats :: es)) 0 (last es infeats) prefix c1
    /\ chain nd c1 last_level c2
    /\ chain nd c2 (remaining self) (final_nf self).
Proof.
  intros Hinit Hnb nd. apply Unet2_init_parts in Hinit. fold nd in Hinit.
  destruct Hinit
    as [enc [dec [prev1 [nfs [prev2 [Hnd [_ [_ [_ [Henc [Hdec Hrem]]]]]]]]]]].
  apply configure_encoder_spec in Henc; [| exact Hnd].
  destruct Henc as [es [Hprev [Hnfs [Hl Hlen]]]]. subst nfs prev1.
  unfold configure_decoder, range in Hdec.
  replace (nb_levels self - 1) with (nb_levels self - 2 + 1) in Hdec by lia.
  rewrite seq_app, for_each_app in Hdec. simpl seq in Hdec.
  apply bind_ok in Hdec. destruct Hdec as [[p1 prefix] [Hpre Hlast]].
  apply (configure_decoder_loop_half nd _ _ ncpl (nb_levels self)
           (last es infeats) Hnd (nb_levels self - 2) 0 (last es infeats) []
           (p1, prefix)) in Hpre;
    [| lia | apply dec_levels_nil | reflexivity].
  destruct Hpre as [Hd Hlp]. cbn [fst snd] in Hd, Hlp.
  cbn [for_each] in Hlast. apply bind_ok in Hlast.
  destruct Hlast as [[p2 dec2] [Hstep Hfin]].
  injection Hfin as Hp2 Hdec2. subst p2 dec2.
  apply bind_ok in Hstep. destruct Hstep as [[convs nf] [Hlv Hstep]].
  assert (Hts : takes_skip true (nb_levels self) (nb_levels self - 2) = false).
  { unfold takes_skip. simpl. apply Nat.ltb_irrefl. }
  simpl Nat.add in Hstep. rewrite Hts in Hstep. injection Hstep as Hp Hdc.
  exists es, prefix, convs, p1, nf.
  split; [exact Hlen |]. split; [exact Hl |]. split; [symmetry; exact Hdc |].
  split; [exact Hlp |]. split; [exact Hd |]. split.
  - eapply level_convs_chain; [exact Hnd | exact Hlv].
  - unfold configure_remaining in Hrem. subst prev2.
    apply (configure_remaining_loop Hnd _ (a := nf) (chain_nil nd nf)) in Hrem.
    exact Hrem.
Qed.

Lemma combine_seq_snoc {X : Type} (xs : list X) (x : X) (k : nat) :
  combine (seq k (List.length (xs ++ [x]))) (xs ++ [x])
  = combine (seq k (List.length xs)) xs ++ [(k + List.length xs, x)].
Proof.
  revert k. induction xs as [| y xs IH]; intros k.
  - simpl. rewrite Nat.add_0_r. reflexivity.
  - change ((y :: xs) ++ [x]) with (y :: (xs ++ [x])).
    cbn [List.length seq combine]. rewrite IH.
    simpl. rewrite Nat.add_succ_r. reflexivity.
Qed.

Lemma skips_mirror (infeats e0 : nat) (es' : list nat) (lvl sk : nat) :
  nth_error (rev (infeats :: e0 :: es')) lvl = Some sk ->
  lvl < List.length es' ->
  nth_error es' (List.length es' - 1 - lvl) = Some sk.
Proof.
  intros Hsk Hlvl. rewrite nth_error_rev in Hsk. simpl List.length in Hsk.
  destruct (Nat.ltb_spec lvl (S (S (List.length es')))) as [_ | Hbad];
    [| lia].
  replace (S (S (List.length es')) - S lvl)
    with (S (S (List.length es' - 1 - lvl))) in Hsk by lia.
  exact Hsk.
Qed.

Lemma level_widths_app (xs ys : list (list ConvBlock)) :
  Forall (fun w => 1 <= w) (level_widths (xs ++ ys)) ->
  Forall (fun w => 1 <= w) (level_widths xs)
  /\ Forall (fun w => 1 <= w) (level_widths ys).
Proof.
  unfold level_widths. rewrite concat_app, map_app. apply Forall_app.
Qed.

Lemma enc_levels_last_pos (nd c : nat) (levels : list (list ConvBlock))
    (es : list nat) :
  enc_levels nd c levels es ->
  1 <= c ->
  Forall (fun w => 1 <= w) (level_widths levels) ->
  1 <= last es c.
Proof.
  induction 1 as [c | c convs e levels es Hc Hl IH]; intros Hc1 Hw;
    [exact Hc1 |].
  apply level_widths_cons in Hw. destruct Hw as [Hwc Hwl].
  rewrite last_cons. apply IH; [| exact Hwl].
  apply (@chain_out_pos nd c e convs Hc Hwc Hc1).
Qed.

(** X9. In half-resolution mode, for a network of at least one level
    whose convolutions each have at least one output channel, with an
    integer pooling factor [p >= 1], encode followed by decode on a
    non-empty input whose extents are positive multiples of
    [p ^ (nb_levels - 1)] returns [(N, final_nf, d1 / p .. dn / p)]: the
    last level neither upsamples nor takes a skip connection, and two
    entries stay on the stack, the input and the activation of the first
    level. *)
Theorem half_res_round_trip :
  forall (inshape : list nat) (infeats : nat) (nb_features : option features)
         (nb_levels_arg : option nat) (p feat_mult nb_conv_per_level : nat)
         (self : Unet2) (n : nat) (dims : list nat),
    Unet2_init inshape infeats nb_features nb_levels_arg (PoolInt p) feat_mult
      nb_conv_per_level true = Ok self ->
    1 <= p ->
    2 <= nb_levels self ->
    1 <= n ->
    1 <= infeats ->
    Forall (fun w => 1 <= w) (conv_widths self) ->
    List.length dims = List.length inshape ->
    Forall (fun d => 1 <= d /\ Nat.divide (p ^ (nb_levels self - 1)) d) dims ->
    exists y hist c0,
      Unet2_forward self (n :: infeats :: dims) "encode" None
      = Ok (Encoded y hist, None)
      /\ Unet2_forward self y "decode" (Some hist)
         = Ok (Decoded (n :: final_nf self :: map (fun d => d / p) dims),
               Some [n :: infeats :: dims; n :: c0 :: dims]).
Proof.
  intros inshape infeats nbf lv p fm ncpl self n dims
    Hinit Hp Hnb _ Hin Hw Hlen HD.
  unfold conv_widths in Hw. apply Forall_app in Hw. destruct Hw as [Hwe Hw].
  apply Forall_app in Hw. destruct Hw as [Hwd Hwr].
  apply level_widths_cons in Hwr. destruct Hwr as [Hwr _].
  pose proof (Unet2_init_lengths _ _ _ _ _ _ _ _ Hinit)
    as [Hhalf [_ [Hle Hld]]].
  pose proof (Unet2_init_pool_int _ _ _ _ _ _ _ _ Hinit) as Hpool.
  pose proof (Unet2_init_inv _ _ _ _ _ _ _ _ Hinit) as [Hnd _].
  destruct (Unet2_init_spec_half _ _ _ _ _ _ _ _ Hinit Hnb)
    as [es [prefix [lastl [c1 [c2 [Hes [Hl [Hdec [Hlp [Hd [Hch Hrem]]]]]]]]]]].
  rewrite Hdec in Hwd. apply level_widths_app in Hwd.
  destruct Hwd as [Hwp Hwl]. apply level_widths_cons in Hwl.
  destruct Hwl as [Hwl _].
  pose proof (enc_levels_last_pos _ _ _ _ Hl Hin Hwe) as Hlast.
  destruct es as [| e0 es']; [simpl in Hes; lia |].
  simpl List.length in Hes.
  assert (Hes' : List.length es' = List.length prefix) by lia.
  set (D' := map (fun d => d / p) dims).
  assert (Hge : Forall (fun d => p ^ List.length (encoder self) <= d) dims).
  { rewrite Hle. eapply Forall_impl; [| exact HD]. intros d [Hd1 Hdv].
    apply divide_pos_bound; assumption. }
  assert (HD' : Forall (fun d => 1 <= d /\ Nat.divide (p ^ List.length es') d)
                  D').
  { apply Forall_map. eapply Forall_impl; [| exact HD]. intros d [Hd1 Hdv].
    replace (nb_levels self - 1) with (S (List.length es')) in Hdv by lia.
    destruct Hdv as [q Hq]. rewrite Nat.pow_succ_r' in Hq.
    replace d with (q * p ^ List.length es' * p) by (rewrite Hq; ring).
    rewrite Nat.div_mul by lia.
    pose proof (pow_pos (List.length es') Hp) as Hpw.
    split; [| exists q; reflexivity].
    destruct q as [| q]; [simpl in Hq; lia | nia]. }
  assert (HposD' : Forall (fun d => 1 <= d) D').
  { eapply Forall_impl; [| exact HD']. intros d [Hd1 _]. exact Hd1. }
  assert (HlenD' : List.length D' = List.length inshape)
    by (unfold D'; rewrite length_map; exact Hlen).
  exists (n :: last (e0 :: es') infeats
            :: map (fun d => d / p ^ List.length (encoder self)) dims),
         ([n :: infeats :: dims] ++ hist_of n p dims (e0 :: es')), e0.
  split.
  - unfold Unet2_forward. simpl String.eqb. cbv iota.
    unfold Unet2_encode, enumerate.
    assert (Hpl : forall j, j < List.length (encoder self) ->
              nth_error (pooling self) (0 + j)
              = Some {| pool_ndims := List.length inshape; pool_kernel := p |})
      by (intros j Hj; apply Hpool; simpl; lia).
    pose proof (@encode_loop_shape n (List.length inshape) p self infeats
                  (encoder self) (e0 :: es') Hp Hl Hin Hwe 0 dims
                  [n :: infeats :: dims] Hpl Hlen Hge) as Henc.
    unfold tshape in Henc |- *. rewrite Henc. reflexivity.
  - unfold Unet2_forward. simpl String.eqb. cbv iota.
    unfold Unet2_decode, enumerate. rewrite Hdec, combine_seq_snoc.
    rewrite for_each_app.
    assert (Hup : forall j, j < List.length prefix ->
              takes_skip (half_res self) (nb_levels self) (0 + j) = true
              /\ nth_error (upsampling self) (0 + j)
                 = Some {| scale_factor := p |}).
    { intros j Hj. split; [| apply Hpool; simpl; lia].
      rewrite Hhalf. unfold takes_skip. simpl. apply Nat.ltb_lt. lia. }
    destruct (decode_loop_skips n (List.length inshape) p self
                (rev (infeats :: e0 :: es')) es' D' Hnd Hp HlenD' HD'
                (skips_mirror infeats e0 es') 0 (last (e0 :: es') infeats)
                prefix c1 Hd Hlast Hwp (eq_sym Hes') Hup
                [n :: infeats :: dims; n :: e0 :: dims]) as [Hloop Hc1].
    assert (Hloop' :
              for_each (combine (seq 0 (List.length prefix)) prefix)
                (decode_level self)
                (n :: last (e0 :: es') infeats
                   :: map (fun d => d / p ^ List.length (encoder self)) dims,
                 [n :: infeats :: dims] ++ hist_of n p dims (e0 :: es'))
              = Ok (n :: c1 :: D', [n :: infeats :: dims; n :: e0 :: dims])).
    { eapply eq_trans; [| exact Hloop].
      apply (f_equal (for_each (combine (seq 0 (List.length prefix)) prefix)
                        (decode_level self))).
      apply f_equal2.
      - f_equal. f_equal. unfold D'. rewrite map_map.
        apply map_ext. intros d. rewrite div_pow_succ.
        f_equal. f_equal. lia.
      - rewrite <- Hes', <- (hist_of_length n p es' D'), firstn_all.
        reflexivity. }
    unfold tshape in Hloop' |- *. rewrite Hloop'. cbn [bind for_each].
    unfold decode_level.
    rewrite (@apply_convs_shape n (List.length inshape) c1 c2 lastl D' Hch
               Hwl HlenD' HposD').
    cbn [bind].
    assert (Hts : takes_skip (half_res self) (nb_levels self)
                    (0 + List.length prefix) = false).
    { rewrite Hhalf, Hlp. unfold takes_skip. simpl. apply Nat.ltb_irrefl. }
    rewrite Hts. cbn [bind].
    rewrite (@apply_convs_shape n (List.length inshape) c2 (final_nf self)
               (remaining self) D' Hrem Hwr HlenD' HposD').
    reflexivity.
Qed.

Lemma half_res_round_trip_witness :
  exists u y hist c0,
    unet_half = Ok u
    /\ Unet2_forward u [1; 2; 8; 8] "encode" None = Ok (Encoded y hist, None)
    /\ Unet2_forward u y "decode" (Some hist)
       = Ok (Decoded (1 :: final_nf u :: map (fun d => d / 2) [8; 8]),
             Some [[1; 2; 8; 8]; 1 :: c0 :: [8; 8]]).
Proof.
  eexists.
  assert (Hu : unet_half = Ok _) by (vm_compute; reflexivity).
  destruct (half_res_round_trip [8; 8] 2 (Some (FeatLists [4] [4; 2])) None
              2 1 1 _ 1 [8; 8] Hu) as [y [hist [c0 [Henc Hdec]]]].
  - lia.
  - simpl. lia.
  - lia.
  - lia.
  - repeat constructor.
  - reflexivity.
  - repeat constructor; try lia; exists 4; reflexivity.
  - exists y, hist, c0. split; [exact Hu |]. split; assumption.
Defined.

(** ** More on the history stack *)

(** What the encoder loop records when it returns. *)
Lemma encode_loop_inv (n nd p : nat) (self : Unet2) (c : nat)
    (levels : list (list ConvBlock)) (es : list nat) :
  enc_levels nd c levels es ->
  forall (k : nat) (dims : list nat) (h : list tshape) r,
    (forall j, j < List.length levels ->
               nth_error (pooling self) (k + j)
               = Some {| pool_ndims := nd; pool_kernel := p |}) ->
    List.length dims = nd ->
    for_each (combine (seq k (List.length levels)) levels) (encode_level self)
      (n :: c :: dims, h) = Ok r ->
    snd r = h ++ hist_of n p dims es.
Proof.
  induction 1 as [c | c convs e levels es Hc Hl IH];
    intros k dims h r Hpool Hlen Hr.
  - simpl in Hr. injection Hr as Hr. subst r. simpl. rewrite app_nil_r.
    reflexivity.
  - assert (Hk : nth_error (pooling self) k
                 = Some {| pool_ndims := nd; pool_kernel := p |}).
    { rewrite <- (Nat.add_0_r k). apply Hpool. simpl. lia. }
    cbn [List.length seq combine for_each] in Hr.
    apply bind_ok in Hr. destruct Hr as [[x1 h1] [Hstep Hrest]].
    unfold encode_level in Hstep.
    apply bind_ok in Hstep. destruct Hstep as [x2 [Hconv Hstep]].
    apply (apply_convs_out _ _ _ _ _ Hc _ _ Hlen) in Hconv. subst x2.
    rewrite (getitem_nth _ _ Hk) in Hstep. cbn [bind] in Hstep.
    apply bind_ok in Hstep. destruct Hstep as [x3 [Hmp Hstep]].
    change (max_pool_forward ?a ?b) with (max_pool_shape a b) in Hmp.
    apply (max_pool_inv _ _ _ _ _ _ Hlen) in Hmp.
    destruct Hmp as [_ [_ Hx3]]. subst x3.
    injection Hstep as Hx Hh. subst x1 h1.
    apply (IH (S k) (map (fun d => d / p) dims)) in Hrest.
    + rewrite Hrest, <- app_assoc. reflexivity.
    + intros j Hj. replace (S k + j) with (k + S j) by lia.
      apply Hpool. simpl. lia.
    + rewrite length_map. exact Hlen.
Qed.

(** X14. The stack that encode returns holds the input and then, for level
    [k], the activation before pooling, at the extents floored [k] times:
    [d / p ^ k]. *)
Theorem encode_history_entries :
  forall (inshape : list nat) (infeats : nat) (nb_features : option features)
         (nb_levels_arg : option nat) (p feat_mult nb_conv_per_level : nat)
         (half : bool) (self : Unet2) (n : nat) (dims : list nat)
         (y : tshape) (hist : list tshape),
    Unet2_init inshape infeats nb_features nb_levels_arg (PoolInt p) feat_mult
      nb_conv_per_level half = Ok self ->
    1 <= p ->
    List.length dims = List.length inshape ->
    Unet2_forward self (n :: infeats :: dims) "encode" None
    = Ok (Encoded y hist, None) ->
    nth_error hist 0 = Some (n :: infeats :: dims)
    /\ forall k, k < nb_levels self - 1 ->
         exists c,
           nth_error hist (S k)
           = Some (n :: c :: map (fun d => d / p ^ k) dims).
Proof.
  intros inshape infeats nbf lv p fm ncpl half self n dims y hist
    Hinit Hp Hlen Henc.
  pose proof (Unet2_init_lengths _ _ _ _ _ _ _ _ Hinit) as [_ [Hnb [Hle _]]].
  pose proof (Unet2_init_pool_int _ _ _ _ _ _ _ _ Hinit) as Hpool.
  pose proof (Unet2_init_spec _ _ _ _ _ _ _ _ Hinit) as [es [Hes [Hl _]]].
  assert (Hpl : forall j, j < List.length (encoder self) ->
            nth_error (pooling self) (0 + j)
            = Some {| pool_ndims := List.length inshape; pool_kernel := p |}).
  { intros j Hj. apply Hpool. rewrite Hle in Hj. simpl. lia. }
  apply forward_encode_inv in Henc.
  destruct Henc as [x [xh [Hv [_ Henc]]]].
  injection Hv as Hy Hh. subst x xh.
  unfold Unet2_encode, enumerate in Henc.
  apply (encode_loop_inv n (List.length inshape) p self infeats
           (encoder self) es Hl 0 dims [n :: infeats :: dims] _ Hpl Hlen)
    in Henc.
  cbn [snd] in Henc. subst hist.
  split; [reflexivity |].
  intros k Hk.
  destruct (nth_error es k) as [e |] eqn:Hnth.
  - exists e. simpl. apply (@hist_of_nth n p es k dims e Hnth).
  - apply nth_error_None in Hnth. lia.
Qed.

Lemma encode_history_entries_witness :
  exists u,
    unet_ref = Ok u
    /\ nth_error history_ref 0 = Some frame_pair_ref
    /\ forall k, k < nb_levels u - 1 ->
         exists c,
           nth_error history_ref (S k)
           = Some (1 :: c :: map (fun d => d / 2 ^ k) [256; 256]).
Proof.
  eexists. split; [vm_compute; reflexivity |].
  refine (encode_history_entries [256; 256] 2
            (Some (FeatLists enc_nf_ref dec_nf_ref)) None 2 1 1 false _ 1
            [256; 256] bottleneck_ref history_ref _ _ _ _).
  - vm_compute. reflexivity.
  - lia.
  - reflexivity.
  - vm_compute. reflexivity.
Defined.

Lemma for_each_fails {X S : Type} (xs : list X) (body : X -> S -> result S)
    (x : X) :
  In x xs ->
  (forall s, exists e, body x s = Err e) ->
  forall s, exists e, for_each xs body s = Err e.
Proof.
  intros Hin Hbody. induction xs as [| y xs IH]; [destruct Hin |].
  intros s. cbn [for_each].
  destruct (body y s) as [s1 | err] eqn:Hy; [| exists err; reflexivity].
  cbn [bind]. destruct Hin as [-> | Hin].
  - destruct (Hbody s) as [e He]. congruence.
  - apply (IH Hin).
Qed.

Lemma in_enumerate_from {X : Type} (l : list X) :
  forall (k i : nat) (x : X),
    nth_error l i = Some x ->
    In (k + i, x) (combine (seq k (List.length l)) l).
Proof.
  induction l as [| y l IH]; intros k i x Hi; [destruct i; discriminate |].
  destruct i as [| i]; simpl in Hi |- *.
  - injection Hi as Hy. subst y. left. rewrite Nat.add_0_r. reflexivity.
  - right. rewrite Nat.add_succ_r. apply (IH (S k) i x Hi).
Qed.

(** X15. A [max_pool] list with fewer factors than there are encoder levels is
    accepted at construction, but then the encode pass fails on every
    input: [self.pooling[level]] runs out of range. *)
Theorem encode_fails_on_short_pool_list :
  forall (inshape : list nat) (infeats : nat) (nb_features : option features)
         (nb_levels_arg : option nat) (ss : list nat)
         (feat_mult nb_conv_per_level : nat) (half : bool) (self : Unet2)
         (x : tshape),
    Unet2_init inshape infeats nb_features nb_levels_arg (PoolList ss)
      feat_mult nb_conv_per_level half = Ok self ->
    List.length ss < nb_levels self - 1 ->
    exists e, Unet2_forward self x "encode" None = Err e.
Proof.
  intros inshape infeats nbf lv ss fm ncpl half self x Hinit Hshort.
  pose proof (Unet2_init_lengths _ _ _ _ _ _ _ _ Hinit) as [_ [_ [Hle _]]].
  pose proof (Unet2_init_inv _ _ _ _ _ _ _ _ Hinit) as [_ [_ [Hpool _]]].
  cbv zeta in Hpool.
  assert (Hnth : nth_error (encoder self) (List.length ss) <> None)
    by (apply nth_error_Some; lia).
  destruct (nth_error (encoder self) (List.length ss)) as [convs |] eqn:Hc;
    [| contradiction].
  destruct (for_each_fails (enumerate (encoder self)) (encode_level self)
              (List.length ss, convs)) with (s := (x, [x])) as [e He].
  - unfold enumerate.
    apply (in_enumerate_from (encoder self) 0 (List.length ss) convs Hc).
  - intros [x1 h1]. unfold encode_level.
    destruct (apply_convs convs x1) as [x2 | err]; [| exists err; reflexivity].
    cbn [bind]. rewrite Hpool. unfold getitem.
    rewrite nth_error_map.
    replace (nth_error ss (List.length ss)) with (@None nat)
      by (symmetry; apply nth_error_None; lia).
    eexists. reflexivity.
  - exists e. unfold Unet2_forward. simpl String.eqb. cbv iota.
    unfold Unet2_encode. rewrite He. reflexivity.
Qed.

Lemma encode_fails_on_short_pool_list_witness :
  exists u,
    Unet2_init [8; 8] 2 (Some (FeatLists [4; 8] [8; 4; 2])) None (PoolList [2])
      1 1 false = Ok u
    /\ exists e, Unet2_forward u [1; 2; 8; 8] "encode" None = Err e.
Proof.
  eexists. split; [vm_compute; reflexivity |].
  refine (encode_fails_on_short_pool_list [8; 8] 2
            (Some (FeatLists [4; 8] [8; 4; 2])) None [2] 1 1 false _
            [1; 2; 8; 8] _ _).
  - vm_compute. reflexivity.
  - simpl. lia.
Defined.
